(** * tinynn: the layers of [core/layers.py]

    A shallow embedding of [Conv2D] and [MaxPool2D] (forward, backward and the
    padding calculators) together with the part of numpy they call, and of
    [Flatten], [Dense], [Activation] and [ReLU].

    Conventions of the embedding.
    - Python integers are [Z]; [//] and [%] are [Z.div] and [Z.modulo], which
      round like Python's (towards minus infinity, remainder with the sign of
      the divisor).
    - An [ndarray] is its shape together with the function from a
      multi-index to the entry stored there.  Entries are integers: the
      arithmetic of the layers is modelled exactly, rounding of 64-bit floats
      is outside the model.
    - A Python exception is [Raise] of the name of its class; every
      function that can raise returns a [result].
    - The parameter initializers live in [core/initializer.py], outside
      the layers; a layer holds them as functions from the requested
      shape to the array they return. *)

From Stdlib Require Import ZArith List String Lia Bool.
Import ListNotations.
Local Open Scope string_scope.
Local Open Scope list_scope.
Local Open Scope Z_scope.

Set Implicit Arguments.

(* ------------------------------------------------------------------ *)
(** ** Exceptions *)

Inductive result (A : Type) : Type :=
| Ok (a : A)
| Raise (e : string).

Arguments Ok {A} a.
Arguments Raise {A} e.

Definition bind {A B : Type} (m : result A) (f : A -> result B) : result B :=
  match m with
  | Ok a => f a
  | Raise e => Raise e
  end.

Notation "x <- m ;; k" := (bind m (fun x => k))
  (at level 61, m at next level, right associativity).
Notation "' pat <- m ;; k" := (bind m (fun x => match x with pat => k end))
  (at level 61, pat pattern, m at next level, right associativity).

Definition raises {A : Type} (m : result A) : Prop :=
  exists e, m = Raise e.

Definition guard (b : bool) (e : string) : result unit :=
  if b then Ok tt else Raise e.

(** [for x in xs: ys.append(f(x))] *)
Fixpoint mapM {A B : Type} (f : A -> result B) (xs : list A) : result (list B) :=
  match xs with
  | [] => Ok []
  | x :: xs' => y <- f x ;; ys <- mapM f xs' ;; Ok (y :: ys)
  end.

(** [for x in xs: acc = f(acc, x)] *)
Fixpoint foldM {A S : Type} (f : S -> A -> result S) (xs : list A) (s : S)
  : result S :=
  match xs with
  | [] => Ok s
  | x :: xs' => s' <- f s x ;; foldM f xs' s'
  end.

(* ------------------------------------------------------------------ *)
(** ** Python built-ins *)

(** [range(0, stop, step)]; a zero step raises [ValueError]. *)
Definition py_range (stop step : Z) : result (list Z) :=
  if step =? 0 then Raise "ValueError"
  else
    let n := if 0 <? step then (stop + step - 1) / step
             else (stop + step + 1) / step in
    Ok (map (fun i => Z.of_nat i * step) (seq 0 (Z.to_nat n))).

(** [enumerate(xs)] *)
Definition enumerate {A : Type} (xs : list A) : list (Z * A) :=
  combine (map Z.of_nat (seq 0 (List.length xs))) xs.

(** [int(a / b + 1)] on integers [a], [b]: true division, then truncation
    towards zero.  [a / b + 1] is the rational [(a + b) / b]. *)
Definition int_div_plus_one (a b : Z) : result Z :=
  if b =? 0 then Raise "ZeroDivisionError" else Ok (Z.quot (a + b) b).

(** [a // b] *)
Definition floordiv (a b : Z) : result Z :=
  if b =? 0 then Raise "ZeroDivisionError" else Ok (a / b).

(** [a % b] *)
Definition pymod (a b : Z) : result Z :=
  if b =? 0 then Raise "ZeroDivisionError" else Ok (a mod b).

(** The bounds of the slice [s[start:stop]] of a sequence of length [len]:
    its first index and its number of elements. *)
Definition slice_norm (len i : Z) : Z :=
  if i <? 0 then Z.max (i + len) 0 else Z.min i len.

Definition slice_bounds (len start stop : Z) : Z * Z :=
  let lo := slice_norm len start in
  let hi := slice_norm len stop in
  (lo, Z.max (hi - lo) 0).

(* ------------------------------------------------------------------ *)
(** ** numpy arrays *)

(** An array: its shape and the entry at each multi-index.  Only the
    entries at indices inside the shape are meaningful. *)
Record ndarray : Type := mkarray { shape : list Z; get : list Z -> Z }.

Definition prod (l : list Z) : Z := fold_right Z.mul 1 l.
Definition size (a : ndarray) : Z := prod (shape a).
Definition ndim (a : ndarray) : nat := List.length (shape a).

(** [0, 1, ..., n-1] *)
Definition zrange (n : Z) : list Z := map Z.of_nat (seq 0 (Z.to_nat n)).

(** Sum of [f 0 + ... + f (n-1)]. *)
Fixpoint sumZ (f : Z -> Z) (n : nat) : Z :=
  match n with
  | O => 0
  | S n' => sumZ f n' + f (Z.of_nat n')
  end.

(** Row-major (C order) position of a multi-index, and its inverse. *)
Fixpoint ravel (sh idx : list Z) : Z :=
  match sh, idx with
  | _ :: sh', i :: idx' => i * prod sh' + ravel sh' idx'
  | _, _ => 0
  end.

Fixpoint unravel (sh : list Z) (k : Z) : list Z :=
  match sh with
  | [] => []
  | _ :: sh' => k / prod sh' :: unravel sh' (k mod prod sh')
  end.

(** All multi-indices of a shape, in row-major order. *)
Fixpoint indices (sh : list Z) : list (list Z) :=
  match sh with
  | [] => [[]]
  | d :: sh' => flat_map (fun i => map (cons i) (indices sh')) (zrange d)
  end.

Fixpoint in_bounds (sh idx : list Z) : Prop :=
  match sh, idx with
  | [], [] => True
  | d :: sh', i :: idx' => 0 <= i < d /\ in_bounds sh' idx'
  | _, _ => False
  end.

Definition shape_eqb (s1 s2 : list Z) : bool :=
  if list_eq_dec Z.eq_dec s1 s2 then true else false.

(** [a.tolist()] of a rank-4 array. *)
Definition tolist4 (a : ndarray) : list (list (list (list Z))) :=
  match shape a with
  | [d0; d1; d2; d3] =>
      map (fun n => map (fun y => map (fun x => map (fun c => get a [n; y; x; c])
        (zrange d3)) (zrange d2)) (zrange d1)) (zrange d0)
  | _ => []
  end.

(** The shape that [reshape] gives an array of [sz] entries: an entry -1
    of [newshape] is replaced by the quotient of [sz] by the product of the
    other entries. *)
Definition infer_shape (sz : Z) (newshape : list Z) : result (list Z) :=
  let known := prod (filter (fun d => negb (d =? -1)) newshape) in
  match count_occ Z.eq_dec newshape (-1) with
  | O => Ok newshape
  | S O =>
      if (known =? 0) || negb (sz mod known =? 0)
      then Raise "ValueError"
      else Ok (map (fun d => if d =? -1 then sz / known else d) newshape)
  | _ => Raise "ValueError"
  end.

(** The entries of [a] read in row-major order under the shape [sh]. *)
Definition reshaped (a : ndarray) (sh : list Z) : ndarray :=
  mkarray sh (fun idx => get a (unravel (shape a) (ravel sh idx))).

(** [a.reshape(newshape)], one entry of [newshape] may be -1. *)
Definition reshape (a : ndarray) (newshape : list Z) : result ndarray :=
  _ <- guard (forallb (fun d => -1 <=? d) newshape) "ValueError" ;;
  sh <- infer_shape (size a) newshape ;;
  _ <- guard (prod sh =? size a) "ValueError" ;;
  Ok (reshaped a sh).

(** Position of [m] in [axes]. *)
Fixpoint position (m : nat) (axes : list nat) : nat :=
  match axes with
  | [] => O
  | ax :: axes' => if Nat.eqb ax m then O else S (position m axes')
  end.

Definition is_permutation (axes : list nat) (n : nat) : bool :=
  Nat.eqb (List.length axes) n
  && forallb (fun m => existsb (Nat.eqb m) axes) (seq 0 n).

(** The array whose axis [k] is the axis [axes[k]] of [a]. *)
Definition transposed (a : ndarray) (axes : list nat) : ndarray :=
  mkarray (map (fun ax => nth ax (shape a) 0) axes)
    (fun idx =>
       get a (map (fun m => nth (position m axes) idx 0) (seq 0 (ndim a)))).

(** [a.transpose(axes)] *)
Definition transpose (a : ndarray) (axes : list nat) : result ndarray :=
  _ <- guard (is_permutation axes (ndim a)) "ValueError" ;;
  Ok (transposed a axes).

(** [a.T] *)
Definition np_T (a : ndarray) : result ndarray :=
  transpose a (rev (seq 0 (ndim a))).

(** The window of shape [sh] of [a] that starts at row [lo1] and column
    [lo2]. *)
Definition window (a : ndarray) (sh : list Z) (lo1 lo2 : Z) : ndarray :=
  mkarray sh
    (fun idx =>
       match idx with
       | n :: y :: x :: r => get a (n :: lo1 + y :: lo2 + x :: r)
       | _ => 0
       end).

(** [a[:, h0:h1, w0:w1, :]] *)
Definition slice_hw (a : ndarray) (h0 h1 w0 w1 : Z) : result ndarray :=
  match shape a with
  | d0 :: d1 :: d2 :: d3 :: rest =>
      let '(lo1, n1) := slice_bounds d1 h0 h1 in
      let '(lo2, n2) := slice_bounds d2 w0 w1 in
      Ok (window a (d0 :: n1 :: n2 :: d3 :: rest) lo1 lo2)
  | _ => Raise "IndexError"
  end.

(** An integer subscript [i] on an axis of length [d]. *)
Definition norm_index (d i : Z) : result Z :=
  if (0 <=? i) && (i <? d) then Ok i
  else if (- d <=? i) && (i <? 0) then Ok (i + d)
  else Raise "IndexError".

(** The sub-array of [a], of shape [sh], at row [i] and column [j]. *)
Definition picked (a : ndarray) (sh : list Z) (i j : Z) : ndarray :=
  mkarray sh
    (fun idx =>
       match idx with
       | n :: r => get a (n :: i :: j :: r)
       | [] => 0
       end).

(** [a[:, i, j, :]] *)
Definition index_hw (a : ndarray) (i j : Z) : result ndarray :=
  match shape a with
  | d0 :: d1 :: d2 :: d3 :: rest =>
      i' <- norm_index d1 i ;;
      j' <- norm_index d2 j ;;
      Ok (picked a (d0 :: d3 :: rest) i' j')
  | _ => Raise "IndexError"
  end.

Definition clamp (lo hi x : Z) : Z := Z.max lo (Z.min hi x).

(** The array of shape [sh] that holds [a] from row [t] and column [l] on,
    filled elsewhere with zeros, or with the nearest entry of [a]. *)
Definition pad_constant (a : ndarray) (sh : list Z) (h w t l : Z) : ndarray :=
  mkarray sh
    (fun idx =>
       match idx with
       | [i; y; x; k] =>
           if (t <=? y) && (y <? t + h) && (l <=? x) && (x <? l + w)
           then get a [i; y - t; x - l; k] else 0
       | _ => 0
       end).

Definition pad_edge (a : ndarray) (sh : list Z) (h w t l : Z) : ndarray :=
  mkarray sh
    (fun idx =>
       match idx with
       | [i; y; x; k] =>
           get a [i; clamp 0 (h - 1) (y - t); clamp 0 (w - 1) (x - l); k]
       | _ => 0
       end).

(** [np.pad(a, pad_width=((0, 0), (t, b), (l, r), (0, 0)), mode=mode)] for
    the two modes the layers use. *)
Definition np_pad (a : ndarray) (t b l r : Z) (mode : string) : result ndarray :=
  match shape a with
  | [n; h; w; c] =>
      _ <- guard ((0 <=? t) && (0 <=? b) && (0 <=? l) && (0 <=? r))
                 "ValueError" ;;
      if String.eqb mode "constant" then
        Ok (pad_constant a [n; t + h + b; l + w + r; c] h w t l)
      else if String.eqb mode "edge" then
        _ <- guard (negb ((h =? 0) && negb ((t =? 0) && (b =? 0)))
                    && negb ((w =? 0) && negb ((l =? 0) && (r =? 0))))
                   "ValueError" ;;
        Ok (pad_edge a [n; t + h + b; l + w + r; c] h w t l)
      else Raise "ValueError"
  | _ => Raise "ValueError"
  end.

(** [np.array(xs)] of a list of arrays: stacks arrays of one shape along a
    new leading axis; the empty list gives an array of shape (0,). *)
Definition stacked (xs : list ndarray) (x : ndarray) : ndarray :=
  mkarray (Z.of_nat (List.length xs) :: shape x)
    (fun idx =>
       match idx with
       | i :: r => get (nth (Z.to_nat i) xs x) r
       | [] => 0
       end).

Definition np_array (xs : list ndarray) : result ndarray :=
  match xs with
  | [] => Ok (mkarray [0] (fun _ => 0))
  | x :: _ =>
      _ <- guard (forallb (fun y => shape_eqb (shape y) (shape x)) xs)
                 "ValueError" ;;
      Ok (stacked xs x)
  end.

(** [np.asarray(xss)] of a list of lists of arrays. *)
Definition np_asarray2 (xss : list (list ndarray)) : result ndarray :=
  rows <- mapM np_array xss ;;
  np_array rows.

(** [a @ b] with [b] a matrix (at both call sites [b] is the result of a
    two-dimensional reshape or its transpose); [a] of any rank >= 1. *)
Definition matmul (a b : ndarray) : result ndarray :=
  match shape b with
  | [k; m] =>
      match rev (shape a) with
      | [] => Raise "ValueError"
      | ka :: pre =>
          _ <- guard (ka =? k) "ValueError" ;;
          Ok (mkarray (rev pre ++ [m])
                (fun idx =>
                   sumZ (fun t => get a (removelast idx ++ [t])
                                  * get b [t; last idx 0])
                        (Z.to_nat k)))
      end
  | _ => Raise "ValueError"
  end.

(** [np.zeros(shape=sh)] *)
Definition np_zeros (sh : list Z) : result ndarray :=
  _ <- guard (forallb (fun d => 0 <=? d) sh) "ValueError" ;;
  Ok (mkarray sh (fun _ => 0)).

(** Broadcasting: the index into an operand of shape [sh] that the index
    [idx] of the result reads, and whether an operand can be broadcast to
    a target shape. *)
Definition bcast_index (sh idx : list Z) : list Z :=
  map (fun di => if fst di =? 1 then 0 else snd di)
      (combine sh (skipn (List.length idx - List.length sh) idx)).

Definition broadcastable_to (sh target : list Z) : bool :=
  Nat.leb (List.length sh) (List.length target)
  && forallb (fun dt => (fst dt =? snd dt) || (fst dt =? 1))
       (combine sh (skipn (List.length target - List.length sh) target)).

Fixpoint broadcast_rev (r1 r2 : list Z) : result (list Z) :=
  match r1, r2 with
  | [], r => Ok r
  | r, [] => Ok r
  | d1 :: t1, d2 :: t2 =>
      d <- (if d1 =? d2 then Ok d1
            else if d1 =? 1 then Ok d2
            else if d2 =? 1 then Ok d1
            else Raise "ValueError") ;;
      t <- broadcast_rev t1 t2 ;;
      Ok (d :: t)
  end.

(** The entrywise product of [a] and [b], both broadcast to [sh]. *)
Definition multiplied (a b : ndarray) (sh : list Z) : ndarray :=
  mkarray sh
    (fun idx => get a (bcast_index (shape a) idx)
                * get b (bcast_index (shape b) idx)).

(** [a * b] *)
Definition np_mul (a b : ndarray) : result ndarray :=
  r <- broadcast_rev (rev (shape a)) (rev (shape b)) ;;
  Ok (multiplied a b (rev r)).

(** [a += v] *)
Definition iadd (a v : ndarray) : result ndarray :=
  _ <- guard (broadcastable_to (shape v) (shape a)) "ValueError" ;;
  Ok (mkarray (shape a)
        (fun idx => get a idx + get v (bcast_index (shape v) idx))).

(** The array [a] with the window of [n1] rows from [lo1] and [n2]
    columns from [lo2] combined by [op] with the entries of [v], broadcast
    to the window. *)
Definition updated (op : Z -> Z -> Z) (a : ndarray) (lo1 n1 lo2 n2 : Z)
    (v : ndarray) : ndarray :=
  mkarray (shape a)
    (fun idx =>
       match idx with
       | n :: y :: x :: r =>
           if (lo1 <=? y) && (y <? lo1 + n1) && (lo2 <=? x) && (x <? lo2 + n2)
           then op (get a idx)
                   (get v (bcast_index (shape v)
                             (n :: y - lo1 :: x - lo2 :: r)))
           else get a idx
       | _ => get a idx
       end).

(** [a[:, h0:h1, w0:w1, :] = op(a[:, h0:h1, w0:w1, :], v)]: [op] is
    addition for [+=] and the second projection for [=]. *)
Definition update_slice_hw (op : Z -> Z -> Z) (a : ndarray)
    (h0 h1 w0 w1 : Z) (v : ndarray) : result ndarray :=
  match shape a with
  | d0 :: d1 :: d2 :: d3 :: rest =>
      let '(lo1, n1) := slice_bounds d1 h0 h1 in
      let '(lo2, n2) := slice_bounds d2 w0 w1 in
      _ <- guard (broadcastable_to (shape v) (d0 :: n1 :: n2 :: d3 :: rest))
                 "ValueError" ;;
      Ok (updated op a lo1 n1 lo2 n2 v)
  | _ => Raise "IndexError"
  end.

Definition iadd_slice_hw := update_slice_hw Z.add.
Definition assign_slice_hw := update_slice_hw (fun _ v => v).

(** Index of the first maximum among [f 0, ..., f (n-1)], and that maximum. *)
Definition argmax_first (f : Z -> Z) (n : nat) : Z :=
  fold_left (fun best j => if f best <? f (Z.of_nat j) then Z.of_nat j else best)
            (seq 1 (n - 1)) 0.

Definition max_of (f : Z -> Z) (n : nat) : Z :=
  fold_left (fun m j => Z.max m (f (Z.of_nat j))) (seq 1 (n - 1)) (f 0).

(** The array of shape [d0 :: rest] that holds, at (n, r...), the value of
    [f] on the [d1] entries of [a] at (n, 0, r...), (n, 1, r...), ... *)
Definition reduced1 (f : (Z -> Z) -> nat -> Z) (a : ndarray)
    (d0 d1 : Z) (rest : list Z) : ndarray :=
  mkarray (d0 :: rest)
    (fun idx =>
       match idx with
       | n :: r => f (fun j => get a (n :: j :: r)) (Z.to_nat d1)
       | [] => 0
       end).

(** [np.argmax(a, axis=1)] and [np.max(a, axis=1)] *)
Definition np_argmax1 (a : ndarray) : result ndarray :=
  match shape a with
  | d0 :: d1 :: rest =>
      _ <- guard (0 <? d1) "ValueError" ;;
      Ok (reduced1 argmax_first a d0 d1 rest)
  | _ => Raise "AxisError"
  end.

Definition np_max1 (a : ndarray) : result ndarray :=
  match shape a with
  | d0 :: d1 :: rest =>
      _ <- guard (0 <? d1) "ValueError" ;;
      Ok (reduced1 max_of a d0 d1 rest)
  | _ => Raise "AxisError"
  end.

(** The rows of the [p] x [p] identity matrix selected by [pos]. *)
Definition one_hot (p : Z) (pos : ndarray) : ndarray :=
  mkarray (shape pos ++ [p])
    (fun idx =>
       let v := get pos (removelast idx) in
       let v := if v <? 0 then v + p else v in
       if last idx 0 =? v then 1 else 0).

(** [np.eye(p)[pos]] for an integer array [pos]. *)
Definition eye_rows (p : Z) (pos : ndarray) : result ndarray :=
  _ <- guard (0 <=? p) "ValueError" ;;
  _ <- guard (forallb (fun i => (- p <=? get pos i) && (get pos i <? p))
                      (indices (shape pos))) "IndexError" ;;
  Ok (one_hot p pos).

(** [a] with a new axis of length [k] after the first, every entry of
    which repeats [a]. *)
Definition spread1 (a : ndarray) (d0 k : Z) (rest : list Z) : ndarray :=
  mkarray (d0 :: k :: rest)
    (fun idx =>
       match idx with
       | n :: _ :: r => get a (n :: r)
       | _ => 0
       end).

(** [a[:, np.newaxis, :]] *)
Definition newaxis1 (a : ndarray) : result ndarray :=
  match shape a with
  | d0 :: d1 :: rest => Ok (spread1 a d0 1 (d1 :: rest))
  | _ => Raise "IndexError"
  end.

(** [a] with each entry along axis 1 repeated [repeats] times. *)
Definition repeated1 (a : ndarray) (d0 d1 repeats : Z) (rest : list Z)
  : ndarray :=
  mkarray (d0 :: d1 * repeats :: rest)
    (fun idx =>
       match idx with
       | n :: j :: r => get a (n :: j / repeats :: r)
       | _ => 0
       end).

(** [np.repeat(a, repeats, axis=1)] *)
Definition np_repeat1 (a : ndarray) (repeats : Z) : result ndarray :=
  match shape a with
  | d0 :: d1 :: rest =>
      _ <- guard (0 <=? repeats) "ValueError" ;;
      Ok (repeated1 a d0 d1 repeats rest)
  | _ => Raise "AxisError"
  end.

(** [np.sum(a, axis=(0, 1, 2))] *)
Definition np_sum012 (a : ndarray) : result ndarray :=
  match shape a with
  | d0 :: d1 :: d2 :: rest =>
      Ok (mkarray rest
            (fun idx =>
               sumZ (fun n => sumZ (fun i => sumZ (fun j =>
                 get a (n :: i :: j :: idx))
                 (Z.to_nat d2)) (Z.to_nat d1)) (Z.to_nat d0)))
  | _ => Raise "AxisError"
  end.

(* ------------------------------------------------------------------ *)
(** ** class Conv2D *)

Module Conv2D.

(** The four-element list [pad] of the source, read by the callers as
    [(pad[0], pad[1], pad[2], pad[3])] = (top, bottom, left, right). *)
Definition pad4 : Type := (Z * Z * Z * Z)%type.

(** [Conv2D._get_padding(ks, mode)]: the list (top, bottom, left, right),
    or [None] (after printing "Invalid mode") for an unknown mode. *)
Definition _get_padding (ks : Z * Z) (mode : string) : option pad4 :=
  let '(ks0, ks1) := ks in
  if String.eqb mode "FULL" then
    Some (ks0 - 1, ks1 - 1, ks0 - 1, ks1 - 1)
  else if String.eqb mode "VALID" then
    Some (0, 0, 0, 0)
  else if String.eqb mode "SAME" then
    let pad0 := (ks0 - 1) / 2 in
    let pad1 := (ks0 - 1) / 2 in
    let pad2 := (ks1 - 1) / 2 in
    let pad3 := (ks1 - 1) / 2 in
    let pad1 := if ks0 mod 2 =? 0 then pad1 + 1 else pad1 in
    let pad3 := if ks1 mod 2 =? 0 then pad3 + 1 else pad3 in
    Some (pad0, pad1, pad2, pad3)
  else None.

(** The dictionary [self.cache] written by [forward]. *)
Record cache_t : Type := mkcache {
  c_in_n : Z;
  c_in_img_size : Z * Z * Z;
  c_kernel_size : Z * Z * Z;
  c_stride : Z * Z;
  c_pad : pad4;
  c_pad_img_size : Z * Z * Z;
  c_out_img_size : Z * Z * Z;
  c_X_matrix : ndarray;
  c_W_matrix : ndarray
}.

(** The state of a layer.  [kernel] is (height, width, in_channels,
    out_channels) and [stride] is (height, width): the constructor asserts
    their lengths.  The initializers are supplied by the caller; an entry
    of [params] or [grads] that is absent from the dictionary is [None]. *)
Record t : Type := mk {
  padding_mode : string;
  kernel : Z * Z * Z * Z;
  stride : Z * Z;
  w_init : Z * Z * Z * Z -> ndarray;
  b_init : Z -> ndarray;
  is_init : bool;
  params_w : option ndarray;
  params_b : option ndarray;
  grads_w : option ndarray;
  grads_b : option ndarray;
  cache : option cache_t
}.

(** [Conv2D(kernel, stride, padding, w_init, b_init)] *)
Definition __init__ (kernel : Z * Z * Z * Z) (stride : Z * Z)
    (padding : string) (w_init : Z * Z * Z * Z -> ndarray)
    (b_init : Z -> ndarray) : result t :=
  _ <- guard (String.eqb padding "FULL" || String.eqb padding "SAME"
              || String.eqb padding "VALID") "AssertionError" ;;
  Ok (mk padding kernel stride w_init b_init false None None None None None).

Definition _init_parameters (self : t) : t :=
  let '(_, _, _, out_c) := kernel self in
  mk (padding_mode self) (kernel self) (stride self) (w_init self)
     (b_init self) true
     (Some (w_init self (kernel self))) (Some (b_init self out_c))
     (grads_w self) (grads_b self) (cache self).

Definition set_cache (self : t) (c : cache_t) : t :=
  mk (padding_mode self) (kernel self) (stride self) (w_init self)
     (b_init self) (is_init self) (params_w self) (params_b self)
     (grads_w self) (grads_b self) (Some c).

Definition set_grads (self : t) (gw gb : ndarray) : t :=
  mk (padding_mode self) (kernel self) (stride self) (w_init self)
     (b_init self) (is_init self) (params_w self) (params_b self)
     (Some gw) (Some gb) (cache self).

(** A dictionary lookup [d[key]] of an entry that may be absent. *)
Definition lookup {A : Type} (o : option A) : result A :=
  match o with
  | Some a => Ok a
  | None => Raise "KeyError"
  end.

(** The patch matrix rows of one output position:
    [padded[:, row:row+k_h, col:col+k_w, :].reshape(-1, ker_len)] *)
Definition patch_at (padded : ndarray) (k_h k_w ker_len row col : Z)
  : result ndarray :=
  patch <- slice_hw padded row (row + k_h) col (col + k_w) ;;
  reshape patch [-1; ker_len].

(** [if not self.is_init: self._init_parameters()] *)
Definition lazy_init (self : t) : t :=
  if is_init self then self else _init_parameters self.

(** [Conv2D.forward(inputs)]: the outputs and the layer afterwards. *)
Definition forward (self : t) (inputs : ndarray) : result (ndarray * t) :=
  let self := lazy_init self in
  let '(k_h, k_w, _, kernel_last) := kernel self in
  let '(s_h, s_w) := stride self in
  match _get_padding (k_h, k_w) (padding_mode self) with
  | None => Raise "TypeError"
  | Some (pad0, pad1, pad2, pad3) =>
      padded <- np_pad inputs pad0 pad1 pad2 pad3 "edge" ;;
      match shape inputs, shape padded with
      | [in_n; in_h; in_w; in_c], [_; padded_h; padded_w; _] =>
          out_h <- int_div_plus_one (padded_h - k_h) s_h ;;
          out_w <- int_div_plus_one (padded_w - k_w) s_w ;;
          let out_c := kernel_last in
          kernel_w <- lookup (params_w self) ;;
          let ker_len := prod (firstn 3 (shape kernel_w)) in
          rows <- py_range (padded_h - k_h + 1) s_h ;;
          patches <-
            mapM (fun row =>
                    cols <- py_range (padded_w - k_w + 1) s_w ;;
                    mapM (fun col => patch_at padded k_h k_w ker_len row col)
                         cols)
                 rows ;;
          patches <- np_asarray2 patches ;;
          X_matrix <- transpose patches [2; 0; 1; 3]%nat ;;
          X_matrix <- reshape X_matrix [-1; ker_len] ;;
          W_matrix <- reshape kernel_w [ker_len; -1] ;;
          outputs <- matmul X_matrix W_matrix ;;
          outputs <- reshape outputs [in_n; out_h; out_w; out_c] ;;
          let self :=
            set_cache self
              (mkcache in_n (in_h, in_w, in_c) (k_h, k_w, in_c) (s_h, s_w)
                       (pad0, pad1, pad2, pad3) (padded_h, padded_w, in_c)
                       (out_h, out_w, out_c) X_matrix W_matrix) in
          b <- lookup (params_b self) ;;
          outputs <- iadd outputs b ;;
          Ok (outputs, self)
      | _, _ => Raise "ValueError"
      end
  end.

(** One step of the scatter loop of [backward]:
    [d_in[:, col:col+k_h, row:row+k_w, :] +=
       d_X_matrix[:, i, j, :].reshape((in_n, k_h, k_w, in_c))] *)
Definition scatter_step (d_X_matrix : ndarray) (in_n k_h k_w in_c : Z)
    (i col j row : Z) (d_in : ndarray) : result ndarray :=
  patch <- index_hw d_X_matrix i j ;;
  patch <- reshape patch [in_n; k_h; k_w; in_c] ;;
  iadd_slice_hw d_in col (col + k_h) row (row + k_w) patch.

(** [Conv2D.backward(grad)]: the gradient with respect to the inputs and
    the layer afterwards (with [grads] filled in). *)
Definition backward (self : t) (grad : ndarray) : result (ndarray * t) :=
  match cache self with
  | None => Raise "TypeError"
  | Some c =>
      let in_n := c_in_n c in
      let '(in_h, in_w, in_c) := c_in_img_size c in
      let '(k_h, k_w, _) := c_kernel_size c in
      let '(s_h, s_w) := c_stride c in
      let '(out_h, out_w, out_c) := c_out_img_size c in
      let '(padded_h, padded_w, _) := c_pad_img_size c in
      let '(pad0, pad1, pad2, pad3) := c_pad c in
      X_T <- np_T (c_X_matrix c) ;;
      grad2 <- reshape grad [-1; out_c] ;;
      d_w <- matmul X_T grad2 ;;
      w <- lookup (params_w self) ;;
      gw <- reshape d_w (shape w) ;;
      gb <- np_sum012 grad ;;
      let self := set_grads self gw gb in
      W_T <- np_T (c_W_matrix c) ;;
      d_X_matrix <- matmul grad W_T ;;
      d_in <- np_zeros [in_n; padded_h; padded_w; in_c] ;;
      cols <- py_range (padded_h - k_h + 1) s_h ;;
      d_in <-
        foldM (fun d_in icol =>
                 rows <- py_range (padded_w - k_w + 1) s_w ;;
                 foldM (fun d_in jrow =>
                          scatter_step d_X_matrix in_n k_h k_w in_c
                            (fst icol) (snd icol) (fst jrow) (snd jrow) d_in)
                       (enumerate rows) d_in)
              (enumerate cols) d_in ;;
      d_in <- slice_hw d_in pad0 (padded_h - pad1) pad2 (padded_w - pad3) ;;
      Ok (d_in, self)
  end.

End Conv2D.

(* ------------------------------------------------------------------ *)
(** ** class MaxPool2D *)

Module MaxPool2D.

(** [MaxPool2D._get_padding_1d(input_size, pool_size, stride, mode)] *)
Definition _get_padding_1d (input_size pool_size stride : Z) (mode : string)
  : result (Z * Z) :=
  n_pad <-
    (if String.eqb mode "SAME" then
       r <- pymod input_size stride ;;
       if r =? 0 then Ok (Z.max (pool_size - stride) 0)
       else Ok (Z.max pool_size stride - r)
     else Ok 0) ;;
  let half := n_pad / 2 in
  Ok (if n_pad mod 2 =? 0 then (half, half) else (half, half + 1)).

(** [MaxPool2D._get_padding(input_size, pool_size, stride, mode)] *)
Definition _get_padding (input_size pool_size stride : Z * Z) (mode : string)
  : result (Z * Z * Z * Z) :=
  h_pad <- _get_padding_1d (fst input_size) (fst pool_size) (fst stride) mode ;;
  w_pad <- _get_padding_1d (snd input_size) (snd pool_size) (snd stride) mode ;;
  Ok (fst h_pad, snd h_pad, fst w_pad, snd w_pad).

(** The dictionary [self.cache] written by [forward]; ["pad"] holds the
    padded height and width. *)
Record cache_t : Type := mkcache {
  c_in_n : Z;
  c_in_img_size : Z * Z * Z;
  c_stride : Z * Z;
  c_pad : Z * Z;
  c_pool : Z * Z;
  c_max_pos : ndarray;
  c_out_img_size : Z * Z * Z
}.

Record t : Type := mk {
  pool_size : Z * Z;
  stride : Z * Z;
  padding_mode : string;
  cache : option cache_t
}.

(** [MaxPool2D(pool_size, stride, padding)] *)
Definition __init__ (pool_size stride : Z * Z) (padding : string) : result t :=
  _ <- guard (String.eqb padding "VALID" || String.eqb padding "SAME")
             "AssertionError" ;;
  Ok (mk pool_size stride padding None).

(** The body of the window loop of [forward]: the argmax and the max of
    [padded[:, col:col+pool_h, row:row+pool_w, :].reshape((in_n, -1, in_c))]
    along axis 1. *)
Definition pool_at (padded : ndarray) (in_n in_c pool_h pool_w col row : Z)
  : result (ndarray * ndarray) :=
  pool <- slice_hw padded col (col + pool_h) row (row + pool_w) ;;
  pool <- reshape pool [in_n; -1; in_c] ;;
  pos <- np_argmax1 pool ;;
  mx <- np_max1 pool ;;
  Ok (pos, mx).

(** [np.array(xs).transpose((1, 0, 2)).reshape((in_n, out_h, out_w, in_c))] *)
Definition assemble (xs : list ndarray) (in_n out_h out_w in_c : Z)
  : result ndarray :=
  a <- np_array xs ;;
  a <- transpose a [1; 0; 2]%nat ;;
  reshape a [in_n; out_h; out_w; in_c].

(** [MaxPool2D.forward(inputs)] *)
Definition forward (self : t) (inputs : ndarray) : result (ndarray * t) :=
  match shape inputs with
  | [in_n; in_h; in_w; in_c] =>
      '(pad0, pad1, pad2, pad3) <-
        _get_padding (in_h, in_w) (pool_size self) (stride self)
                     (padding_mode self) ;;
      padded <- np_pad inputs pad0 pad1 pad2 pad3 "constant" ;;
      match shape padded with
      | [_; pad_h; pad_w; _] =>
          let '(s_h, s_w) := stride self in
          let '(pool_h, pool_w) := pool_size self in
          out_h <- floordiv pad_h s_h ;;
          out_w <- floordiv pad_w s_w ;;
          cols <- py_range pad_h s_h ;;
          pools <-
            mapM (fun col =>
                    rows <- py_range pad_w s_w ;;
                    mapM (fun row =>
                            pool_at padded in_n in_c pool_h pool_w col row)
                         rows)
                 cols ;;
          let max_pos_list := map fst (List.concat pools) in
          let patches_list := map snd (List.concat pools) in
          outputs <- assemble patches_list in_n out_h out_w in_c ;;
          max_pos <- assemble max_pos_list in_n out_h out_w in_c ;;
          Ok (outputs,
              mk (pool_size self) (stride self) (padding_mode self)
                 (Some (mkcache in_n (in_h, in_w, in_c) (s_h, s_w)
                                (pad_h, pad_w) (pool_h, pool_w) max_pos
                                (out_h, out_w, in_c))))
      | _ => Raise "ValueError"
      end
  | _ => Raise "ValueError"
  end.

(** One step of the window loop of [backward]. *)
Definition route_step (max_pos grad : ndarray) (in_n in_c pool_h pool_w : Z)
    (i col j row : Z) (d_in : ndarray) : result ndarray :=
  _max_pos <- index_hw max_pos i j ;;
  _grad <- index_hw grad i j ;;
  mask <- eye_rows (pool_h * pool_w) _max_pos ;;
  mask <- transpose mask [0; 2; 1]%nat ;;
  region <- newaxis1 _grad ;;
  region <- np_repeat1 region (pool_h * pool_w) ;;
  region <- np_mul region mask ;;
  region <- reshape region [in_n; pool_h; pool_w; in_c] ;;
  assign_slice_hw d_in col (col + pool_h) row (row + pool_w) region.

(** [MaxPool2D.backward(grad)] *)
Definition backward (self : t) (grad : ndarray) : result (ndarray * t) :=
  match cache self with
  | None => Raise "TypeError"
  | Some c =>
      let in_n := c_in_n c in
      let '(in_h, in_w, in_c) := c_in_img_size c in
      let '(s_h, s_w) := c_stride c in
      let '(pad_h, pad_w) := c_pad c in
      let '(pool_h, pool_w) := c_pool c in
      d_in <- np_zeros [in_n; pad_h; pad_w; in_c] ;;
      cols <- py_range pad_h s_h ;;
      d_in <-
        foldM (fun d_in icol =>
                 rows <- py_range pad_w s_w ;;
                 foldM (fun d_in jrow =>
                          route_step (c_max_pos c) grad in_n in_c pool_h pool_w
                            (fst icol) (snd icol) (fst jrow) (snd jrow) d_in)
                       (enumerate rows) d_in)
              (enumerate cols) d_in ;;
      Ok (d_in, self)
  end.

End MaxPool2D.

(* ------------------------------------------------------------------ *)
(** ** Concrete tensors and layers used by the examples *)

(** [np.array(l)] of a four-level nested list of numbers. *)
Definition of_list4 (l : list (list (list (list Z)))) : ndarray :=
  let l0 := nth 0 l [] in
  let l1 := nth 0 l0 [] in
  let l2 := nth 0 l1 [] in
  mkarray [Z.of_nat (List.length l); Z.of_nat (List.length l0);
           Z.of_nat (List.length l1); Z.of_nat (List.length l2)]
    (fun idx =>
       match idx with
       | [n; y; x; c] =>
           nth (Z.to_nat c) (nth (Z.to_nat x) (nth (Z.to_nat y)
             (nth (Z.to_nat n) l []) []) []) 0
       | _ => 0
       end).

(** [np.ones(sh)] *)
Definition np_ones (sh : list Z) : ndarray := mkarray sh (fun _ => 1).

(** Modelled from the spec: the bias initializer [ZerosInit] of
    [core/initializer.py], which is not among the sources; called with the
    integer [n] it gives the zero vector of length [n] ("bias 0"). *)
Definition zeros_init (n : Z) : ndarray := mkarray [n] (fun _ => 0).

(** What a caller sees of the outcome of [forward] or [backward]: the
    exception, or the shape and the entries of the returned tensor. *)
Definition observe {T : Type} (r : result (ndarray * T))
  : result (list Z * list (list (list (list Z)))) :=
  match r with
  | Ok (a, _) => Ok (shape a, tolist4 a)
  | Raise e => Raise e
  end.

(** [forward] and then [backward] on the layer it leaves. *)
Definition conv_forward_backward (l : Conv2D.t) (x grad : ndarray)
  : result (ndarray * Conv2D.t) :=
  yl <- Conv2D.forward l x ;;
  Conv2D.backward (snd yl) grad.

Definition pool_forward_backward (l : MaxPool2D.t) (x grad : ndarray)
  : result (ndarray * MaxPool2D.t) :=
  yl <- MaxPool2D.forward l x ;;
  MaxPool2D.backward (snd yl) grad.

(** The 1x2x2x1, 1x3x3x1 and 1x4x4x1 inputs that hold 1, 2, ... in
    row-major order. *)
Definition input_1_to_4 : ndarray := of_list4 [[[[1]; [2]]; [[3]; [4]]]].

Definition input_1_to_9 : ndarray :=
  of_list4 [[[[1]; [2]; [3]]; [[4]; [5]; [6]]; [[7]; [8]; [9]]]].

Definition input_1_to_16 : ndarray :=
  of_list4 [[[[1]; [2]; [3]; [4]]; [[5]; [6]; [7]; [8]];
             [[9]; [10]; [11]; [12]]; [[13]; [14]; [15]; [16]]]].

(** The 2x2x1x1 kernel [[1,0],[0,0]], and the stride-1 layers that are
    initialized with it and a zero bias, as the constructor leaves them. *)
Definition top_left_kernel : ndarray :=
  of_list4 [[[[1]]; [[0]]]; [[[0]]; [[0]]]].

Definition top_left_conv : Conv2D.t :=
  Conv2D.mk "VALID" (2, 2, 1, 1) (1, 1) (fun _ => top_left_kernel) zeros_init
            false None None None None None.

Definition top_left_conv_same : Conv2D.t :=
  Conv2D.mk "SAME" (2, 2, 1, 1) (1, 1) (fun _ => top_left_kernel) zeros_init
            false None None None None None.

(** Pooling layers with 2x2 windows and stride 2, as the constructor
    leaves them. *)
Definition pool22_valid : MaxPool2D.t := MaxPool2D.mk (2, 2) (2, 2) "VALID" None.
Definition pool22_same : MaxPool2D.t := MaxPool2D.mk (2, 2) (2, 2) "SAME" None.

(* ------------------------------------------------------------------ *)
(** ** Functions in which the properties are stated *)

(** The pooling pad in the words of the specification, to compare with
    [MaxPool2D._get_padding_1d]. *)
Definition spec_total_pad (n p s : Z) : Z :=
  let r := n mod s in
  if r =? 0 then Z.max (p - s) 0 else Z.max p s - r.

Definition spec_split (total : Z) : Z * Z :=
  if Z.even total then (total / 2, total / 2)
  else (total / 2, total / 2 + 1).

(** Sum of the entries of a list. *)
Definition list_sum (l : list Z) : Z := fold_right Z.add 0 l.

(** The gradient that reaches the patch entry (a, b, c) of output
    position (i, j): the entry of [grad @ W_matrix.T] in row (n, i, j)
    and in the column of (a, b, c), written with the kernel [w]. *)
Definition patch_grad (grad w : ndarray) (oc : Z) (n i j a b c : Z) : Z :=
  sumZ (fun t => get grad [n; i; j; t] * get w [a; b; c; t]) (Z.to_nat oc).

(** What output position (i, j) adds to the entry (n, y, x, c) of the
    padded gradient buffer: its patch gradient when (y, x) lies in its
    receptive field, nothing otherwise. *)
Definition scatter_term (grad w : ndarray) (kh kw oc sh sw : Z)
    (n y x c i j : Z) : Z :=
  if (i * sh <=? y) && (y <? i * sh + kh)
     && (j * sw <=? x) && (x <? j * sw + kw)
  then patch_grad grad w oc n i j (y - i * sh) (x - j * sw) c
  else 0.

(** The padded-size gradient buffer after the scatter loop of
    [Conv2D.backward]: the contributions of all [oh] x [ow] output
    positions, added up. *)
Definition scatter_buffer (grad w : ndarray) (kh kw oc sh sw oh ow : Z)
    (n y x c : Z) : Z :=
  sumZ (fun i => sumZ (fun j =>
          scatter_term grad w kh kw oc sh sw n y x c i j)
          (Z.to_nat ow)) (Z.to_nat oh).

(** The value of the window of output position (i, j) at flat offset
    [k], for batch element [n] and channel [c]. *)
Definition window_value (padded : ndarray) (sh sw pw : Z) (n i j c k : Z) : Z :=
  get padded [n; i * sh + k / pw; j * sw + k mod pw; c].

(** The pooling window that starts at ([col], [row]), with its
    [ph] * [pw] cells flattened in row-major order, and its argmax and
    max along that axis: what [pool_at] computes when the window fits. *)
Definition pool_window (padded : ndarray) (N C ph pw col row : Z) : ndarray :=
  reshaped (window padded [N; ph; pw; C] col row) [N; ph * pw; C].

Definition pool_result (padded : ndarray) (N C ph pw col row : Z)
  : ndarray * ndarray :=
  (reduced1 argmax_first (pool_window padded N C ph pw col row)
            N (ph * pw) [C],
   reduced1 max_of (pool_window padded N C ph pw col row) N (ph * pw) [C]).

(** The block that [route_step] writes for output position (i, j): the
    gradient of that position times the one-hot mask of its argmax. *)
Definition route_region (max_pos grad : ndarray) (N C ph pw i j : Z)
  : ndarray :=
  reshaped
    (multiplied
       (repeated1 (spread1 (picked grad [N; C] i j) N 1 [C])
                  N 1 (ph * pw) [C])
       (transposed (one_hot (ph * pw) (picked max_pos [N; C] i j))
                   [0; 2; 1]%nat)
       [N; ph * pw; C])
    [N; ph; pw; C].

(* ------------------------------------------------------------------ *)
(** ** numpy operations of the flatten, dense and activation layers *)

(** [a.shape[k]] *)
Definition shape_at (a : ndarray) (k : nat) : result Z :=
  match nth_error (shape a) k with
  | Some d => Ok d
  | None => Raise "IndexError"
  end.

(** [a.ravel()]: the entries of [a] in row-major order. *)
Definition np_ravel (a : ndarray) : ndarray := reshaped a [size a].

(** The entrywise sum of [a] and [b], both broadcast to [sh]. *)
Definition added (a b : ndarray) (sh : list Z) : ndarray :=
  mkarray sh
    (fun idx => get a (bcast_index (shape a) idx)
                + get b (bcast_index (shape b) idx)).

(** [a + b] *)
Definition np_add (a b : ndarray) : result ndarray :=
  r <- broadcast_rev (rev (shape a)) (rev (shape b)) ;;
  Ok (added a b (rev r)).

(** [np.sum(a, axis=0)] *)
Definition np_sum0 (a : ndarray) : result ndarray :=
  match shape a with
  | d0 :: rest =>
      Ok (mkarray rest
            (fun idx => sumZ (fun n => get a (n :: idx)) (Z.to_nat d0)))
  | [] => Raise "AxisError"
  end.

(** [np.maximum(a, 0.0)] *)
Definition np_maximum0 (a : ndarray) : ndarray :=
  mkarray (shape a) (fun idx => Z.max (get a idx) 0).

(** [a > 0.0]: the array of truth values; in a product [True] counts as 1
    and [False] as 0. *)
Definition np_greater0 (a : ndarray) : ndarray :=
  mkarray (shape a) (fun idx => if 0 <? get a idx then 1 else 0).

(** [a @ b] for operands of any rank.  A vector is a row as the first
    operand and a column as the second; the leading axes of operands of
    rank above 2 are broadcast; an operand of rank 0 is refused. *)
Definition matmul_nd (a b : ndarray) : result ndarray :=
  match rev (shape a), rev (shape b) with
  | [], _ | _, [] => Raise "ValueError"
  | [ka], [kb] =>
      _ <- guard (ka =? kb) "ValueError" ;;
      Ok (mkarray []
            (fun _ => sumZ (fun t => get a [t] * get b [t]) (Z.to_nat ka)))
  | ka :: n :: prea, [kb] =>
      _ <- guard (ka =? kb) "ValueError" ;;
      Ok (mkarray (rev (n :: prea))
            (fun idx =>
               sumZ (fun t => get a (idx ++ [t]) * get b [t]) (Z.to_nat ka)))
  | [ka], m :: kb :: preb =>
      _ <- guard (ka =? kb) "ValueError" ;;
      Ok (mkarray (rev preb ++ [m])
            (fun idx =>
               sumZ (fun t => get a [t]
                              * get b (removelast idx ++ [t; last idx 0]))
                    (Z.to_nat ka)))
  | ka :: n :: prea, m :: kb :: preb =>
      _ <- guard (ka =? kb) "ValueError" ;;
      batch <- broadcast_rev prea preb ;;
      Ok (mkarray (rev batch ++ [n; m])
            (fun idx =>
               let lead := removelast (removelast idx) in
               let i := last (removelast idx) 0 in
               let j := last idx 0 in
               sumZ (fun t =>
                       get a (bcast_index (rev prea) lead ++ [i; t])
                       * get b (bcast_index (rev preb) lead ++ [t; j]))
                    (Z.to_nat ka)))
  end.

(* ------------------------------------------------------------------ *)
(** ** class Flatten *)

Module Flatten.

(** [self.input_shape]: [None] until the first forward call. *)
Record t : Type := mk { input_shape : option (list Z) }.

(** [Flatten()] *)
Definition __init__ : t := mk None.

(** [Flatten.forward(inputs)]:
    [inputs.ravel().reshape(inputs.shape[0], -1)] *)
Definition forward (self : t) (inputs : ndarray) : result (ndarray * t) :=
  let self := mk (Some (shape inputs)) in
  let flat := np_ravel inputs in
  d0 <- shape_at inputs 0 ;;
  outputs <- reshape flat [d0; -1] ;;
  Ok (outputs, self).

(** [Flatten.backward(grad)]: [grad.reshape(self.input_shape)].  With
    [None] for the shape, [reshape] gives a view of [grad] as it is. *)
Definition backward (self : t) (grad : ndarray) : result (ndarray * t) :=
  match input_shape self with
  | Some sh => d_in <- reshape grad sh ;; Ok (d_in, self)
  | None => Ok (grad, self)
  end.

End Flatten.

(* ------------------------------------------------------------------ *)
(** ** class Dense *)

Module Dense.

(** The state of a layer: the two initializers, called with the shape
    they are to fill; [shapes["w"]] = [num_in, num_out], where [num_in] is
    [None] until it is known, and [shapes["b"]] = [1, num_out]; the
    parameters, both [None] until the layer is initialized; the gradients,
    absent until [backward] stores them; the inputs of the last forward
    call. *)
Record t : Type := mk {
  w_init : list Z -> ndarray;
  b_init : list Z -> ndarray;
  shapes_w : option Z * Z;
  shapes_b : Z * Z;
  params_w : option ndarray;
  params_b : option ndarray;
  grads_w : option ndarray;
  grads_b : option ndarray;
  is_init : bool;
  inputs : option ndarray
}.

(** [Dense._init_parameters(input_size)] *)
Definition _init_parameters (self : t) (input_size : Z) : t :=
  let num_out := snd (shapes_w self) in
  mk (w_init self) (b_init self) (Some input_size, num_out) (shapes_b self)
     (Some (w_init self [input_size; num_out]))
     (Some (b_init self [fst (shapes_b self); snd (shapes_b self)]))
     (grads_w self) (grads_b self) true (inputs self).

(** [Dense(num_out, num_in, w_init, b_init)] *)
Definition __init__ (num_out : Z) (num_in : option Z)
    (w_init b_init : list Z -> ndarray) : t :=
  let self := mk w_init b_init (num_in, num_out) (1, num_out)
                 None None None None false None in
  match num_in with
  | Some n => _init_parameters self n
  | None => self
  end.

Definition set_inputs (self : t) (x : ndarray) : t :=
  mk (w_init self) (b_init self) (shapes_w self) (shapes_b self)
     (params_w self) (params_b self) (grads_w self) (grads_b self)
     (is_init self) (Some x).

Definition set_grads (self : t) (gw gb : ndarray) : t :=
  mk (w_init self) (b_init self) (shapes_w self) (shapes_b self)
     (params_w self) (params_b self) (Some gw) (Some gb)
     (is_init self) (inputs self).

(** [if not self.is_init: self._init_parameters(inputs.shape[1])] *)
Definition lazy_init (self : t) (inputs : ndarray) : result t :=
  if is_init self then Ok self
  else input_size <- shape_at inputs 1 ;;
       Ok (_init_parameters self input_size).

(** [Dense.forward(inputs)]: [inputs @ self.params["w"] + self.params["b"]]
    after the lazy initialization.  A parameter that is still [None] makes
    the product, or the sum, raise. *)
Definition forward (self : t) (inputs : ndarray) : result (ndarray * t) :=
  self <- lazy_init self inputs ;;
  let self := set_inputs self inputs in
  xw <- match params_w self with
        | Some w => matmul_nd inputs w
        | None => Raise "ValueError"
        end ;;
  outputs <- match params_b self with
             | Some b => np_add xw b
             | None => Raise "TypeError"
             end ;;
  Ok (outputs, self).

(** [Dense.backward(grad)]; [self.inputs.T] and [self.params["w"].T] raise
    [AttributeError] on [None]. *)
Definition backward (self : t) (grad : ndarray) : result (ndarray * t) :=
  match inputs self with
  | None => Raise "AttributeError"
  | Some x =>
      x_T <- np_T x ;;
      gw <- matmul_nd x_T grad ;;
      gb <- np_sum0 grad ;;
      let self := set_grads self gw gb in
      match params_w self with
      | None => Raise "AttributeError"
      | Some w =>
          w_T <- np_T w ;;
          d_in <- matmul_nd grad w_T ;;
          Ok (d_in, self)
      end
  end.

End Dense.

(* ------------------------------------------------------------------ *)
(** ** class Activation and class ReLU *)

Module Activation.

(** The two methods that a subclass overrides.  [derivative_func] is
    called with [self.inputs], which is [None] before the first forward
    call. *)
Record methods : Type := mkmethods {
  func : ndarray -> result ndarray;
  derivative_func : option ndarray -> result ndarray
}.

Record t : Type := mk { inputs : option ndarray }.

(** [Activation(name)] *)
Definition __init__ : t := mk None.

(** [Activation.forward(inputs)] *)
Definition forward (m : methods) (self : t) (inputs : ndarray)
  : result (ndarray * t) :=
  let self := mk (Some inputs) in
  outputs <- func m inputs ;;
  Ok (outputs, self).

(** [Activation.backward(grad)]:
    [self.derivative_func(self.inputs) * grad] *)
Definition backward (m : methods) (self : t) (grad : ndarray)
  : result (ndarray * t) :=
  d <- derivative_func m (inputs self) ;;
  d_in <- np_mul d grad ;;
  Ok (d_in, self).

(** The methods of the base class itself. *)
Definition abstract : methods :=
  mkmethods (fun _ => Raise "NotImplementedError")
            (fun _ => Raise "NotImplementedError").

End Activation.

Module ReLU.

(** [ReLU.func(x)]: [np.maximum(x, 0.0)] *)
Definition func (x : ndarray) : result ndarray := Ok (np_maximum0 x).

(** [ReLU.derivative_func(x)]: [x > 0.0]; comparing [None] with a number
    raises [TypeError]. *)
Definition derivative_func (x : option ndarray) : result ndarray :=
  match x with
  | Some x => Ok (np_greater0 x)
  | None => Raise "TypeError"
  end.

Definition methods : Activation.methods :=
  Activation.mkmethods func derivative_func.

Definition forward := Activation.forward methods.
Definition backward := Activation.backward methods.

End ReLU.

(* ------------------------------------------------------------------ *)
(** ** Functions in which the further properties are stated *)

(** Entry (n, Y, X, c) of the (N, H, W, C) input [x] after [np.pad] in
    edge mode with [p0] rows on top and [p2] columns on the left: outside
    the image, the nearest pixel of the border. *)
Definition edge_padded (x : ndarray) (H W p0 p2 : Z) (n Y X c : Z) : Z :=
  get x [n; clamp 0 (H - 1) (Y - p0); clamp 0 (W - 1) (X - p2); c].

(** The cross-correlation of the padded input with the kernel [w] at
    output position (i, j), for batch element [n] and output channel [o]. *)
Definition conv_sum (x w : ndarray) (H W p0 p2 kh kw C sh sw : Z)
    (n i j o : Z) : Z :=
  sumZ (fun a => sumZ (fun b => sumZ (fun c =>
          edge_padded x H W p0 p2 n (i * sh + a) (j * sw + b) c
          * get w [a; b; c; o])
          (Z.to_nat C)) (Z.to_nat kw)) (Z.to_nat kh).

(** The correlation of the padded input with the output gradient: the
    derivative of the pairing of the outputs with [grad] with respect to
    the kernel entry (a, b, c, o). *)
Definition weight_grad (x grad : ndarray) (H W p0 p2 sh sw N oh ow : Z)
    (a b c o : Z) : Z :=
  sumZ (fun n => sumZ (fun i => sumZ (fun j =>
          edge_padded x H W p0 p2 n (i * sh + a) (j * sw + b) c
          * get grad [n; i; j; o])
          (Z.to_nat ow)) (Z.to_nat oh)) (Z.to_nat N).

(** The sum of the output gradient over the batch and the positions. *)
Definition bias_grad (grad : ndarray) (N oh ow : Z) (o : Z) : Z :=
  sumZ (fun n => sumZ (fun i => sumZ (fun j =>
          get grad [n; i; j; o])
          (Z.to_nat ow)) (Z.to_nat oh)) (Z.to_nat N).

(** Entry (n, Y, X, c) of the (N, H, W, C) input [x] after [np.pad] in
    constant mode with [p0] rows on top and [p2] columns on the left:
    zero outside the image. *)
Definition zero_padded (x : ndarray) (H W p0 p2 : Z) (n Y X c : Z) : Z :=
  if (p0 <=? Y) && (Y <? p0 + H) && (p2 <=? X) && (X <? p2 + W)
  then get x [n; Y - p0; X - p2; c] else 0.

(** [np.array(l)] of a two-level nested list of numbers. *)
Definition of_list2 (l : list (list Z)) : ndarray :=
  mkarray [Z.of_nat (List.length l); Z.of_nat (List.length (nth 0 l []))]
    (fun idx =>
       match idx with
       | [i; j] => nth (Z.to_nat j) (nth (Z.to_nat i) l []) 0
       | _ => 0
       end).

(** A dense layer with two outputs, as the constructor leaves it when
    the input width is not given; both initializers fill the requested
    shape with ones. *)
Definition dense_ones : Dense.t := Dense.__init__ 2 None np_ones np_ones.

(* ------------------------------------------------------------------ *)
(** ** The models of [examples/mnist/run.py] *)

(** The layers of the "cnn" model, built as its list builds them
    ([Conv2D] with its default padding SAME, [MaxPool2D] with its default
    padding VALID, [Dense] without [num_in]) and applied one after the
    other to the batch [x]; the initializers of the convolutions ([cw],
    [cb]) and of the dense layers ([dw], [db]) are given. *)
Definition mnist_cnn_forward (cw : Z * Z * Z * Z -> ndarray)
    (cb : Z -> ndarray) (dw db : list Z -> ndarray) (x : ndarray)
  : result ndarray :=
  conv1 <- Conv2D.__init__ (5, 5, 1, 6) (1, 1) "SAME" cw cb ;;
  pool1 <- MaxPool2D.__init__ (2, 2) (2, 2) "VALID" ;;
  conv2 <- Conv2D.__init__ (5, 5, 6, 16) (1, 1) "SAME" cw cb ;;
  pool2 <- MaxPool2D.__init__ (2, 2) (2, 2) "VALID" ;;
  r <- Conv2D.forward conv1 x ;;
  r <- ReLU.forward Activation.__init__ (fst r) ;;
  r <- MaxPool2D.forward pool1 (fst r) ;;
  r <- Conv2D.forward conv2 (fst r) ;;
  r <- ReLU.forward Activation.__init__ (fst r) ;;
  r <- MaxPool2D.forward pool2 (fst r) ;;
  r <- Flatten.forward Flatten.__init__ (fst r) ;;
  r <- Dense.forward (Dense.__init__ 120 None dw db) (fst r) ;;
  r <- ReLU.forward Activation.__init__ (fst r) ;;
  r <- Dense.forward (Dense.__init__ 84 None dw db) (fst r) ;;
  r <- ReLU.forward Activation.__init__ (fst r) ;;
  r <- Dense.forward (Dense.__init__ 10 None dw db) (fst r) ;;
  Ok (fst r).

(** The layers of the "mlp" model, applied one after the other. *)
Definition mnist_mlp_forward (dw db : list Z -> ndarray) (x : ndarray)
  : result ndarray :=
  r <- Dense.forward (Dense.__init__ 16 None dw db) x ;;
  r <- ReLU.forward Activation.__init__ (fst r) ;;
  r <- Dense.forward (Dense.__init__ 10 None dw db) (fst r) ;;
  Ok (fst r).

(* ================================================================== *)
(** * Properties *)

(* ------------------------------------------------------------------ *)
(** ** The padding calculators *)

(** C2 (evaluation of the code): in FULL mode [_get_padding] returns
    (kh-1, kw-1, kh-1, kw-1) as (top, bottom, left, right); for the odd
    kernel 3x5 this is (2, 4, 2, 4), so top and bottom differ, and so do
    left and right. *)
Theorem conv_full_padding_interleaved :
  (forall kh kw,
      Conv2D._get_padding (kh, kw) "FULL"
      = Some (kh - 1, kw - 1, kh - 1, kw - 1))
  /\ Conv2D._get_padding (3, 5) "FULL" = Some (2, 4, 2, 4).
Proof.
  split; [intros kh kw|]; reflexivity.
Qed.

Lemma conv_same_padding_odd (kh kw : Z) :
  kh mod 2 = 1 -> kw mod 2 = 1 ->
  Conv2D._get_padding (kh, kw) "SAME"
  = Some ((kh - 1) / 2, (kh - 1) / 2, (kw - 1) / 2, (kw - 1) / 2).
Proof.
  intros Hh Hw. cbn. rewrite Hh, Hw. reflexivity.
Qed.

Lemma conv_same_padding_even (kh kw : Z) :
  kh mod 2 = 0 -> kw mod 2 = 0 ->
  Conv2D._get_padding (kh, kw) "SAME"
  = Some ((kh - 1) / 2, (kh - 1) / 2 + 1, (kw - 1) / 2, (kw - 1) / 2 + 1).
Proof.
  intros Hh Hw. cbn. rewrite Hh, Hw. reflexivity.
Qed.

(** C9 (as amended): for a mode other than FULL, VALID and SAME the
    padding calculator returns [None] and raises nothing; such a mode is
    refused earlier, by the assertion of the constructor. *)
Theorem conv_padding_invalid_mode (ks : Z * Z) (mode : string) :
  mode <> "FULL" -> mode <> "VALID" -> mode <> "SAME" ->
  Conv2D._get_padding ks mode = None
  /\ forall kernel stride w_init b_init,
       Conv2D.__init__ kernel stride mode w_init b_init
       = Raise "AssertionError".
Proof.
  intros HF HV HS.
  apply String.eqb_neq in HF, HV, HS.
  split.
  - destruct ks as [k0 k1]. unfold Conv2D._get_padding.
    rewrite HF, HV, HS. reflexivity.
  - intros. unfold Conv2D.__init__. rewrite HF, HV, HS. reflexivity.
Qed.

Lemma conv_padding_invalid_mode_witness :
  Conv2D._get_padding (3, 3) "CIRCULAR" = None
  /\ forall kernel stride w_init b_init,
       Conv2D.__init__ kernel stride "CIRCULAR" w_init b_init
       = Raise "AssertionError".
Proof.
  apply (@conv_padding_invalid_mode (3, 3) "CIRCULAR");
    apply String.eqb_neq; reflexivity.
Defined.

(** C9 (counterexample): on the 3x3 kernel and the mode "CIRCULAR" the
    calculator returns [None]; it does not fail. *)
Lemma conv_padding_invalid_mode_returns_none :
  Conv2D._get_padding (3, 3) "CIRCULAR" = None.
Proof. reflexivity. Qed.

Lemma spec_split_sum (total : Z) :
  fst (spec_split total) + snd (spec_split total) = total
  /\ (snd (spec_split total) = fst (spec_split total)
      \/ snd (spec_split total) = fst (spec_split total) + 1).
Proof.
  unfold spec_split.
  pose proof (Z.div_mod total 2 ltac:(lia)) as Hdm.
  pose proof (Z.mod_pos_bound total 2 ltac:(lia)) as Hb.
  destruct (Z.even total) eqn:He; cbn [fst snd].
  - rewrite Zeven_mod in He. apply Z.eqb_eq in He. lia.
  - assert (total mod 2 <> 0) as Hne.
    { intro H0. rewrite Zeven_mod, H0 in He. discriminate. }
    lia.
Qed.

(** C6: for stride [s <> 0], SAME pooling padding on one axis is the
    split of [total_pad], where [total_pad] is [max(p - s, 0)] when
    [n mod s = 0] and [max(p, s) - n mod s] otherwise; the two halves add
    up to [total_pad] and the trailing one is the larger by at most one
    pixel.  VALID gives zero padding on both axes. *)
Theorem pool_padding_1d_spec (n p s : Z) :
  s <> 0 ->
  MaxPool2D._get_padding_1d n p s "SAME"
  = Ok (spec_split (spec_total_pad n p s))
  /\ (Z.even (spec_total_pad n p s) = true ->
      spec_split (spec_total_pad n p s)
      = (spec_total_pad n p s / 2, spec_total_pad n p s / 2))
  /\ (Z.even (spec_total_pad n p s) = false ->
      spec_split (spec_total_pad n p s)
      = (spec_total_pad n p s / 2, spec_total_pad n p s / 2 + 1))
  /\ fst (spec_split (spec_total_pad n p s))
     + snd (spec_split (spec_total_pad n p s)) = spec_total_pad n p s
  /\ MaxPool2D._get_padding_1d n p s "VALID" = Ok (0, 0)
  /\ (forall hw ps st, MaxPool2D._get_padding hw ps st "VALID"
                       = Ok (0, 0, 0, 0)).
Proof.
  intros Hs.
  repeat split.
  - unfold MaxPool2D._get_padding_1d, pymod, spec_total_pad, spec_split.
    cbn [String.eqb Ascii.eqb Bool.eqb].
    apply Z.eqb_neq in Hs. rewrite Hs. cbn [bind].
    destruct (n mod s =? 0); cbn [bind]; rewrite Zeven_mod; reflexivity.
  - intros He. unfold spec_split. rewrite He. reflexivity.
  - intros He. unfold spec_split. rewrite He. reflexivity.
  - apply spec_split_sum.
Qed.

Lemma pool_padding_1d_spec_witness :
  MaxPool2D._get_padding_1d 5 3 2 "SAME" = Ok (1, 1)
  /\ MaxPool2D._get_padding_1d 3 2 2 "SAME" = Ok (0, 1).
Proof.
  pose proof (@pool_padding_1d_spec 5 3 2 ltac:(lia)) as [H1 _].
  pose proof (@pool_padding_1d_spec 3 2 2 ltac:(lia)) as [H2 _].
  split; [exact H1 | exact H2].
Defined.

(* ------------------------------------------------------------------ *)
(** ** Worked examples *)

(** C7: the VALID, stride-1 convolution with the 2x2 kernel [[1,0],[0,0]]
    and zero bias maps the 1x3x3x1 input 1..9 to the 1x2x2x1 output
    [[1,2],[4,5]], the top-left value of each window. *)
Theorem conv_forward_top_left_example :
  observe (Conv2D.forward top_left_conv input_1_to_9)
  = Ok ([1; 2; 2; 1], [[[[1]; [2]]; [[4]; [5]]]]).
Proof. vm_compute. reflexivity. Qed.

(** C3 (evaluation of the code): with SAME padding a 1x3x3x1 input is
    padded to 4x4; [forward] returns a 1x2x2x1 tensor and [backward], on a
    gradient of that shape, returns a tensor of the padded shape 1x4x4x1,
    not of the input shape. *)
Theorem pool_backward_returns_padded_shape :
  observe (MaxPool2D.forward pool22_same input_1_to_9)
  = Ok ([1; 2; 2; 1], [[[[5]; [6]]; [[8]; [9]]]])
  /\ observe (pool_forward_backward pool22_same input_1_to_9
                                    (np_ones [1; 2; 2; 1]))
     = Ok ([1; 4; 4; 1],
           [[[[0]; [0]; [0]; [0]]; [[0]; [1]; [1]; [0]];
             [[0]; [1]; [1]; [0]]; [[0]; [0]; [0]; [0]]]]).
Proof. split; vm_compute; reflexivity. Qed.

(* ------------------------------------------------------------------ *)
(** ** Errors of backward *)

(** C8 (as amended): [backward] on a layer whose cache is still [None]
    (no forward call came before) raises, for both layers; the exception
    is the [TypeError] of subscripting [None]. *)
Theorem backward_without_forward (cl : Conv2D.t) (pl : MaxPool2D.t)
    (grad : ndarray) :
  Conv2D.cache cl = None ->
  MaxPool2D.cache pl = None ->
  Conv2D.backward cl grad = Raise "TypeError"
  /\ MaxPool2D.backward pl grad = Raise "TypeError".
Proof.
  intros Hc Hp. unfold Conv2D.backward, MaxPool2D.backward.
  rewrite Hc, Hp. split; reflexivity.
Qed.

Lemma backward_without_forward_witness :
  Conv2D.backward top_left_conv (np_ones [1; 2; 2; 1]) = Raise "TypeError"
  /\ MaxPool2D.backward pool22_valid (np_ones [1; 1; 1; 1])
     = Raise "TypeError".
Proof.
  destruct (@backward_without_forward top_left_conv pool22_valid
              (np_ones [1; 2; 2; 1]) eq_refl eq_refl) as [H1 _].
  destruct (@backward_without_forward top_left_conv pool22_valid
              (np_ones [1; 1; 1; 1]) eq_refl eq_refl) as [_ H2].
  split; [exact H1 | exact H2].
Defined.

(** C8 (counterexample): without a forward call the exception is a
    [TypeError]; after a forward call whose output is 1x1x1x1, the pooling
    [backward] accepts a 1x2x2x1 gradient and returns a tensor; the
    convolution [backward] on a gradient of the wrong shape raises the
    [ValueError] of the matrix product. *)
Lemma backward_raises_no_state_error :
  observe (Conv2D.backward top_left_conv (np_ones [1; 2; 2; 1]))
  = Raise "TypeError"
  /\ observe (MaxPool2D.forward pool22_valid input_1_to_4)
     = Ok ([1; 1; 1; 1], [[[[4]]]])
  /\ observe (pool_forward_backward pool22_valid input_1_to_4
                                    (np_ones [1; 2; 2; 1]))
     = Ok ([1; 2; 2; 1], [[[[0]; [0]]; [[0]; [1]]]])
  /\ observe (conv_forward_backward top_left_conv input_1_to_9
                                    (np_ones [1; 3; 3; 1]))
     = Raise "ValueError".
Proof. repeat split; vm_compute; reflexivity. Qed.

(* ------------------------------------------------------------------ *)
(** ** The error monad and the loops *)

Lemma bind_ok_inv {A B : Type} (m : result A) (f : A -> result B) (b : B) :
  bind m f = Ok b -> exists a, m = Ok a /\ f a = Ok b.
Proof.
  destruct m as [a|e]; cbn; intros H; [eauto | discriminate].
Qed.

Lemma guard_ok_inv (c : bool) (e : string) (u : unit) :
  guard c e = Ok u -> c = true.
Proof. destruct c; cbn; [reflexivity | discriminate]. Qed.

Lemma mapM_inv {A B : Type} (f : A -> result B) (xs : list A) (ys : list B) :
  mapM f xs = Ok ys -> Forall2 (fun x y => f x = Ok y) xs ys.
Proof.
  revert ys. induction xs as [|x xs IH]; cbn; intros ys H.
  - injection H as <-. constructor.
  - apply bind_ok_inv in H as (y & Hy & H).
    apply bind_ok_inv in H as (ys' & Hys & H).
    injection H as <-. constructor; auto.
Qed.

Lemma mapM_total {A B : Type} (f : A -> result B) (xs : list A) :
  (forall x, In x xs -> exists y, f x = Ok y) ->
  exists ys, mapM f xs = Ok ys.
Proof.
  induction xs as [|x xs IH]; cbn; intros H.
  - eauto.
  - destruct (H x (or_introl eq_refl)) as (y & ->).
    destruct IH as (ys & ->); [intros; apply H; auto|].
    cbn. eauto.
Qed.

Lemma mapM_map {A B : Type} (f : A -> result B) (g : A -> B) (xs : list A) :
  (forall x, In x xs -> f x = Ok (g x)) ->
  mapM f xs = Ok (map g xs).
Proof.
  induction xs as [|x xs IH]; cbn; intros H; [reflexivity|].
  rewrite (H x (or_introl eq_refl)). cbn.
  rewrite IH by (intros; apply H; auto). reflexivity.
Qed.

Lemma foldM_fold {A S : Type} (Inv : S -> Prop) (f : S -> A -> result S)
    (g : S -> A -> S) (xs : list A) (s : S) :
  (forall s x, In x xs -> Inv s -> f s x = Ok (g s x) /\ Inv (g s x)) ->
  Inv s ->
  foldM f xs s = Ok (fold_left g xs s) /\ Inv (fold_left g xs s).
Proof.
  revert s. induction xs as [|x xs IH]; cbn; intros s H Hs; [auto|].
  destruct (H s x (or_introl eq_refl) Hs) as [-> Hg]. cbn.
  apply IH; auto.
Qed.

(** ** Ranges and sums *)

Lemma py_range_pos (stop step : Z) :
  0 < step ->
  py_range stop step
  = Ok (map (fun i => Z.of_nat i * step)
            (seq 0 (Z.to_nat ((stop + step - 1) / step)))).
Proof.
  intros Hs. unfold py_range.
  destruct (Z.eqb_spec step 0); [lia|].
  destruct (Z.ltb_spec 0 step); [reflexivity | lia].
Qed.

Lemma enumerate_map {A : Type} (f : nat -> A) (n : nat) :
  enumerate (map f (seq 0 n)) = map (fun i => (Z.of_nat i, f i)) (seq 0 n).
Proof.
  unfold enumerate. rewrite length_map, length_seq.
  generalize 0%nat. induction n as [|n IH]; intros k; cbn; [reflexivity|].
  rewrite IH. reflexivity.
Qed.

Lemma list_sum_app (l1 l2 : list Z) :
  list_sum (l1 ++ l2) = list_sum l1 + list_sum l2.
Proof. unfold list_sum. induction l1; simpl; lia. Qed.

Lemma list_sum_seq (F : Z -> Z) (n : nat) :
  list_sum (map (fun i => F (Z.of_nat i)) (seq 0 n)) = sumZ F n.
Proof.
  induction n as [|n IH]; [reflexivity|].
  rewrite seq_S, map_app, list_sum_app, IH. unfold list_sum. simpl. lia.
Qed.

Lemma sumZ_ext (F G : Z -> Z) (n : nat) :
  (forall i, 0 <= i < Z.of_nat n -> F i = G i) -> sumZ F n = sumZ G n.
Proof.
  induction n as [|n IH]; intros H; [reflexivity|].
  cbn [sumZ]. rewrite IH, H by (intros; try apply H; lia). reflexivity.
Qed.

Lemma sumZ_zero (F : Z -> Z) (n : nat) :
  (forall i, 0 <= i < Z.of_nat n -> F i = 0) -> sumZ F n = 0.
Proof.
  induction n as [|n IH]; intros H; [reflexivity|].
  cbn [sumZ]. rewrite IH, H by (intros; try apply H; lia). reflexivity.
Qed.

(** ** Multi-indices *)

Lemma prod_pos (sh idx : list Z) : in_bounds sh idx -> 0 < prod sh.
Proof.
  revert idx. induction sh as [|d sh IH]; intros [|i idx]; simpl; try tauto; try lia.
  intros [Hi Hb]. specialize (IH _ Hb). fold (prod sh). nia.
Qed.

Lemma ravel_bound (sh idx : list Z) :
  in_bounds sh idx -> 0 <= ravel sh idx < prod sh.
Proof.
  revert idx. induction sh as [|d sh IH]; intros [|i idx]; simpl; try tauto; try lia.
  intros [Hi Hb]. specialize (IH _ Hb). fold (prod sh). nia.
Qed.

Lemma unravel_ravel (sh idx : list Z) :
  in_bounds sh idx -> unravel sh (ravel sh idx) = idx.
Proof.
  revert idx. induction sh as [|d sh IH]; intros [|i idx]; simpl; try tauto.
  intros [Hi Hb]. pose proof (ravel_bound _ _ Hb) as Hr.
  rewrite Z.add_comm, Z.div_add, Z.div_small, Z.add_0_l by lia.
  rewrite Z.mod_add, Z.mod_small by lia.
  rewrite IH by assumption. reflexivity.
Qed.

Lemma in_indices (sh idx : list Z) : In idx (indices sh) -> in_bounds sh idx.
Proof.
  revert idx. induction sh as [|d sh IH]; cbn; intros idx H.
  - destruct H as [<-|[]]. exact I.
  - apply in_flat_map in H as (i & Hi & H).
    apply in_map_iff in H as (r & <- & Hr).
    unfold zrange in Hi. apply in_map_iff in Hi as (k & <- & Hk).
    apply in_seq in Hk. split; [lia | auto].
Qed.
(** ** numpy operations on arrays of known shape *)

Lemma infer_shape_plain (sz : Z) (sh : list Z) :
  Forall (fun d => 0 <= d) sh -> infer_shape sz sh = Ok sh.
Proof.
  intros Hsh. unfold infer_shape.
  rewrite (proj1 (count_occ_not_In Z.eq_dec sh (-1))); [reflexivity|].
  intros Hin. rewrite Forall_forall in Hsh. specialize (Hsh _ Hin). lia.
Qed.

Lemma infer_shape_one (sz known : Z) (newshape : list Z) :
  count_occ Z.eq_dec newshape (-1) = 1%nat ->
  prod (filter (fun d => negb (d =? -1)) newshape) = known ->
  0 < known -> sz mod known = 0 ->
  infer_shape sz newshape
  = Ok (map (fun d => if d =? -1 then sz / known else d) newshape).
Proof.
  intros Hc Hp Hk Hm. unfold infer_shape. rewrite Hc, Hp, Hm.
  destruct (Z.eqb_spec known 0); [lia|]. reflexivity.
Qed.

Lemma infer_shape_first (sz k : Z) :
  0 < k -> sz mod k = 0 -> infer_shape sz [-1; k] = Ok [sz / k; k].
Proof.
  intros Hk Hm.
  assert (Hne : (k =? -1) = false) by (apply Z.eqb_neq; lia).
  rewrite (@infer_shape_one sz k); cbn [filter count_occ map];
    change (-1 =? -1) with true; rewrite ?Hne; cbn [negb]; try assumption.
  - reflexivity.
  - destruct (Z.eq_dec (-1) (-1)); [|lia].
    destruct (Z.eq_dec k (-1)); [lia | reflexivity].
  - unfold prod, fold_right. lia.
Qed.

Lemma infer_shape_last (sz k : Z) :
  0 < k -> sz mod k = 0 -> infer_shape sz [k; -1] = Ok [k; sz / k].
Proof.
  intros Hk Hm.
  assert (Hne : (k =? -1) = false) by (apply Z.eqb_neq; lia).
  rewrite (@infer_shape_one sz k); cbn [filter count_occ map];
    change (-1 =? -1) with true; rewrite ?Hne; cbn [negb]; try assumption.
  - reflexivity.
  - destruct (Z.eq_dec (-1) (-1)); [|lia].
    destruct (Z.eq_dec k (-1)); [lia | reflexivity].
  - unfold prod, fold_right. lia.
Qed.

Lemma infer_shape_mid (sz n c : Z) :
  0 < n -> 0 < c -> sz mod (n * c) = 0 ->
  infer_shape sz [n; -1; c] = Ok [n; sz / (n * c); c].
Proof.
  intros Hn Hc Hm.
  assert (Hne : (n =? -1) = false) by (apply Z.eqb_neq; lia).
  assert (Hce : (c =? -1) = false) by (apply Z.eqb_neq; lia).
  rewrite (@infer_shape_one sz (n * c)); cbn [filter count_occ map];
    change (-1 =? -1) with true; rewrite ?Hne, ?Hce; cbn [negb];
    try assumption.
  - reflexivity.
  - destruct (Z.eq_dec (-1) (-1)); [|lia].
    destruct (Z.eq_dec n (-1)); [lia|].
    destruct (Z.eq_dec c (-1)); [lia | reflexivity].
  - unfold prod, fold_right. lia.
  - nia.
Qed.

Lemma reshape_as (a : ndarray) (newshape sh : list Z) :
  Forall (fun d => -1 <= d) newshape ->
  infer_shape (size a) newshape = Ok sh ->
  prod sh = size a ->
  reshape a newshape
  = Ok (reshaped a sh).
Proof.
  intros Hn Hi Hp. unfold reshape.
  replace (forallb (fun d => -1 <=? d) newshape) with true.
  2:{ symmetry. apply forallb_forall. intros d Hd.
      rewrite Forall_forall in Hn. specialize (Hn d Hd). lia. }
  cbn [guard bind]. rewrite Hi. cbn [bind]. rewrite Hp, Z.eqb_refl.
  reflexivity.
Qed.

Lemma reshape_plain (a : ndarray) (sh : list Z) :
  Forall (fun d => 0 <= d) sh -> prod sh = size a ->
  reshape a sh
  = Ok (reshaped a sh).
Proof.
  intros Hsh Hp. apply reshape_as; auto using infer_shape_plain.
  eapply Forall_impl; [|exact Hsh]. cbn. lia.
Qed.

Lemma reshape_infer_first (a : ndarray) (k : Z) :
  0 < k -> size a mod k = 0 ->
  reshape a [-1; k]
  = Ok (reshaped a [size a / k; k]).
Proof.
  intros Hk Hm. apply reshape_as; auto using infer_shape_first.
  - repeat constructor; lia.
  - pose proof (Z.div_mod (size a) k ltac:(lia)).
    unfold prod, fold_right. lia.
Qed.

Lemma reshape_infer_last (a : ndarray) (k : Z) :
  0 < k -> size a mod k = 0 ->
  reshape a [k; -1]
  = Ok (reshaped a [k; size a / k]).
Proof.
  intros Hk Hm. apply reshape_as; auto using infer_shape_last.
  - repeat constructor; lia.
  - pose proof (Z.div_mod (size a) k ltac:(lia)).
    unfold prod, fold_right. lia.
Qed.

Lemma reshape_infer_mid (a : ndarray) (n c : Z) :
  0 < n -> 0 < c -> size a mod (n * c) = 0 ->
  reshape a [n; -1; c]
  = Ok (reshaped a [n; size a / (n * c); c]).
Proof.
  intros Hn Hc Hm. apply reshape_as; auto using infer_shape_mid.
  - repeat constructor; lia.
  - pose proof (Z.div_mod (size a) (n * c) ltac:(nia)).
    unfold prod, fold_right. nia.
Qed.

Lemma np_pad_edge_ok (a : ndarray) (n h w c t b l r : Z) :
  shape a = [n; h; w; c] ->
  0 <= t -> 0 <= b -> 0 <= l -> 0 <= r -> 1 <= h -> 1 <= w ->
  np_pad a t b l r "edge"
  = Ok (pad_edge a [n; t + h + b; l + w + r; c] h w t l).
Proof.
  intros Ha Ht Hb Hl Hr Hh Hw. unfold np_pad. rewrite Ha.
  destruct (Z.leb_spec 0 t); [|lia]. destruct (Z.leb_spec 0 b); [|lia].
  destruct (Z.leb_spec 0 l); [|lia]. destruct (Z.leb_spec 0 r); [|lia].
  cbn [andb guard bind String.eqb Ascii.eqb Bool.eqb].
  destruct (Z.eqb_spec h 0); [lia|]. destruct (Z.eqb_spec w 0); [lia|].
  reflexivity.
Qed.

Lemma np_pad_constant_ok (a : ndarray) (n h w c t b l r : Z) :
  shape a = [n; h; w; c] ->
  0 <= t -> 0 <= b -> 0 <= l -> 0 <= r ->
  np_pad a t b l r "constant"
  = Ok (pad_constant a [n; t + h + b; l + w + r; c] h w t l).
Proof.
  intros Ha Ht Hb Hl Hr. unfold np_pad. rewrite Ha.
  destruct (Z.leb_spec 0 t); [|lia]. destruct (Z.leb_spec 0 b); [|lia].
  destruct (Z.leb_spec 0 l); [|lia]. destruct (Z.leb_spec 0 r); [|lia].
  reflexivity.
Qed.

Lemma int_div_plus_one_ok (a s : Z) :
  0 <= a -> 0 < s -> int_div_plus_one a s = Ok (a / s + 1).
Proof.
  intros Ha Hs. unfold int_div_plus_one.
  destruct (Z.eqb_spec s 0); [lia|].
  rewrite Z.quot_div_nonneg by lia.
  replace (a + s) with (a + 1 * s) by lia.
  rewrite Z.div_add by lia. reflexivity.
Qed.

Lemma range_count (a s : Z) :
  0 <= a -> 0 < s -> (a + 1 + s - 1) / s = a / s + 1.
Proof.
  intros Ha Hs. replace (a + 1 + s - 1) with (a + 1 * s) by lia.
  apply Z.div_add. lia.
Qed.
Lemma transpose_ok (a : ndarray) (axes : list nat) :
  is_permutation axes (ndim a) = true ->
  transpose a axes = Ok (transposed a axes).
Proof. intros H. unfold transpose. rewrite H. reflexivity. Qed.

Lemma shape_eqb_refl (sh : list Z) : shape_eqb sh sh = true.
Proof. unfold shape_eqb. destruct (list_eq_dec Z.eq_dec sh sh); congruence. Qed.

Lemma Forall2_nth_rel {A B : Type} (R : A -> B -> Prop) (xs : list A)
    (ys : list B) :
  Forall2 R xs ys ->
  forall i dx dy, (i < List.length xs)%nat -> R (nth i xs dx) (nth i ys dy).
Proof.
  induction 1 as [|x y xs ys Hxy _ IH]; intros i dx dy Hi; cbn in Hi; [lia|].
  destruct i as [|i]; cbn; [assumption | apply IH; lia].
Qed.

Lemma nth_map_seq {A : Type} (f : nat -> A) (n i : nat) (d : A) :
  (i < n)%nat -> nth i (map f (seq 0 n)) d = f i.
Proof.
  intros Hi. rewrite (nth_indep _ d (f 0%nat))
    by (rewrite length_map, length_seq; exact Hi).
  rewrite map_nth, seq_nth by exact Hi. reflexivity.
Qed.

(** Stacking a non-empty list of arrays of one shape. *)
Lemma np_array_ok (xs : list ndarray) (sh : list Z) :
  xs <> [] -> Forall (fun y => shape y = sh) xs ->
  exists r, np_array xs = Ok r
            /\ shape r = Z.of_nat (List.length xs) :: sh
            /\ forall i idx d, (i < List.length xs)%nat ->
                 get r (Z.of_nat i :: idx) = get (nth i xs d) idx.
Proof.
  intros Hne H. destruct xs as [|x xs]; [congruence|].
  unfold np_array.
  replace (forallb (fun y => shape_eqb (shape y) (shape x)) (x :: xs))
    with true.
  - cbn [guard bind]. eexists. split; [reflexivity|]. split.
    + cbn [shape stacked]. f_equal. inversion H; assumption.
    + intros i idx d Hi. cbn [get stacked]. rewrite Nat2Z.id.
      rewrite (nth_indep _ x d Hi). reflexivity.
  - symmetry. apply forallb_forall. intros y Hy.
    rewrite Forall_forall in H.
    rewrite (H y Hy), (H x (or_introl eq_refl)). apply shape_eqb_refl.
Qed.

(** A grid of [nr] rows of [nc] arrays of one shape becomes an array
    with two leading axes. *)
Lemma np_asarray2_grid (g : nat -> nat -> ndarray) (nr nc : nat) (sh : list Z) :
  (0 < nr)%nat -> (0 < nc)%nat ->
  (forall i j, (i < nr)%nat -> (j < nc)%nat -> shape (g i j) = sh) ->
  exists r,
    np_asarray2 (map (fun i => map (g i) (seq 0 nc)) (seq 0 nr)) = Ok r
    /\ shape r = Z.of_nat nr :: Z.of_nat nc :: sh
    /\ forall i j idx, (i < nr)%nat -> (j < nc)%nat ->
         get r (Z.of_nat i :: Z.of_nat j :: idx) = get (g i j) idx.
Proof.
  intros Hnr Hnc Hsh. unfold np_asarray2.
  assert (Hrow : forall i, (i < nr)%nat ->
            exists r, np_array (map (g i) (seq 0 nc)) = Ok r
              /\ shape r = Z.of_nat nc :: sh
              /\ forall j idx, (j < nc)%nat ->
                   get r (Z.of_nat j :: idx) = get (g i j) idx).
  { intros i Hi.
    destruct (@np_array_ok (map (g i) (seq 0 nc)) sh) as (r & Hr & Hs & Hg).
    - destruct nc; [lia | discriminate].
    - apply Forall_forall. intros y Hy. apply in_map_iff in Hy as (j & <- & Hj).
      apply in_seq in Hj. apply Hsh; lia.
    - exists r. rewrite length_map, length_seq in Hs, Hg.
      split; [exact Hr|]. split; [exact Hs|].
      intros j idx Hj. rewrite (Hg j idx (g i 0%nat) Hj).
      rewrite nth_map_seq by exact Hj. reflexivity. }
  destruct (@mapM_total _ _ np_array (map (fun i => map (g i) (seq 0 nc)) (seq 0 nr)))
    as (rows & Hrows).
  { intros xs Hxs. apply in_map_iff in Hxs as (i & <- & Hi).
    apply in_seq in Hi. destruct (Hrow i) as (r & Hr & _); [lia|]. eauto. }
  rewrite Hrows. cbn [bind].
  apply mapM_inv in Hrows.
  assert (Hlen : List.length rows = nr).
  { apply Forall2_length in Hrows. rewrite length_map, length_seq in Hrows. lia. }
  assert (Hnth : forall i d, (i < nr)%nat ->
            np_array (map (g i) (seq 0 nc)) = Ok (nth i rows d)).
  { intros i d Hi.
    pose proof (@Forall2_nth_rel _ _ _ _ _ Hrows i [] d) as Hn.
    rewrite length_map, length_seq in Hn. specialize (Hn Hi).
    rewrite nth_map_seq in Hn by exact Hi. exact Hn. }
  destruct (@np_array_ok rows (Z.of_nat nc :: sh)) as (r & Hr & Hs & Hg).
  - destruct rows; [cbn in Hlen; lia | discriminate].
  - apply Forall_forall. intros y Hy.
    apply (In_nth _ _ y) in Hy as (i & Hi & <-).
    destruct (Hrow i) as (r & Hr & Hs & _); [lia|].
    rewrite (Hnth i y) in Hr by lia. injection Hr as <-. exact Hs.
  - exists r. split; [exact Hr|]. rewrite Hlen in Hs, Hg.
    split; [exact Hs|]. intros i j idx Hi Hj.
    rewrite (Hg i _ (g 0%nat 0%nat) Hi).
    destruct (Hrow i Hi) as (ri & Hri & _ & Hgi).
    rewrite (Hnth i (g 0%nat 0%nat) Hi) in Hri. injection Hri as <-.
    apply Hgi. exact Hj.
Qed.

Lemma slice_bounds_inside (len lo k : Z) :
  0 <= lo -> 0 <= k -> lo + k <= len ->
  slice_bounds len lo (lo + k) = (lo, k).
Proof.
  intros Hlo Hk Hle. unfold slice_bounds, slice_norm.
  destruct (Z.ltb_spec lo 0); [lia|].
  destruct (Z.ltb_spec (lo + k) 0); [lia|].
  f_equal; lia.
Qed.

Lemma slice_hw_inside (a : ndarray) (d0 d1 d2 d3 h0 w0 kh kw : Z) :
  shape a = [d0; d1; d2; d3] ->
  0 <= h0 -> 0 <= kh -> h0 + kh <= d1 ->
  0 <= w0 -> 0 <= kw -> w0 + kw <= d2 ->
  slice_hw a h0 (h0 + kh) w0 (w0 + kw) = Ok (window a [d0; kh; kw; d3] h0 w0).
Proof.
  intros Ha ? ? ? ? ? ?. unfold slice_hw. rewrite Ha.
  rewrite !slice_bounds_inside by assumption. reflexivity.
Qed.

Lemma prod3_pos (a b c : Z) : 0 < a -> 0 < b -> 0 < c -> 0 < prod [a; b; c].
Proof. intros. unfold prod, fold_right. nia. Qed.
Lemma norm_index_ok (d i : Z) : 0 <= i < d -> norm_index d i = Ok i.
Proof.
  intros Hi. unfold norm_index.
  destruct (Z.leb_spec 0 i); [|lia]. destruct (Z.ltb_spec i d); [|lia].
  reflexivity.
Qed.

Lemma index_hw_ok (a : ndarray) (d0 d1 d2 d3 i j : Z) :
  shape a = [d0; d1; d2; d3] -> 0 <= i < d1 -> 0 <= j < d2 ->
  index_hw a i j = Ok (picked a [d0; d3] i j).
Proof.
  intros Ha Hi Hj. unfold index_hw. rewrite Ha.
  rewrite !norm_index_ok by assumption. reflexivity.
Qed.

Lemma broadcastable_refl (sh : list Z) : broadcastable_to sh sh = true.
Proof.
  unfold broadcastable_to. rewrite Nat.leb_refl, Nat.sub_diag. cbn [skipn andb].
  induction sh as [|d sh IH]; [reflexivity|].
  cbn [combine forallb fst snd]. rewrite Z.eqb_refl. exact IH.
Qed.

Lemma bcast_index_id (sh idx : list Z) :
  in_bounds sh idx -> bcast_index sh idx = idx.
Proof.
  intros H. unfold bcast_index.
  assert (Hlen : List.length idx = List.length sh).
  { revert idx H. induction sh as [|d sh IH]; intros [|i idx]; cbn; try tauto.
    intros [_ H]. f_equal. auto. }
  rewrite Hlen, Nat.sub_diag. cbn [skipn]. clear Hlen.
  revert idx H. induction sh as [|d sh IH]; intros [|i idx]; cbn; try tauto.
  intros [Hi H]. rewrite IH by assumption.
  destruct (Z.eqb_spec d 1); [f_equal; lia | reflexivity].
Qed.

Lemma update_slice_hw_inside (op : Z -> Z -> Z) (a v : ndarray)
    (d0 d1 d2 d3 h0 w0 kh kw : Z) :
  shape a = [d0; d1; d2; d3] -> shape v = [d0; kh; kw; d3] ->
  0 <= h0 -> 0 <= kh -> h0 + kh <= d1 ->
  0 <= w0 -> 0 <= kw -> w0 + kw <= d2 ->
  update_slice_hw op a h0 (h0 + kh) w0 (w0 + kw) v
  = Ok (updated op a h0 kh w0 kw v).
Proof.
  intros Ha Hv ? ? ? ? ? ?. unfold update_slice_hw. rewrite Ha.
  rewrite !slice_bounds_inside by assumption.
  rewrite Hv, broadcastable_refl. reflexivity.
Qed.

(** Accumulation over a loop: when every step adds a contribution to the
    entry at [idx], the loop adds their sum. *)
Lemma fold_left_accumulates {A : Type} (g : ndarray -> A -> ndarray)
    (contrib : A -> Z) (idx : list Z) (xs : list A) (d0 : ndarray) :
  (forall d x, In x xs -> get (g d x) idx = get d idx + contrib x) ->
  get (fold_left g xs d0) idx = get d0 idx + list_sum (map contrib xs).
Proof.
  revert d0. induction xs as [|x xs IH]; intros d0 H.
  - cbn. lia.
  - cbn [fold_left map]. rewrite IH by (intros; apply H; right; assumption).
    rewrite H by (left; reflexivity). unfold list_sum. cbn [fold_right]. lia.
Qed.

Lemma list_sum_enumerate_range (F : Z * Z -> Z) (s : Z) (n : nat) :
  list_sum (map F (enumerate (map (fun i => Z.of_nat i * s) (seq 0 n))))
  = sumZ (fun i => F (i, i * s)) n.
Proof.
  rewrite enumerate_map, map_map.
  apply (list_sum_seq (fun i => F (i, i * s))).
Qed.

Lemma in_enumerate_range (s : Z) (n : nat) (ix : Z * Z) :
  In ix (enumerate (map (fun i => Z.of_nat i * s) (seq 0 n))) ->
  0 <= fst ix < Z.of_nat n /\ snd ix = fst ix * s.
Proof.
  rewrite enumerate_map. intros H. apply in_map_iff in H as (i & <- & Hi).
  apply in_seq in Hi. cbn [fst snd]. lia.
Qed.

Lemma range_elem_bound (a s : Z) (i : nat) :
  0 <= a -> 0 < s -> (i < Z.to_nat (a / s + 1))%nat ->
  0 <= Z.of_nat i * s /\ Z.of_nat i * s <= a.
Proof.
  intros Ha Hs Hi.
  pose proof (Z.div_pos a s Ha Hs) as Hq.
  pose proof (Z.mul_div_le a s Hs) as Hle.
  split; [nia|].
  assert (Z.of_nat i <= a / s) by lia. nia.
Qed.

(* ------------------------------------------------------------------ *)
(** ** The convolution on an applicable call

    The layer [l] has a [kh] x [kw] kernel over [C] input and [oc] output
    channels, strides [sh] and [sw], and parameters [w] and [b] (held
    already, or produced by the initializers on this first call); the
    input [x] is of shape (N, H, W, C); the padding calculator gives
    (p0, p1, p2, p3) and the padded input is at least as large as the
    kernel. *)

Section ConvCall.

Variables (l : Conv2D.t) (x w b : ndarray).
Variables (N H W C kh kw oc sh sw p0 p1 p2 p3 : Z).

Hypothesis Hx : shape x = [N; H; W; C].
Hypothesis Hkernel : Conv2D.kernel l = (kh, kw, C, oc).
Hypothesis Hstride : Conv2D.stride l = (sh, sw).
Hypothesis Hpad :
  Conv2D._get_padding (kh, kw) (Conv2D.padding_mode l) = Some (p0, p1, p2, p3).
Hypothesis Hw : Conv2D.params_w (Conv2D.lazy_init l) = Some w.
Hypothesis Hb : Conv2D.params_b (Conv2D.lazy_init l) = Some b.
Hypothesis Hwshape : shape w = [kh; kw; C; oc].
Hypothesis Hbshape : shape b = [oc].
Hypothesis HN : 1 <= N.
Hypothesis HH : 1 <= H.
Hypothesis HW : 1 <= W.
Hypothesis HC : 1 <= C.
Hypothesis Hkh : 1 <= kh.
Hypothesis Hkw : 1 <= kw.
Hypothesis Hoc : 1 <= oc.
Hypothesis Hsh : 1 <= sh.
Hypothesis Hsw : 1 <= sw.
Hypothesis Hfit_h : kh <= p0 + H + p1.
Hypothesis Hfit_w : kw <= p2 + W + p3.

Local Abbreviation PH := (p0 + H + p1).
Local Abbreviation PW := (p2 + W + p3).
Local Abbreviation oh := ((p0 + H + p1 - kh) / sh + 1).
Local Abbreviation ow := ((p2 + W + p3 - kw) / sw + 1).
Local Abbreviation K := (prod [kh; kw; C]).

Lemma conv_pad_nonneg : 0 <= p0 /\ 0 <= p1 /\ 0 <= p2 /\ 0 <= p3.
Proof.
  clear - Hpad Hkh Hkw. revert Hpad. unfold Conv2D._get_padding.
  pose proof (Z.div_pos (kh - 1) 2 ltac:(lia) ltac:(lia)).
  pose proof (Z.div_pos (kw - 1) 2 ltac:(lia) ltac:(lia)).
  destruct (String.eqb _ "FULL"); [intros [= <- <- <- <-]; lia|].
  destruct (String.eqb _ "VALID"); [intros [= <- <- <- <-]; lia|].
  destruct (String.eqb _ "SAME"); [|discriminate].
  destruct (kh mod 2 =? 0), (kw mod 2 =? 0); intros [= <- <- <- <-]; lia.
Qed.

Lemma lazy_init_fields :
  Conv2D.kernel (Conv2D.lazy_init l) = (kh, kw, C, oc)
  /\ Conv2D.stride (Conv2D.lazy_init l) = (sh, sw)
  /\ Conv2D.padding_mode (Conv2D.lazy_init l) = Conv2D.padding_mode l.
Proof.
  unfold Conv2D.lazy_init.
  destruct (Conv2D.is_init l); [auto|].
  unfold Conv2D._init_parameters. rewrite Hkernel. cbn. auto.
Qed.

Lemma out_dims_pos : 1 <= oh /\ 1 <= ow /\ 0 < K.
Proof.
  pose proof (Z.div_pos (p0 + H + p1 - kh) sh ltac:(lia) ltac:(lia)).
  pose proof (Z.div_pos (p2 + W + p3 - kw) sw ltac:(lia) ltac:(lia)).
  pose proof (@prod3_pos kh kw C). lia.
Qed.

Lemma patch_at_ok (padded : ndarray) (row col : Z) :
  shape padded = [N; PH; PW; C] ->
  0 <= row -> row + kh <= PH -> 0 <= col -> col + kw <= PW ->
  Conv2D.patch_at padded kh kw K row col
  = Ok (reshaped (window padded [N; kh; kw; C] row col) [N; K]).
Proof.
  intros Hp ? ? ? ?. unfold Conv2D.patch_at.
  rewrite (@slice_hw_inside padded N PH PW C) by (auto; lia). cbn [bind].
  destruct out_dims_pos as (_ & _ & HK).
  assert (Hs : size (window padded [N; kh; kw; C] row col) = N * K)
    by reflexivity.
  rewrite reshape_infer_first; rewrite ?Hs.
  - rewrite Z.div_mul by lia. reflexivity.
  - exact HK.
  - apply Z.mod_mul. lia.
Qed.

Lemma conv_forward_ok :
  exists y X Wm,
    Conv2D.forward l x
    = Ok (y, Conv2D.set_cache (Conv2D.lazy_init l)
               (Conv2D.mkcache N (H, W, C) (kh, kw, C) (sh, sw)
                  (p0, p1, p2, p3) (PH, PW, C) (oh, ow, oc) X Wm))
    /\ shape y = [N; oh; ow; oc]
    /\ shape X = [N * oh * ow; K]
    /\ shape Wm = [K; oc]
    /\ (forall a b c o, in_bounds [kh; kw; C; oc] [a; b; c; o] ->
          get Wm [ravel [kh; kw; C] [a; b; c]; o] = get w [a; b; c; o])
    /\ (forall n i j a b c,
          in_bounds [N; oh; ow] [n; i; j] -> in_bounds [kh; kw; C] [a; b; c] ->
          get X [ravel [N; oh; ow] [n; i; j]; ravel [kh; kw; C] [a; b; c]]
          = get (pad_edge x [N; PH; PW; C] H W p0 p2)
                [n; i * sh + a; j * sw + b; c]).
Proof.
  destruct conv_pad_nonneg as (Hp0 & Hp1 & Hp2 & Hp3).
  destruct lazy_init_fields as (Hk' & Hs' & Hm').
  destruct out_dims_pos as (Hoh & How & HK).
  unfold Conv2D.forward. cbv zeta.
  rewrite Hk', Hs', Hm', Hpad.
  rewrite (@np_pad_edge_ok x N H W C) by auto.
  set (padded := pad_edge x _ H W p0 p2).
  assert (Hps : shape padded = [N; PH; PW; C]) by reflexivity.
  cbn [bind]. rewrite Hx, Hps.
  rewrite !int_div_plus_one_ok by lia. cbn [bind].
  rewrite Hw. cbn [Conv2D.lookup bind]. rewrite Hwshape. cbn [firstn].
  rewrite !py_range_pos by lia. cbn [bind].
  rewrite !range_count by lia.
  set (nr := Z.to_nat oh). set (nc := Z.to_nat ow).
  set (g := fun i j : nat =>
              reshaped (window padded [N; kh; kw; C]
                          (Z.of_nat i * sh) (Z.of_nat j * sw)) [N; K]).
  rewrite (@mapM_map _ _ _
     (fun row => map (fun col => reshaped (window padded [N; kh; kw; C] row col) [N; K])
                     (map (fun i => Z.of_nat i * sw) (seq 0 nc)))).
  2:{ intros row Hrow. apply in_map_iff in Hrow as (i & <- & Hi).
      apply in_seq in Hi.
      apply mapM_map. intros col Hcol.
      apply in_map_iff in Hcol as (j & <- & Hj). apply in_seq in Hj.
      pose proof (@range_elem_bound (PH - kh) sh i ltac:(lia) ltac:(lia) ltac:(lia)).
      pose proof (@range_elem_bound (PW - kw) sw j ltac:(lia) ltac:(lia) ltac:(lia)).
      apply patch_at_ok; auto; lia. }
  cbn [bind]. rewrite map_map.
  replace (map _ (seq 0 nr)) with (map (fun i => map (g i) (seq 0 nc)) (seq 0 nr)).
  2:{ apply map_ext. intros i. rewrite map_map. reflexivity. }
  destruct (@np_asarray2_grid g nr nc [N; K]) as (P4 & -> & HP4s & HP4g);
    [lia | lia | reflexivity |].
  cbn [bind].
  rewrite transpose_ok by (unfold ndim; rewrite HP4s; reflexivity).
  cbn [bind]. unfold transposed, ndim. rewrite HP4s.
  cbn [map nth List.length seq position Nat.eqb].
  set (T := mkarray _ _).
  assert (HsT : size T = (N * oh * ow) * K).
  { unfold size, T, shape, nr, nc. unfold prod at 1. unfold fold_right at 1. lia. }
  rewrite reshape_infer_first; rewrite ?HsT, ?Z.div_mul, ?Z.mod_mul; try lia.
  cbn [bind].
  assert (Hsw' : size w = K * oc).
  { unfold size. rewrite Hwshape. unfold prod, fold_right. lia. }
  rewrite reshape_infer_last; rewrite ?Hsw', ?(Z.mul_comm K oc), ?Z.div_mul, ?Z.mod_mul; try lia.
  cbn [bind].
  unfold matmul. cbn [shape reshaped rev app]. rewrite Z.eqb_refl. cbn [guard bind].
  set (XW := mkarray _ _).
  rewrite reshape_plain.
  2:{ repeat constructor; lia. }
  2:{ unfold size, XW, shape, prod, fold_right. lia. }
  cbn [bind Conv2D.set_cache Conv2D.params_b]. rewrite Hb. cbn [Conv2D.lookup bind].
  unfold iadd. rewrite Hbshape. cbn [shape reshaped].
  replace (broadcastable_to [oc] [N; oh; ow; oc]) with true.
  2:{ unfold broadcastable_to. cbn. rewrite Z.eqb_refl. reflexivity. }
  cbn [guard bind].
  eexists _, _, _. split; [reflexivity|].
  split; [reflexivity|]. split; [reflexivity|]. split; [reflexivity|].
  split.
  - intros a0 b0 c0 o Hin. cbn [get reshaped].
    rewrite Hwshape.
    replace (ravel [K; oc] [ravel [kh; kw; C] [a0; b0; c0]; o])
      with (ravel [kh; kw; C; oc] [a0; b0; c0; o])
      by (cbn [ravel]; unfold prod, fold_right; ring).
    rewrite unravel_ravel by exact Hin. reflexivity.
  - intros n i j a0 b0 c0 Hnij Habc. cbn [get reshaped].
    pose proof (ravel_bound _ _ Habc) as Hf.
    set (f := ravel [kh; kw; C] [a0; b0; c0]) in *.
    destruct Hnij as (Hn & Hi & Hj & _).
    assert (Hnr : Z.of_nat nr = oh) by (unfold nr; lia).
    assert (Hnc : Z.of_nat nc = ow) by (unfold nc; lia).
    unfold T at 2. cbn [shape]. rewrite Hnr, Hnc.
    replace (ravel [N * oh * ow; K] [ravel [N; oh; ow] [n; i; j]; f])
      with (ravel [N; oh; ow; K] [n; i; j; f])
      by (cbn [ravel]; unfold prod, fold_right; ring).
    rewrite unravel_ravel by (cbn [in_bounds]; tauto).
    unfold T. cbn [get nth].
    rewrite <- (Z2Nat.id i), <- (Z2Nat.id j) at 1 by lia.
    rewrite HP4g by (unfold nr, nc; lia).
    unfold g. cbn [get reshaped shape window]. rewrite !Z2Nat.id by lia.
    replace (ravel [N; K] [n; f])
      with (ravel [N; kh; kw; C] [n; a0; b0; c0])
      by (unfold f; cbn [ravel]; unfold prod, fold_right; ring).
    rewrite unravel_ravel by (cbn [in_bounds] in *; tauto).
    reflexivity.
Qed.


Variable grad : ndarray.
Hypothesis Hgrad : shape grad = [N; oh; ow; oc].

Local Abbreviation patch_grad := (patch_grad grad w oc).
Local Abbreviation scatter_term := (scatter_term grad w kh kw oc sh sw).

Lemma scatter_step_ok (dX d : ndarray) (i col j row : Z) :
  shape dX = [N; oh; ow; K] -> shape d = [N; PH; PW; C] ->
  0 <= i < oh -> 0 <= j < ow ->
  0 <= col -> col + kh <= PH -> 0 <= row -> row + kw <= PW ->
  Conv2D.scatter_step dX N kh kw C i col j row d
  = Ok (updated Z.add d col kh row kw
          (reshaped (picked dX [N; K] i j) [N; kh; kw; C])).
Proof.
  intros HdX Hd Hi Hj ? ? ? ?. unfold Conv2D.scatter_step.
  rewrite (@index_hw_ok dX N oh ow K) by assumption. cbn [bind].
  rewrite reshape_plain.
  2:{ repeat constructor; lia. }
  2:{ unfold size, shape, picked, prod, fold_right. lia. }
  cbn [bind]. unfold iadd_slice_hw.
  apply (@update_slice_hw_inside Z.add d _ N PH PW C); auto; lia.
Qed.


Lemma conv_backward_ok (X Wm : ndarray) :
  shape X = [N * oh * ow; K] ->
  shape Wm = [K; oc] ->
  (forall a b c o, in_bounds [kh; kw; C; oc] [a; b; c; o] ->
          get Wm [ravel [kh; kw; C] [a; b; c]; o] = get w [a; b; c; o]) ->
  exists d_in l2,
    Conv2D.backward
      (Conv2D.set_cache (Conv2D.lazy_init l)
         (Conv2D.mkcache N (H, W, C) (kh, kw, C) (sh, sw)
            (p0, p1, p2, p3) (PH, PW, C) (oh, ow, oc) X Wm)) grad
    = Ok (d_in, l2)
    /\ shape d_in = [N; H; W; C]
    /\ forall n y x c, in_bounds [N; H; W; C] [n; y; x; c] ->
         get d_in [n; y; x; c]
         = sumZ (fun i => sumZ (fun j =>
                   scatter_term n (p0 + y) (p2 + x) c i j)
                   (Z.to_nat ow)) (Z.to_nat oh).
Proof.
  intros HX HWm HWg.
  destruct conv_pad_nonneg as (Hp0 & Hp1 & Hp2 & Hp3).
  destruct out_dims_pos as (Hoh & How & HK).
  unfold Conv2D.backward.
  cbn [Conv2D.cache Conv2D.set_cache Conv2D.c_in_n Conv2D.c_in_img_size
       Conv2D.c_kernel_size Conv2D.c_stride Conv2D.c_pad
       Conv2D.c_pad_img_size Conv2D.c_out_img_size Conv2D.c_X_matrix
       Conv2D.c_W_matrix Conv2D.params_w].
  unfold np_T.
  rewrite !transpose_ok by (unfold ndim; rewrite ?HX, ?HWm; reflexivity).
  unfold transposed, ndim. rewrite HX, HWm.
  cbn [bind map nth List.length seq position Nat.eqb rev app].
  assert (Hsg : size grad = (N * oh * ow) * oc).
  { unfold size. rewrite Hgrad. unfold prod, fold_right. lia. }
  rewrite reshape_infer_first; rewrite ?Hsg, ?Z.div_mul, ?Z.mod_mul; try lia.
  cbn [bind].
  unfold matmul at 1. cbn [shape reshaped rev app]. rewrite Z.eqb_refl.
  cbn [guard bind]. rewrite Hw. cbn [Conv2D.lookup bind].
  rewrite Hwshape.
  rewrite reshape_plain.
  2:{ repeat constructor; lia. }
  2:{ unfold size, shape, prod, fold_right. lia. }
  cbn [bind]. unfold np_sum012. rewrite Hgrad. cbn [bind].
  unfold matmul. cbn [shape]. rewrite Hgrad. cbn [rev app]. rewrite Z.eqb_refl.
  cbn [guard bind].
  set (dX := mkarray [N; oh; ow; K] _).
  unfold np_zeros.
  replace (forallb (fun d => 0 <=? d) [N; PH; PW; C]) with true.
  2:{ symmetry. cbn [forallb].
      repeat (rewrite (proj2 (Z.leb_le _ _)) by lia). reflexivity. }
  cbn [guard bind].
  rewrite !py_range_pos by lia. cbn [bind]. rewrite !range_count by lia.
  set (rows := enumerate (map (fun i => Z.of_nat i * sh) (seq 0 (Z.to_nat oh)))).
  set (cols := enumerate (map (fun i => Z.of_nat i * sw) (seq 0 (Z.to_nat ow)))).
  set (step := fun (icol jrow : Z * Z) (d : ndarray) =>
                 updated Z.add d (snd icol) kh (snd jrow) kw
                   (reshaped (picked dX [N; K] (fst icol) (fst jrow))
                             [N; kh; kw; C])).
  set (Inv := fun d : ndarray => shape d = [N; PH; PW; C]).
  assert (Hinner : forall d icol, In icol rows -> Inv d ->
            foldM (fun d jrow =>
                     Conv2D.scatter_step dX N kh kw C (fst icol) (snd icol)
                       (fst jrow) (snd jrow) d) cols d
            = Ok (fold_left (fun d jrow => step icol jrow d) cols d)
            /\ Inv (fold_left (fun d jrow => step icol jrow d) cols d)).
  { intros d icol Hicol Hd. apply (@foldM_fold _ _ Inv); [|exact Hd].
    intros d' jrow Hjrow Hd'.
    apply in_enumerate_range in Hicol as (Hi & Hcol).
    apply in_enumerate_range in Hjrow as (Hj & Hrow).
    pose proof (@range_elem_bound (PH - kh) sh (Z.to_nat (fst icol))
                  ltac:(lia) ltac:(lia) ltac:(lia)).
    pose proof (@range_elem_bound (PW - kw) sw (Z.to_nat (fst jrow))
                  ltac:(lia) ltac:(lia) ltac:(lia)).
    split; [|exact Hd'].
    apply scatter_step_ok; auto; try reflexivity; lia. }
  destruct (@foldM_fold _ _ Inv
              (fun d icol =>
                 foldM (fun d jrow =>
                          Conv2D.scatter_step dX N kh kw C (fst icol)
                            (snd icol) (fst jrow) (snd jrow) d) cols d)
              (fun d icol => fold_left (fun d jrow => step icol jrow d) cols d)
              rows (mkarray [N; PH; PW; C] (fun _ => 0)))
    as [-> Hshape]; [exact Hinner | reflexivity |].
  cbn [bind].
  set (buf := fold_left _ rows _) in *.
  replace (PH - p1) with (p0 + H) by lia.
  replace (PW - p3) with (p2 + W) by lia.
  rewrite (@slice_hw_inside buf N PH PW C) by (auto; lia).
  cbn [bind]. eexists _, _. split; [reflexivity|]. split; [reflexivity|].
  intros n y x0 c Hin. cbn [get window].
  destruct Hin as (Hn & Hy & Hx0 & Hc & _).
  set (Y := p0 + y). set (X0 := p2 + x0).
  assert (Hstep : forall d icol jrow, In icol rows -> In jrow cols ->
            get (step icol jrow d) [n; Y; X0; c]
            = get d [n; Y; X0; c]
              + scatter_term n Y X0 c (fst icol) (fst jrow)).
  { intros d [i col] [j row] Hicol Hjrow.
    apply in_enumerate_range in Hicol as (Hi & Hcol).
    apply in_enumerate_range in Hjrow as (Hj & Hrow).
    cbn [fst snd] in *. subst col row.
    unfold step, scatter_term. cbn [fst snd get updated].
    destruct ((i * sh <=? Y) && (Y <? i * sh + kh)
              && (j * sw <=? X0) && (X0 <? j * sw + kw)) eqn:Hcond; [|lia].
    f_equal.
    apply andb_prop in Hcond as [Hcond H4].
    apply andb_prop in Hcond as [Hcond H3].
    apply andb_prop in Hcond as [H1 H2].
    assert (Hb4 : in_bounds [N; kh; kw; C]
                   [n; Y - i * sh; X0 - j * sw; c])
      by (cbn [in_bounds]; lia).
    cbn [shape reshaped]. rewrite bcast_index_id by exact Hb4.
    unfold reshaped at 1. cbn [get]. unfold picked at 2. cbn [shape].
    assert (Hb3 : in_bounds [kh; kw; C] [Y - i * sh; X0 - j * sw; c])
      by (cbn [in_bounds]; lia).
    pose proof (ravel_bound _ _ Hb3) as Hf.
    replace (ravel [N; kh; kw; C] [n; Y - i * sh; X0 - j * sw; c])
      with (ravel [N; K] [n; ravel [kh; kw; C] [Y - i * sh; X0 - j * sw; c]])
      by (cbn [ravel]; unfold prod, fold_right; ring).
    rewrite unravel_ravel by (cbn [in_bounds]; lia).
    unfold dX. cbn [picked]. cbn [get removelast app last nth].
    unfold patch_grad. apply sumZ_ext. intros t Ht.
    cbn [removelast last app].
    rewrite HWg by (cbn [in_bounds]; lia). reflexivity. }
  unfold buf.
  rewrite (@fold_left_accumulates _ _
             (fun icol => list_sum (map (fun jrow =>
                scatter_term n Y X0 c (fst icol) (fst jrow)) cols))).
  2:{ intros d icol Hicol.
      apply fold_left_accumulates. intros d' jrow Hjrow.
      apply Hstep; assumption. }
  cbn [get]. rewrite Z.add_0_l. unfold rows.
  rewrite list_sum_enumerate_range. apply sumZ_ext. intros i Hi.
  cbn [fst]. unfold cols. rewrite list_sum_enumerate_range. reflexivity.
Qed.


Lemma conv_forward_then_backward :
  exists y l1 c1 d_in l2,
    Conv2D.forward l x = Ok (y, l1)
    /\ shape y = [N; oh; ow; oc]
    /\ Conv2D.cache l1 = Some c1
    /\ Conv2D.c_pad c1 = (p0, p1, p2, p3)
    /\ (forall n i j a b c,
          in_bounds [N; oh; ow] [n; i; j] -> in_bounds [kh; kw; C] [a; b; c] ->
          get (Conv2D.c_X_matrix c1)
              [ravel [N; oh; ow] [n; i; j]; ravel [kh; kw; C] [a; b; c]]
          = get (pad_edge x [N; PH; PW; C] H W p0 p2)
                [n; i * sh + a; j * sw + b; c])
    /\ Conv2D.backward l1 grad = Ok (d_in, l2)
    /\ shape d_in = [N; H; W; C]
    /\ (forall n y x c, in_bounds [N; H; W; C] [n; y; x; c] ->
          get d_in [n; y; x; c]
          = sumZ (fun i => sumZ (fun j =>
                    scatter_term n (p0 + y) (p2 + x) c i j)
                    (Z.to_nat ow)) (Z.to_nat oh)).
Proof.
  destruct conv_forward_ok as (y & X & Wm & Hf & Hy & HX & HWm & HWg & HXg).
  destruct (@conv_backward_ok X Wm HX HWm HWg) as (d_in & l2 & Hbk & Hd & Hdg).
  exists y. eexists. eexists. exists d_in, l2.
  split; [exact Hf|]. split; [exact Hy|].
  split; [reflexivity|]. split; [reflexivity|].
  split; [exact HXg|]. split; [exact Hbk|]. split; [exact Hd | exact Hdg].
Qed.

End ConvCall.

(* ------------------------------------------------------------------ *)
(** ** Output size of the convolution *)

Lemma conv_same_total_pad (kh kw p0 p1 p2 p3 : Z) :
  Conv2D._get_padding (kh, kw) "SAME" = Some (p0, p1, p2, p3) ->
  p0 + p1 = kh - 1 /\ p2 + p3 = kw - 1.
Proof.
  cbn [Conv2D._get_padding String.eqb Ascii.eqb Bool.eqb].
  pose proof (Z.div_mod (kh - 1) 2 ltac:(lia)) as Hh.
  pose proof (Z.div_mod (kw - 1) 2 ltac:(lia)) as Hw.
  pose proof (Z.mod_pos_bound (kh - 1) 2 ltac:(lia)).
  pose proof (Z.mod_pos_bound (kw - 1) 2 ltac:(lia)).
  pose proof (Z.mod_pos_bound kh 2 ltac:(lia)).
  pose proof (Z.mod_pos_bound kw 2 ltac:(lia)).
  pose proof (Z.div_mod kh 2 ltac:(lia)).
  pose proof (Z.div_mod kw 2 ltac:(lia)).
  destruct (Z.eqb_spec (kh mod 2) 0), (Z.eqb_spec (kw mod 2) 0);
    intros [= <- <- <- <-]; lia.
Qed.

(** C4: on a rank-4 input on which the layer is applicable, [forward]
    returns; under VALID padding each spatial size of the output is
    floor((in_dim - kernel_dim) / stride) + 1, and under SAME padding with
    stride 1 it is in_dim. *)
Theorem conv_forward_output_size (l : Conv2D.t) (x w b : ndarray)
    (N H W C kh kw oc sh sw : Z) :
  shape x = [N; H; W; C] ->
  Conv2D.kernel l = (kh, kw, C, oc) ->
  Conv2D.stride l = (sh, sw) ->
  Conv2D.params_w (Conv2D.lazy_init l) = Some w ->
  Conv2D.params_b (Conv2D.lazy_init l) = Some b ->
  shape w = [kh; kw; C; oc] ->
  shape b = [oc] ->
  1 <= N -> 1 <= H -> 1 <= W -> 1 <= C ->
  1 <= kh -> 1 <= kw -> 1 <= oc -> 1 <= sh -> 1 <= sw ->
  (Conv2D.padding_mode l = "VALID" -> kh <= H -> kw <= W ->
   exists y l1,
     Conv2D.forward l x = Ok (y, l1)
     /\ shape y = [N; (H - kh) / sh + 1; (W - kw) / sw + 1; oc])
  /\ (Conv2D.padding_mode l = "SAME" -> sh = 1 -> sw = 1 ->
      exists y l1,
        Conv2D.forward l x = Ok (y, l1) /\ shape y = [N; H; W; oc]).
Proof.
  intros Hx Hk Hs Hw Hb Hws Hbs HN HH HW HC Hkh Hkw Hoc Hsh Hsw.
  split.
  - intros Hmode Hfh Hfw.
    destruct (@conv_forward_ok l x w b N H W C kh kw oc sh sw 0 0 0 0)
      as (y & X & Wm & Hf & Hy & _); auto; try lia.
    { rewrite Hmode. reflexivity. }
    exists y. eexists. split; [exact Hf|]. rewrite Hy.
    repeat f_equal; lia.
  - intros Hmode -> ->.
    destruct (Conv2D._get_padding (kh, kw) "SAME")
      as [[[[p0 p1] p2] p3]|] eqn:Hpad; [|discriminate].
    destruct (conv_same_total_pad Hpad) as [Hph Hpw].
    destruct (@conv_forward_ok l x w b N H W C kh kw oc 1 1 p0 p1 p2 p3)
      as (y & X & Wm & Hf & Hy & _); auto; try lia.
    { rewrite Hmode. exact Hpad. }
    exists y. eexists. split; [exact Hf|]. rewrite Hy.
    rewrite !Z.div_1_r. repeat f_equal; lia.
Qed.

Lemma conv_forward_output_size_witness :
  (exists y l1,
     Conv2D.forward top_left_conv input_1_to_9 = Ok (y, l1)
     /\ shape y = [1; (3 - 2) / 1 + 1; (3 - 2) / 1 + 1; 1])
  /\ (exists y l1,
        Conv2D.forward top_left_conv_same input_1_to_9 = Ok (y, l1)
        /\ shape y = [1; 3; 3; 1]).
Proof.
  split.
  - refine (proj1 (@conv_forward_output_size top_left_conv input_1_to_9
             top_left_kernel (zeros_init 1) 1 3 3 1 2 2 1 1 1
             eq_refl eq_refl eq_refl eq_refl eq_refl eq_refl eq_refl
             _ _ _ _ _ _ _ _ _) eq_refl _ _); lia.
  - refine (proj2 (@conv_forward_output_size top_left_conv_same input_1_to_9
             top_left_kernel (zeros_init 1) 1 3 3 1 2 2 1 1 1
             eq_refl eq_refl eq_refl eq_refl eq_refl eq_refl eq_refl
             _ _ _ _ _ _ _ _ _) eq_refl eq_refl eq_refl); lia.
Defined.

(* ------------------------------------------------------------------ *)
(** ** When the pooling forward pass returns *)

Lemma reshape_inv (a r : ndarray) (ns : list Z) :
  reshape a ns = Ok r ->
  exists sh', infer_shape (size a) ns = Ok sh'
              /\ prod sh' = size a /\ r = reshaped a sh'.
Proof.
  unfold reshape. intros H.
  apply bind_ok_inv in H as (_ & _ & H).
  apply bind_ok_inv in H as (sh' & Hi & H).
  apply bind_ok_inv in H as (u & Hg & H).
  apply guard_ok_inv in Hg. apply Z.eqb_eq in Hg.
  injection H as <-. eauto.
Qed.

Lemma transpose_inv (a r : ndarray) (axes : list nat) :
  transpose a axes = Ok r ->
  List.length axes = ndim a
  /\ shape r = map (fun ax => nth ax (shape a) 0) axes.
Proof.
  unfold transpose. intros H.
  apply bind_ok_inv in H as (u & Hg & H). apply guard_ok_inv in Hg.
  unfold is_permutation in Hg. apply andb_prop in Hg as [Hl _].
  apply Nat.eqb_eq in Hl. injection H as <-. auto.
Qed.

Lemma np_array_inv (xs : list ndarray) (r : ndarray) :
  np_array xs = Ok r ->
  match xs with
  | [] => shape r = [0]
  | x :: _ => shape r = Z.of_nat (List.length xs) :: shape x
  end.
Proof.
  unfold np_array. destruct xs as [|x xs]; intros H.
  - injection H as <-. reflexivity.
  - apply bind_ok_inv in H as (u & _ & H). injection H as <-. reflexivity.
Qed.

Lemma infer_shape_mid_inv (sz n c : Z) (sh' : list Z) :
  0 <= n -> 0 <= c -> infer_shape sz [n; -1; c] = Ok sh' ->
  n * c <> 0 /\ sh' = [n; sz / (n * c); c].
Proof.
  intros Hn Hc. unfold infer_shape.
  assert (Hne : (n =? -1) = false) by (apply Z.eqb_neq; lia).
  assert (Hce : (c =? -1) = false) by (apply Z.eqb_neq; lia).
  cbn [filter count_occ map]. change (-1 =? -1) with true.
  rewrite Hne, Hce. cbn [negb].
  destruct (Z.eq_dec (-1) (-1)); [|lia].
  destruct (Z.eq_dec n (-1)); [lia|]. destruct (Z.eq_dec c (-1)); [lia|].
  unfold prod, fold_right. rewrite Z.mul_1_r.
  destruct (Z.eqb_spec (n * c) 0); [discriminate|].
  cbn [orb]. destruct (negb _); [discriminate|].
  intros [= <-]. auto.
Qed.

Lemma pool_at_inv (padded pos mx : ndarray) (N C ph pw col row : Z) :
  0 <= N -> 0 <= C ->
  MaxPool2D.pool_at padded N C ph pw col row = Ok (pos, mx) ->
  shape pos = [N; C] /\ shape mx = [N; C] /\ 0 < N /\ 0 < C.
Proof.
  intros HN HC. unfold MaxPool2D.pool_at. intros H.
  apply bind_ok_inv in H as (p & _ & H).
  apply bind_ok_inv in H as (q & Hq & H).
  apply reshape_inv in Hq as (sh' & Hi & _ & ->).
  apply infer_shape_mid_inv in Hi as [Hnc ->]; try assumption.
  apply bind_ok_inv in H as (a1 & Ha1 & H).
  apply bind_ok_inv in H as (a2 & Ha2 & H).
  injection H as <- <-.
  unfold np_argmax1 in Ha1. unfold np_max1 in Ha2. cbn [shape reshaped] in *.
  apply bind_ok_inv in Ha1 as (u1 & _ & Ha1). injection Ha1 as <-.
  apply bind_ok_inv in Ha2 as (u2 & _ & Ha2). injection Ha2 as <-.
  cbn [shape reduced1]. repeat split; nia.
Qed.

Lemma py_range_inv (stop step : Z) (xs : list Z) :
  py_range stop step = Ok xs ->
  step <> 0
  /\ (xs <> [] -> 0 <= stop -> 0 < step /\ 0 < stop
                   /\ Z.of_nat (List.length xs) = (stop + step - 1) / step).
Proof.
  unfold py_range. destruct (Z.eqb_spec step 0); [discriminate|].
  intros [= <-]. split; [assumption|]. intros Hne Hstop.
  rewrite length_map, length_seq.
  destruct (Z.ltb_spec 0 step) as [Hpos|Hneg].
  - assert (Hq : 0 < (stop + step - 1) / step).
    { destruct (Z_lt_le_dec 0 ((stop + step - 1) / step)); [assumption|].
      exfalso. apply Hne.
      replace (Z.to_nat _) with 0%nat by lia. reflexivity. }
    split; [assumption|]. split; [|lia].
    destruct (Z_lt_le_dec 0 stop); [assumption|].
    assert (stop = 0) by lia. subst stop.
    rewrite Z.div_small in Hq by lia. lia.
  - exfalso. apply Hne.
    assert (Hq : (stop + step + 1) / step <= 0).
    { assert (step < 0) by lia.
      destruct (Z_le_gt_dec ((stop + step + 1) / step) 0); [assumption|].
      exfalso.
      pose proof (Z.div_mod (stop + step + 1) step ltac:(lia)).
      pose proof (Z.mod_neg_bound (stop + step + 1) step ltac:(lia)). nia. }
    replace (Z.to_nat _) with 0%nat by lia. reflexivity.
Qed.
Lemma np_pad_constant_inv (a p : ndarray) (n h w c t b l r : Z) :
  shape a = [n; h; w; c] ->
  np_pad a t b l r "constant" = Ok p ->
  0 <= t /\ 0 <= b /\ 0 <= l /\ 0 <= r
  /\ p = pad_constant a [n; t + h + b; l + w + r; c] h w t l.
Proof.
  intros Ha. unfold np_pad. rewrite Ha. intros H.
  apply bind_ok_inv in H as (u & Hg & H). apply guard_ok_inv in Hg.
  apply andb_prop in Hg as [Hg H4]. apply andb_prop in Hg as [Hg H3].
  apply andb_prop in Hg as [H1 H2].
  cbn [String.eqb Ascii.eqb Bool.eqb] in H. injection H as <-.
  repeat split; lia.
Qed.

Lemma floordiv_inv (a b q : Z) : floordiv a b = Ok q -> b <> 0 /\ q = a / b.
Proof.
  unfold floordiv. destruct (Z.eqb_spec b 0); [discriminate|].
  intros [= <-]. auto.
Qed.

Lemma length_concat_uniform {A : Type} (xss : list (list A)) (n : nat) :
  Forall (fun xs => List.length xs = n) xss ->
  List.length (List.concat xss) = (List.length xss * n)%nat.
Proof.
  induction 1 as [|xs xss Hxs _ IH]; [reflexivity|].
  cbn [List.concat List.length]. rewrite length_app, IH, Hxs. lia.
Qed.

Lemma Forall2_Forall_r {A B : Type} (R : A -> B -> Prop) (P : B -> Prop)
    (xs : list A) (ys : list B) :
  Forall2 R xs ys -> (forall x y, R x y -> P y) -> Forall P ys.
Proof. induction 1; intros HP; constructor; eauto. Qed.

Lemma ceil_eq_floor (a s : Z) :
  0 < s -> (a + s - 1) / s = a / s -> a mod s = 0.
Proof.
  intros Hs Heq.
  pose proof (Z.div_mod a s ltac:(lia)) as Hdm.
  pose proof (Z.mod_pos_bound a s Hs) as Hb.
  destruct (Z.eq_dec (a mod s) 0) as [|Hne]; [assumption|exfalso].
  assert (Hge : a / s + 1 <= (a + s - 1) / s).
  { apply Z.div_le_lower_bound; [lia|]. nia. }
  lia.
Qed.

Lemma floor_le_ceil (a s : Z) : 0 < s -> a / s <= (a + s - 1) / s.
Proof. intros Hs. apply Z.div_le_mono; lia. Qed.

(** The layer [l] with strides [sh] and [sw] is called on a well-formed
    input [x] of shape (N, H, W, C), for which the padding calculator
    gives (p0, p1, p2, p3). *)

Section PoolForwardInversion.

Variables (l : MaxPool2D.t) (x : ndarray).
Variables (N H W C sh sw p0 p1 p2 p3 : Z).

Hypothesis Hx : shape x = [N; H; W; C].
Hypothesis Hdims : 0 <= N /\ 0 <= H /\ 0 <= W /\ 0 <= C.
Hypothesis Hstride : MaxPool2D.stride l = (sh, sw).
Hypothesis Hpad :
  MaxPool2D._get_padding (H, W) (MaxPool2D.pool_size l) (sh, sw)
    (MaxPool2D.padding_mode l) = Ok (p0, p1, p2, p3).

Local Abbreviation PH := (p0 + H + p1).
Local Abbreviation PW := (p2 + W + p3).

Lemma pool_forward_inv (y : ndarray) (l1 : MaxPool2D.t) :
  MaxPool2D.forward l x = Ok (y, l1) ->
  0 < sh /\ 0 < sw /\ PH mod sh = 0 /\ PW mod sw = 0
  /\ shape y = [N; PH / sh; PW / sw; C]
  /\ (exists max_pos,
        l1 = MaxPool2D.mk (MaxPool2D.pool_size l) (sh, sw)
               (MaxPool2D.padding_mode l)
               (Some (MaxPool2D.mkcache N (H, W, C) (sh, sw) (PH, PW)
                        (MaxPool2D.pool_size l) max_pos
                        (PH / sh, PW / sw, C))))
  /\ 0 < PH /\ 0 < PW.
Proof.
  intros Hf. unfold MaxPool2D.forward in Hf. rewrite Hx, Hstride, Hpad in Hf.
  cbn [bind] in Hf.
  apply bind_ok_inv in Hf as (padded & Hp & Hf).
  apply (@np_pad_constant_inv x padded N H W C p0 p1 p2 p3 Hx) in Hp as (Hp0 & Hp1 & Hp2 & Hp3 & ->).
  cbn [shape pad_constant] in Hf.
  destruct (MaxPool2D.pool_size l) as [ph pw].
  apply bind_ok_inv in Hf as (out_h & Hoh & Hf).
  apply bind_ok_inv in Hf as (out_w & How & Hf).
  apply floordiv_inv in Hoh as [Hsh0 ->]. apply floordiv_inv in How as [Hsw0 ->].
  apply bind_ok_inv in Hf as (cols & Hcols & Hf).
  apply bind_ok_inv in Hf as (pools & Hpools & Hf).
  apply bind_ok_inv in Hf as (outputs & Hout & Hf).
  apply bind_ok_inv in Hf as (max_pos & _ & Hf).
  injection Hf as <- Hl1.
  destruct Hdims as (HN & HH & HW & HC).
  (* the inner range does not depend on the row of windows *)
  destruct (py_range PW sw) as [rowsl|e] eqn:Hrowsl.
  2:{ unfold py_range in Hrowsl.
      destruct (Z.eqb_spec sw 0); [contradiction | discriminate]. }
  apply mapM_inv in Hpools.
  assert (Hrows : Forall (fun row =>
            List.length row = List.length rowsl
            /\ Forall (fun pm => shape (snd pm) = [N; C] /\ 0 < N /\ 0 < C) row)
            pools).
  { eapply Forall2_Forall_r; [exact Hpools|]. intros col row Hrow.
    cbn [bind] in Hrow. apply mapM_inv in Hrow. split.
    - symmetry. apply (Forall2_length Hrow).
    - eapply Forall2_Forall_r; [exact Hrow|]. intros r [pos mx] Hpm.
      apply pool_at_inv in Hpm as (_ & Hmx & HN' & HC'); auto. }
  unfold MaxPool2D.assemble in Hout.
  apply bind_ok_inv in Hout as (a & Ha & Hout).
  apply bind_ok_inv in Hout as (a' & Ha' & Hout).
  apply transpose_inv in Ha' as [Hrank Hsa'].
  apply np_array_inv in Ha.
  destruct (map snd (List.concat pools)) as [|x0 xs0] eqn:Hxs.
  { unfold ndim in Hrank. rewrite Ha in Hrank. discriminate. }
  assert (Hlen : List.length (List.concat pools)
                 = (List.length pools * List.length rowsl)%nat).
  { apply length_concat_uniform. eapply Forall_impl; [|exact Hrows].
    cbn. tauto. }
  assert (Hx0 : shape x0 = [N; C] /\ 0 < N /\ 0 < C).
  { assert (Hin : In x0 (map snd (List.concat pools)))
      by (rewrite Hxs; left; reflexivity).
    apply in_map_iff in Hin as (pm & <- & Hpm).
    apply in_concat in Hpm as (row & Hrow & Hpm).
    rewrite Forall_forall in Hrows. destruct (Hrows row Hrow) as [_ Hall].
    rewrite Forall_forall in Hall. exact (Hall pm Hpm). }
  destruct Hx0 as (Hx0 & HN' & HC').
  assert (Hlen' : List.length (x0 :: xs0)
                  = (List.length pools * List.length rowsl)%nat).
  { rewrite <- Hxs, length_map. exact Hlen. }
  assert (Hnz : (0 < List.length pools)%nat /\ (0 < List.length rowsl)%nat).
  { cbn [List.length] in Hlen'. nia. }
  destruct Hnz as [Hnr Hnc].
  assert (Hcl : List.length cols = List.length pools)
    by apply (Forall2_length Hpools).
  apply py_range_inv in Hcols as [_ Hcols].
  destruct Hcols as (Hshp & HPH & Hnrows); [destruct cols; [cbn in *; lia | discriminate] | lia |].
  apply py_range_inv in Hrowsl as [_ Hrowsl].
  destruct Hrowsl as (Hswp & HPW & Hncols); [destruct rowsl; [cbn in *; lia | discriminate] | lia |].
  rewrite Ha, Hx0 in Hsa'. cbn [map nth] in Hsa'.
  apply reshape_inv in Hout as (sh' & Hi & Hprod & ->).
  pose proof (Z.div_pos PH sh ltac:(lia) Hshp) as Hq1.
  pose proof (Z.div_pos PW sw ltac:(lia) Hswp) as Hq2.
  rewrite infer_shape_plain in Hi by (repeat constructor; lia).
  injection Hi as <-.
  unfold size in Hprod. rewrite Hsa', Hlen' in Hprod.
  unfold prod, fold_right in Hprod.
  pose proof (@floor_le_ceil PH sh Hshp) as Hle1.
  pose proof (@floor_le_ceil PW sw Hswp) as Hle2.
  rewrite Hcl in Hnrows.
  assert (Hmul : (PH / sh) * (PW / sw)
                 = ((PH + sh - 1) / sh) * ((PW + sw - 1) / sw)) by nia.
  assert (Heq1 : (PH + sh - 1) / sh = PH / sh) by nia.
  assert (Heq2 : (PW + sw - 1) / sw = PW / sw) by nia.
  split; [assumption|]. split; [assumption|].
  split; [apply ceil_eq_floor; assumption|].
  split; [apply ceil_eq_floor; assumption|].
  split; [reflexivity|].
  split; [exists max_pos; symmetry; exact Hl1 | split; assumption].
Qed.

End PoolForwardInversion.

(** C10: [MaxPool2D.forward] returns only when the padded height and
    width are multiples of the strides, and then the output has
    padded_h / stride_h rows and padded_w / stride_w columns, whatever
    the pool size; when a padded size is not a multiple of its stride,
    [forward] raises. *)
Theorem pool_forward_needs_divisible (l : MaxPool2D.t) (x : ndarray)
    (N H W C sh sw p0 p1 p2 p3 : Z) :
  shape x = [N; H; W; C] ->
  0 <= N /\ 0 <= H /\ 0 <= W /\ 0 <= C ->
  MaxPool2D.stride l = (sh, sw) ->
  MaxPool2D._get_padding (H, W) (MaxPool2D.pool_size l) (sh, sw)
    (MaxPool2D.padding_mode l) = Ok (p0, p1, p2, p3) ->
  (forall y l1,
      MaxPool2D.forward l x = Ok (y, l1) ->
      (p0 + H + p1) mod sh = 0 /\ (p2 + W + p3) mod sw = 0
      /\ shape y = [N; (p0 + H + p1) / sh; (p2 + W + p3) / sw; C])
  /\ ((p0 + H + p1) mod sh <> 0 \/ (p2 + W + p3) mod sw <> 0 ->
      raises (MaxPool2D.forward l x)).
Proof.
  intros Hx Hdims Hs Hpad.
  assert (Hinv : forall y l1,
      MaxPool2D.forward l x = Ok (y, l1) ->
      (p0 + H + p1) mod sh = 0 /\ (p2 + W + p3) mod sw = 0
      /\ shape y = [N; (p0 + H + p1) / sh; (p2 + W + p3) / sw; C]).
  { intros y l1 Hf.
    destruct (@pool_forward_inv l x N H W C sh sw p0 p1 p2 p3
                Hx Hdims Hs Hpad y l1 Hf) as (_ & _ & H1 & H2 & H3 & _).
    auto. }
  split; [exact Hinv|].
  intros Hnd.
  destruct (MaxPool2D.forward l x) as [[y l1]|e] eqn:Hf.
  - destruct (Hinv y l1 eq_refl) as (H1 & H2 & _). tauto.
  - exists e. reflexivity.
Qed.


(* ------------------------------------------------------------------ *)
(** ** Max pooling: forward and backward on non-overlapping windows *)

Lemma ceil_div_exact (a s : Z) :
  0 < s -> a mod s = 0 -> (a + s - 1) / s = a / s.
Proof.
  intros Hs Hm.
  pose proof (Z.div_mod a s ltac:(lia)) as Hdm. rewrite Hm in Hdm.
  symmetry. apply Z.div_unique with (r := s - 1); [lia|].
  lia.
Qed.

Lemma nth_concat_grid {A : Type} (g : nat -> nat -> A) (nr nc i j : nat) (d : A) :
  (i < nr)%nat -> (j < nc)%nat ->
  nth (i * nc + j) (List.concat (map (fun i => map (g i) (seq 0 nc)) (seq 0 nr))) d
  = g i j.
Proof.
  intros Hi Hj. induction nr as [|nr IH]; [lia|].
  rewrite seq_S, map_app, concat_app. cbn [map List.concat seq Nat.add].
  rewrite app_nil_r.
  assert (Hlen : List.length (List.concat (map (fun i => map (g i) (seq 0 nc)) (seq 0 nr)))
                 = (nr * nc)%nat).
  { rewrite (@length_concat_uniform _ _ nc).
    - rewrite length_map, length_seq. reflexivity.
    - apply Forall_forall. intros xs Hxs. apply in_map_iff in Hxs as (k & <- & _).
      rewrite length_map, length_seq. reflexivity. }
  destruct (Nat.eq_dec i nr) as [->|Hne].
  - rewrite app_nth2 by (rewrite Hlen; lia). rewrite Hlen.
    replace (nr * nc + j - nr * nc)%nat with j by lia.
    apply nth_map_seq. exact Hj.
  - rewrite app_nth1 by (rewrite Hlen; nia). apply IH. lia.
Qed.

Lemma length_concat_grid {A : Type} (g : nat -> nat -> A) (nr nc : nat) :
  List.length (List.concat (map (fun i => map (g i) (seq 0 nc)) (seq 0 nr)))
  = (nr * nc)%nat.
Proof.
  rewrite (@length_concat_uniform _ _ nc).
  - rewrite length_map, length_seq. reflexivity.
  - apply Forall_forall. intros xs Hxs. apply in_map_iff in Hxs as (k & <- & _).
    rewrite length_map, length_seq. reflexivity.
Qed.

(** Stacking the arrays of a grid of windows and reshaping them to
    (N, nr, nc, C): entry (n, i, j, c) is entry (n, c) of window (i, j). *)
Lemma assemble_grid (g : nat -> nat -> ndarray) (nr nc : nat) (N C : Z) :
  (0 < nr)%nat -> (0 < nc)%nat -> 0 <= N -> 0 <= C ->
  (forall i j, (i < nr)%nat -> (j < nc)%nat -> shape (g i j) = [N; C]) ->
  exists r,
    MaxPool2D.assemble
      (List.concat (map (fun i => map (g i) (seq 0 nc)) (seq 0 nr)))
      N (Z.of_nat nr) (Z.of_nat nc) C = Ok r
    /\ shape r = [N; Z.of_nat nr; Z.of_nat nc; C]
    /\ forall n i j c,
         in_bounds [N; Z.of_nat nr; Z.of_nat nc; C] [n; i; j; c] ->
         get r [n; i; j; c] = get (g (Z.to_nat i) (Z.to_nat j)) [n; c].
Proof.
  intros Hnr Hnc HN HC Hsh. unfold MaxPool2D.assemble.
  set (xs := List.concat _).
  assert (Hlen : List.length xs = (nr * nc)%nat) by apply length_concat_grid.
  destruct (@np_array_ok xs [N; C]) as (a & -> & Hsa & Hga).
  - intros Hnil. rewrite Hnil in Hlen. cbn in Hlen. nia.
  - apply Forall_forall. intros y Hy. unfold xs in Hy.
    apply in_concat in Hy as (row & Hrow & Hy).
    apply in_map_iff in Hrow as (i & <- & Hi).
    apply in_map_iff in Hy as (j & <- & Hj).
    apply in_seq in Hi, Hj. apply Hsh; lia.
  - cbn [bind].
    rewrite transpose_ok by (unfold ndim; rewrite Hsa; reflexivity).
    cbn [bind]. rewrite reshape_plain.
    2:{ repeat constructor; lia. }
    2:{ unfold size, transposed, shape at 1. rewrite Hsa, Hlen.
        cbn [map nth]. unfold prod, fold_right. lia. }
    eexists. split; [reflexivity|]. split; [reflexivity|].
    intros n i j c (Hn & Hi & Hj & Hc & _).
    cbn [get reshaped]. unfold transposed at 2. cbn [shape]. rewrite Hsa, Hlen.
    cbn [map nth].
    replace (ravel [N; Z.of_nat nr; Z.of_nat nc; C] [n; i; j; c])
      with (ravel [N; Z.of_nat (nr * nc); C] [n; i * Z.of_nat nc + j; c])
      by (cbn [ravel]; unfold prod, fold_right; lia).
    rewrite unravel_ravel by (cbn [in_bounds]; nia).
    unfold transposed, ndim. rewrite Hsa.
    cbn [get List.length seq map position Nat.eqb nth].
    replace (i * Z.of_nat nc + j)
      with (Z.of_nat (Z.to_nat i * nc + Z.to_nat j)) by lia.
    rewrite (Hga _ _ (g 0%nat 0%nat)) by (rewrite Hlen; nia).
    unfold xs. rewrite nth_concat_grid by lia. reflexivity.
Qed.

Lemma pool_padding_1d_nonneg (n p s lead trail : Z) (mode : string) :
  0 < s ->
  MaxPool2D._get_padding_1d n p s mode = Ok (lead, trail) ->
  0 <= lead /\ 0 <= trail.
Proof.
  intros Hs. unfold MaxPool2D._get_padding_1d, pymod.
  destruct (Z.eqb_spec s 0); [lia|].
  pose proof (Z.mod_pos_bound n s Hs) as Hr.
  assert (Hhalf : forall t, 0 <= t -> 0 <= t / 2)
    by (intros; apply Z.div_pos; lia).
  destruct (String.eqb mode "SAME"); cbn [bind].
  - destruct (Z.eqb_spec (n mod s) 0); cbn [bind].
    + pose proof (Hhalf (Z.max (p - s) 0) ltac:(lia)).
      destruct (_ =? 0); intros [= <- <-]; lia.
    + pose proof (Hhalf (Z.max p s - n mod s) ltac:(lia)).
      destruct (_ =? 0); intros [= <- <-]; lia.
  - change (0 mod 2 =? 0) with true. cbn. intros [= <- <-]. lia.
Qed.

Lemma pool_padding_nonneg (hw ps st : Z * Z) (mode : string) (p0 p1 p2 p3 : Z) :
  0 < fst st -> 0 < snd st ->
  MaxPool2D._get_padding hw ps st mode = Ok (p0, p1, p2, p3) ->
  0 <= p0 /\ 0 <= p1 /\ 0 <= p2 /\ 0 <= p3.
Proof.
  intros Hs1 Hs2. unfold MaxPool2D._get_padding. intros H.
  apply bind_ok_inv in H as ([a1 b1] & H1 & H).
  apply bind_ok_inv in H as ([a2 b2] & H2 & H).
  cbn [fst snd] in H. injection H as <- <- <- <-.
  apply pool_padding_1d_nonneg in H1, H2; try assumption. lia.
Qed.

Lemma map_concat_grid {A B : Type} (f : A -> B) (g : nat -> nat -> A)
    (nr nc : nat) :
  map f (List.concat (map (fun i => map (g i) (seq 0 nc)) (seq 0 nr)))
  = List.concat (map (fun i => map (fun j => f (g i j)) (seq 0 nc)) (seq 0 nr)).
Proof.
  rewrite concat_map, map_map. f_equal. apply map_ext. intros i.
  apply map_map.
Qed.

(** The first maximum: [argmax_first f (S m)] scans f 0, ..., f m. *)
Lemma argmax_first_S (f : Z -> Z) (m : nat) :
  argmax_first f (S (S m))
  = if f (argmax_first f (S m)) <? f (Z.of_nat (S m))
    then Z.of_nat (S m) else argmax_first f (S m).
Proof.
  unfold argmax_first. cbn [Nat.sub]. rewrite Nat.sub_0_r.
  rewrite seq_S, fold_left_app. reflexivity.
Qed.

Lemma argmax_first_spec (f : Z -> Z) (n : nat) :
  (0 < n)%nat ->
  0 <= argmax_first f n < Z.of_nat n
  /\ (forall k, 0 <= k < Z.of_nat n -> f k <= f (argmax_first f n))
  /\ (forall k, 0 <= k < argmax_first f n -> f k < f (argmax_first f n)).
Proof.
  destruct n as [|m]; [lia|]. intros _.
  induction m as [|m IH].
  - unfold argmax_first. cbn. repeat split; try lia.
    intros k Hk. replace k with 0 by lia. lia.
  - destruct IH as (Hb & Hmax & Hfirst). rewrite argmax_first_S.
    destruct (Z.ltb_spec (f (argmax_first f (S m))) (f (Z.of_nat (S m)))).
    + repeat split; try lia.
      * intros k Hk. destruct (Z.eq_dec k (Z.of_nat (S m))) as [->|]; [lia|].
        specialize (Hmax k ltac:(lia)). lia.
      * intros k Hk. specialize (Hmax k ltac:(lia)). lia.
    + repeat split; try lia.
      * intros k Hk. destruct (Z.eq_dec k (Z.of_nat (S m))) as [->|]; [lia|].
        apply Hmax. lia.
      * exact Hfirst.
Qed.

Lemma argmax_first_ext (f g : Z -> Z) (n : nat) :
  (forall k, 0 <= k < Z.of_nat n -> f k = g k) ->
  argmax_first f n = argmax_first g n.
Proof.
  destruct n as [|m]; [reflexivity|].
  induction m as [|m IH]; intros Hfg; [reflexivity|].
  rewrite !argmax_first_S.
  rewrite <- IH by (intros; apply Hfg; lia).
  pose proof (@argmax_first_spec f (S m) ltac:(lia)) as (Hb & _).
  rewrite <- !Hfg by lia. reflexivity.
Qed.

(** Overwriting loops: when every step either overwrites the entry at
    [idx] with a value of its own or leaves it alone, the loop computes the
    same scan on that entry. *)
Lemma fold_left_overwrites {A : Type} (g : ndarray -> A -> ndarray)
    (cov : A -> bool) (val : A -> Z) (idx : list Z) (xs : list A)
    (d0 : ndarray) :
  (forall d x, In x xs ->
     get (g d x) idx = if cov x then val x else get d idx) ->
  get (fold_left g xs d0) idx
  = fold_left (fun acc x => if cov x then val x else acc) xs (get d0 idx).
Proof.
  revert d0. induction xs as [|x xs IH]; intros d0 Hg; [reflexivity|].
  cbn [fold_left]. rewrite IH by (intros; apply Hg; right; assumption).
  rewrite Hg by (left; reflexivity). reflexivity.
Qed.

Lemma scan_unique (cov : Z * Z -> bool) (val : Z * Z -> Z) (s : Z)
    (n i0 : nat) (a0 : Z) :
  (forall i, (i < n)%nat -> cov (Z.of_nat i, Z.of_nat i * s) = true -> i = i0) ->
  fold_left (fun acc x => if cov x then val x else acc)
            (enumerate (map (fun i => Z.of_nat i * s) (seq 0 n))) a0
  = if Nat.ltb i0 n && cov (Z.of_nat i0, Z.of_nat i0 * s)
    then val (Z.of_nat i0, Z.of_nat i0 * s) else a0.
Proof.
  rewrite enumerate_map. induction n as [|n IH]; intros Huniq.
  - reflexivity.
  - rewrite seq_S, map_app, fold_left_app. cbn [map fold_left Nat.add].
    rewrite IH by (intros; apply Huniq; [lia | assumption]).
    destruct (cov (Z.of_nat n, Z.of_nat n * s)) eqn:Hc.
    + assert (n = i0) by (apply Huniq; [lia | assumption]). subst i0.
      rewrite (proj2 (Nat.ltb_lt n (S n))) by lia. rewrite Hc. reflexivity.
    + destruct (Nat.ltb_spec i0 n) as [Hlt|Hge].
      * rewrite (proj2 (Nat.ltb_lt i0 (S n))) by lia. reflexivity.
      * cbn [andb]. destruct (Nat.ltb_spec i0 (S n)) as [Hlt|_]; [|reflexivity].
        assert (i0 = n) by lia. subst i0. rewrite Hc. reflexivity.
Qed.

(** The layer [l] has [ph] x [pw] windows and strides [sh] >= [ph] and
    [sw] >= [pw]; the input [x] is of shape (N, H, W, C) and its padded
    sizes are multiples of the strides. *)

Section PoolCall.

Variables (l : MaxPool2D.t) (x : ndarray).
Variables (N H W C ph pw sh sw p0 p1 p2 p3 : Z).

Hypothesis Hx : shape x = [N; H; W; C].
Hypothesis Hpool : MaxPool2D.pool_size l = (ph, pw).
Hypothesis Hstride : MaxPool2D.stride l = (sh, sw).
Hypothesis Hpad :
  MaxPool2D._get_padding (H, W) (ph, pw) (sh, sw) (MaxPool2D.padding_mode l)
  = Ok (p0, p1, p2, p3).
Hypothesis HN : 1 <= N.
Hypothesis HH : 1 <= H.
Hypothesis HW : 1 <= W.
Hypothesis HC : 1 <= C.
Hypothesis Hph : 1 <= ph <= sh.
Hypothesis Hpw : 1 <= pw <= sw.
Hypothesis Hdiv_h : (p0 + H + p1) mod sh = 0.
Hypothesis Hdiv_w : (p2 + W + p3) mod sw = 0.

Local Abbreviation PH := (p0 + H + p1).
Local Abbreviation PW := (p2 + W + p3).
Local Abbreviation oh := ((p0 + H + p1) / sh).
Local Abbreviation ow := ((p2 + W + p3) / sw).
Local Abbreviation padded := (pad_constant x [N; PH; PW; C] H W p0 p2).

Lemma pool_pads : 0 <= p0 /\ 0 <= p1 /\ 0 <= p2 /\ 0 <= p3.
Proof.
  eapply pool_padding_nonneg; [| |exact Hpad]; cbn [fst snd]; lia.
Qed.

Lemma pool_out_dims : 1 <= oh /\ 1 <= ow /\ oh * sh = PH /\ ow * sw = PW.
Proof.
  destruct pool_pads as (? & ? & ? & ?).
  pose proof (Z.div_mod PH sh ltac:(lia)) as Hdm1.
  pose proof (Z.div_mod PW sw ltac:(lia)) as Hdm2.
  rewrite Hdiv_h in Hdm1. rewrite Hdiv_w in Hdm2.
  repeat split; nia.
Qed.

Lemma pool_at_ok (i j : Z) :
  0 <= i < oh -> 0 <= j < ow ->
  MaxPool2D.pool_at padded N C ph pw (i * sh) (j * sw)
  = Ok (pool_result padded N C ph pw (i * sh) (j * sw)).
Proof.
  intros Hi Hj. destruct pool_out_dims as (_ & _ & HPH & HPW).
  unfold MaxPool2D.pool_at.
  rewrite (@slice_hw_inside padded N PH PW C) by (try reflexivity; nia).
  cbn [bind].
  assert (Hs : size (window padded [N; ph; pw; C] (i * sh) (j * sw))
               = (ph * pw) * (N * C)).
  { unfold size, window, shape, prod, fold_right. lia. }
  rewrite reshape_infer_mid; rewrite ?Hs, ?Z.div_mul, ?Z.mod_mul; try nia.
  cbn [bind]. fold (pool_window padded N C ph pw (i * sh) (j * sw)).
  unfold np_argmax1, np_max1, pool_window. cbn [shape reshaped].
  destruct (Z.ltb_spec 0 (ph * pw)); [|nia]. reflexivity.
Qed.

Lemma pool_window_value (n i j c k : Z) :
  0 <= n < N -> 0 <= c < C -> 0 <= k < ph * pw ->
  get (pool_window padded N C ph pw (i * sh) (j * sw)) [n; k; c]
  = window_value padded sh sw pw n i j c k.
Proof.
  intros Hn Hc Hk. unfold pool_window, window_value. cbn [get reshaped].
  unfold window at 2. cbn [shape].
  pose proof (Z.div_mod k pw ltac:(lia)) as Hdm.
  pose proof (Z.mod_pos_bound k pw ltac:(lia)) as Hm.
  assert (Hq : 0 <= k / pw < ph).
  { split; [apply Z.div_pos; lia|]. apply Z.div_lt_upper_bound; lia. }
  replace (ravel [N; ph * pw; C] [n; k; c])
    with (ravel [N; ph; pw; C] [n; k / pw; k mod pw; c])
    by (cbn [ravel]; unfold prod, fold_right; nia).
  rewrite unravel_ravel by (cbn [in_bounds]; lia).
  reflexivity.
Qed.

Lemma pool_forward_ok :
  exists y max_pos,
    MaxPool2D.forward l x
    = Ok (y, MaxPool2D.mk (ph, pw) (sh, sw) (MaxPool2D.padding_mode l)
               (Some (MaxPool2D.mkcache N (H, W, C) (sh, sw) (PH, PW)
                        (ph, pw) max_pos (oh, ow, C))))
    /\ shape y = [N; oh; ow; C]
    /\ shape max_pos = [N; oh; ow; C]
    /\ forall n i j c, in_bounds [N; oh; ow; C] [n; i; j; c] ->
         get max_pos [n; i; j; c]
         = argmax_first (window_value padded sh sw pw n i j c)
                        (Z.to_nat (ph * pw)).
Proof.
  destruct pool_pads as (Hp0 & Hp1 & Hp2 & Hp3).
  destruct pool_out_dims as (Hoh & How & HPH & HPW).
  unfold MaxPool2D.forward. rewrite Hx, Hpool, Hstride, Hpad.
  cbn [bind]. rewrite (@np_pad_constant_ok x N H W C) by auto.
  cbn [bind shape pad_constant].
  unfold floordiv.
  destruct (Z.eqb_spec sh 0) as [Hz|_]; [lia|].
  destruct (Z.eqb_spec sw 0) as [Hz|_]; [lia|].
  cbn [bind].
  rewrite !py_range_pos by lia. cbn [bind].
  rewrite !ceil_div_exact by (assumption || lia).
  set (nr := Z.to_nat oh). set (nc := Z.to_nat ow).
  set (G := fun i j : nat =>
              pool_result padded N C ph pw (Z.of_nat i * sh) (Z.of_nat j * sw)).
  rewrite (@mapM_map _ _ _
     (fun col => map (fun row => pool_result padded N C ph pw col row)
                     (map (fun i => Z.of_nat i * sw) (seq 0 nc)))).
  2:{ intros col Hcol. apply in_map_iff in Hcol as (i & <- & Hi).
      apply in_seq in Hi. apply mapM_map. intros row Hrow.
      apply in_map_iff in Hrow as (j & <- & Hj). apply in_seq in Hj.
      apply pool_at_ok; unfold nr, nc in *; lia. }
  cbn [bind]. rewrite map_map.
  replace (map _ (seq 0 nr)) with (map (fun i => map (G i) (seq 0 nc)) (seq 0 nr)).
  2:{ apply map_ext. intros i. rewrite map_map. reflexivity. }
  rewrite !map_concat_grid.
  replace oh with (Z.of_nat nr) by (unfold nr; lia).
  replace ow with (Z.of_nat nc) by (unfold nc; lia).
  destruct (@assemble_grid (fun i j => snd (G i j)) nr nc N C)
    as (y & -> & Hys & _); try (unfold nr, nc; lia).
  { intros. reflexivity. }
  destruct (@assemble_grid (fun i j => fst (G i j)) nr nc N C)
    as (mp & -> & Hms & Hmg); try (unfold nr, nc; lia).
  { intros. reflexivity. }
  cbn [bind]. exists y, mp. split; [reflexivity|].
  split; [exact Hys|]. split; [exact Hms|].
  intros n i j c Hin. rewrite Hmg by exact Hin.
  destruct Hin as (Hn & Hi & Hj & Hc & _).
  unfold G, pool_result. cbn [fst get reduced1]. rewrite !Z2Nat.id by lia.
  apply argmax_first_ext. intros k Hk.
  apply pool_window_value; try lia.
Qed.


Variables (grad max_pos : ndarray).
Hypothesis Hgrad : shape grad = [N; oh; ow; C].
Hypothesis Hmp : shape max_pos = [N; oh; ow; C].
Hypothesis Hmp_range :
  forall n i j c, in_bounds [N; oh; ow; C] [n; i; j; c] ->
    0 <= get max_pos [n; i; j; c] < ph * pw.

Lemma route_step_ok (d : ndarray) (i j : Z) :
  shape d = [N; PH; PW; C] -> 0 <= i < oh -> 0 <= j < ow ->
  MaxPool2D.route_step max_pos grad N C ph pw i (i * sh) j (j * sw) d
  = Ok (updated (fun _ v => v) d (i * sh) ph (j * sw) pw
          (route_region max_pos grad N C ph pw i j)).
Proof.
  intros Hd Hi Hj. destruct pool_out_dims as (_ & _ & HPH & HPW).
  unfold MaxPool2D.route_step.
  rewrite (@index_hw_ok max_pos N oh ow C) by assumption.
  rewrite (@index_hw_ok grad N oh ow C) by assumption.
  cbn [bind]. unfold eye_rows.
  destruct (Z.leb_spec 0 (ph * pw)); [|nia]. cbn [guard bind].
  replace (forallb _ (indices (shape (picked max_pos [N; C] i j)))) with true.
  2:{ symmetry. apply forallb_forall. intros idx Hin.
      apply in_indices in Hin. cbn [shape picked] in Hin.
      destruct idx as [|n [|c [|? ?]]]; cbn [in_bounds] in Hin; try tauto.
      cbn [get picked].
      pose proof (@Hmp_range n i j c ltac:(cbn [in_bounds]; tauto)). lia. }
  cbn [guard bind].
  rewrite transpose_ok by reflexivity. cbn [bind].
  unfold newaxis1. cbn [shape picked bind].
  unfold np_repeat1. cbn [shape spread1].
  destruct (Z.leb_spec 0 (ph * pw)); [|nia]. cbn [guard bind].
  unfold np_mul. cbn [shape repeated1 transposed one_hot picked app map nth rev].
  rewrite Z.mul_1_l. cbn [broadcast_rev]. rewrite !Z.eqb_refl. cbn [bind rev app].
  rewrite reshape_plain.
  2:{ repeat constructor; lia. }
  2:{ unfold size, multiplied, shape, prod, fold_right. lia. }
  cbn [bind]. unfold assign_slice_hw.
  apply (@update_slice_hw_inside _ d _ N PH PW C); auto; try reflexivity; nia.
Qed.

Lemma route_region_value (n i j a b c : Z) :
  in_bounds [N; oh; ow; C] [n; i; j; c] -> 0 <= a < ph -> 0 <= b < pw ->
  get (route_region max_pos grad N C ph pw i j) [n; a; b; c]
  = get grad [n; i; j; c]
    * (if a * pw + b =? get max_pos [n; i; j; c] then 1 else 0).
Proof.
  intros Hin Ha Hb. pose proof (Hmp_range Hin) as Hv.
  destruct Hin as (Hn & Hi & Hj & Hc & _).
  unfold route_region. cbn [get reshaped]. unfold multiplied at 2. cbn [shape].
  replace (ravel [N; ph; pw; C] [n; a; b; c])
    with (ravel [N; ph * pw; C] [n; a * pw + b; c])
    by (cbn [ravel]; unfold prod, fold_right; lia).
  rewrite unravel_ravel by (cbn [in_bounds]; nia).
  cbn [get multiplied shape repeated1 transposed one_hot picked app map nth].
  rewrite !bcast_index_id by (cbn [in_bounds]; nia).
  unfold ndim, one_hot, picked, spread1.
  cbn [shape get List.length app seq map position Nat.eqb nth removelast last].
  destruct (Z.ltb_spec (get max_pos [n; i; j; c]) 0); [lia|]. reflexivity.
Qed.

Lemma window_index_unique (s p Y : Z) (i : nat) :
  0 < p <= s -> 0 <= Y ->
  (Z.of_nat i * s <=? Y) && (Y <? Z.of_nat i * s + p) = true ->
  i = Z.to_nat (Y / s).
Proof.
  intros Hp HY Hc. apply andb_prop in Hc as [H1 H2].
  apply Z.leb_le in H1. apply Z.ltb_lt in H2.
  assert (Y / s = Z.of_nat i); [|lia].
  symmetry. apply Z.div_unique with (r := Y - Z.of_nat i * s); lia.
Qed.

Lemma pool_backward_ok :
  exists d_in,
    MaxPool2D.backward
      (MaxPool2D.mk (ph, pw) (sh, sw) (MaxPool2D.padding_mode l)
         (Some (MaxPool2D.mkcache N (H, W, C) (sh, sw) (PH, PW)
                  (ph, pw) max_pos (oh, ow, C)))) grad
    = Ok (d_in,
          MaxPool2D.mk (ph, pw) (sh, sw) (MaxPool2D.padding_mode l)
            (Some (MaxPool2D.mkcache N (H, W, C) (sh, sw) (PH, PW)
                     (ph, pw) max_pos (oh, ow, C))))
    /\ shape d_in = [N; PH; PW; C]
    /\ forall n Y X c, in_bounds [N; PH; PW; C] [n; Y; X; c] ->
         get d_in [n; Y; X; c]
         = if (Y mod sh <? ph) && (X mod sw <? pw)
           then get grad [n; Y / sh; X / sw; c]
                * (if (Y mod sh) * pw + X mod sw
                      =? get max_pos [n; Y / sh; X / sw; c]
                   then 1 else 0)
           else 0.
Proof.
  destruct pool_pads as (Hp0 & Hp1 & Hp2 & Hp3).
  destruct pool_out_dims as (Hoh & How & HPH & HPW).
  unfold MaxPool2D.backward.
  cbn [MaxPool2D.cache MaxPool2D.c_in_n MaxPool2D.c_in_img_size
       MaxPool2D.c_stride MaxPool2D.c_pad MaxPool2D.c_pool
       MaxPool2D.c_max_pos].
  unfold np_zeros.
  replace (forallb (fun d => 0 <=? d) [N; PH; PW; C]) with true.
  2:{ symmetry. cbn [forallb].
      repeat (rewrite (proj2 (Z.leb_le _ _)) by lia). reflexivity. }
  cbn [guard bind].
  rewrite !py_range_pos by lia. cbn [bind].
  rewrite !ceil_div_exact by (assumption || lia).
  set (nr := Z.to_nat oh). set (nc := Z.to_nat ow).
  set (rows := enumerate (map (fun i => Z.of_nat i * sh) (seq 0 nr))).
  set (cols := enumerate (map (fun i => Z.of_nat i * sw) (seq 0 nc))).
  set (step := fun (icol jrow : Z * Z) (d : ndarray) =>
                 updated (fun _ v => v) d (snd icol) ph (snd jrow) pw
                   (route_region max_pos grad N C ph pw (fst icol) (fst jrow))).
  set (Inv := fun d : ndarray => shape d = [N; PH; PW; C]).
  assert (Hinner : forall d icol, In icol rows -> Inv d ->
            foldM (fun d jrow =>
                     MaxPool2D.route_step max_pos grad N C ph pw
                       (fst icol) (snd icol) (fst jrow) (snd jrow) d) cols d
            = Ok (fold_left (fun d jrow => step icol jrow d) cols d)
            /\ Inv (fold_left (fun d jrow => step icol jrow d) cols d)).
  { intros d icol Hicol Hd. apply (@foldM_fold _ _ Inv); [|exact Hd].
    intros d' jrow Hjrow Hd'.
    apply in_enumerate_range in Hicol as (Hi & Hcol).
    apply in_enumerate_range in Hjrow as (Hj & Hrow).
    split; [|exact Hd']. unfold step. rewrite Hcol, Hrow.
    apply route_step_ok; [exact Hd' | unfold nr in Hi; lia | unfold nc in Hj; lia]. }
  destruct (@foldM_fold _ _ Inv
              (fun d icol =>
                 foldM (fun d jrow =>
                          MaxPool2D.route_step max_pos grad N C ph pw
                            (fst icol) (snd icol) (fst jrow) (snd jrow) d)
                       cols d)
              (fun d icol => fold_left (fun d jrow => step icol jrow d) cols d)
              rows (mkarray [N; PH; PW; C] (fun _ => 0)))
    as [-> Hshape]; [exact Hinner | reflexivity |].
  cbn [bind]. eexists. split; [reflexivity|]. split; [exact Hshape|].
  intros n Y X c (Hn & HY & HX & Hc & _).
  set (cov := fun (icol jrow : Z * Z) =>
                (snd icol <=? Y) && (Y <? snd icol + ph)
                && (snd jrow <=? X) && (X <? snd jrow + pw)).
  set (val := fun (icol jrow : Z * Z) =>
                get grad [n; fst icol; fst jrow; c]
                * (if (Y - snd icol) * pw + (X - snd jrow)
                      =? get max_pos [n; fst icol; fst jrow; c]
                   then 1 else 0)).
  assert (Hstep : forall d icol jrow, In icol rows -> In jrow cols ->
            get (step icol jrow d) [n; Y; X; c]
            = if cov icol jrow then val icol jrow else get d [n; Y; X; c]).
  { intros d [i col] [j row] Hicol Hjrow.
    apply in_enumerate_range in Hicol as (Hi & Hcol).
    apply in_enumerate_range in Hjrow as (Hj & Hrow).
    unfold step, cov, val. cbn [fst snd get updated] in *.
    destruct ((col <=? Y) && (Y <? col + ph) && (row <=? X) && (X <? row + pw))
      eqn:Hcond; [|reflexivity].
    apply andb_prop in Hcond as [Hcond H4].
    apply andb_prop in Hcond as [Hcond H3].
    apply andb_prop in Hcond as [H1 H2].
    apply Z.leb_le in H1, H3. apply Z.ltb_lt in H2, H4.
    change (shape (route_region max_pos grad N C ph pw i j))
      with [N; ph; pw; C].
    rewrite bcast_index_id by (cbn [in_bounds]; lia).
    apply route_region_value; [cbn [in_bounds]; unfold nr, nc in *; lia | lia | lia]. }
  set (j0 := Z.to_nat (X / sw)). set (i0 := Z.to_nat (Y / sh)).
  rewrite (@fold_left_overwrites _ _
             (fun icol => Nat.ltb j0 nc
                          && cov icol (Z.of_nat j0, Z.of_nat j0 * sw))
             (fun icol => val icol (Z.of_nat j0, Z.of_nat j0 * sw))).
  2:{ intros d icol Hicol.
      rewrite (@fold_left_overwrites _ _ (cov icol) (val icol))
        by (intros; apply Hstep; assumption).
      unfold cols. apply scan_unique.
      intros j Hj Hcj. unfold cov in Hcj. cbn [snd] in Hcj.
      apply andb_prop in Hcj as [Hcj H4]. apply andb_prop in Hcj as [_ H3].
      apply (@window_index_unique sw pw X j); [lia | lia |].
      rewrite H3, H4. reflexivity. }
  cbn [get]. unfold rows.
  rewrite (@scan_unique _ _ sh nr i0).
  2:{ intros i Hi Hci. apply andb_prop in Hci as [_ Hci].
      unfold cov in Hci. cbn [snd] in Hci.
      apply andb_prop in Hci as [Hci _]. apply andb_prop in Hci as [Hci _].
      apply (@window_index_unique sh ph Y i); [lia | lia | exact Hci]. }
  pose proof (Z.div_mod Y sh ltac:(lia)) as HdY.
  pose proof (Z.mod_pos_bound Y sh ltac:(lia)) as HmY.
  pose proof (Z.div_mod X sw ltac:(lia)) as HdX.
  pose proof (Z.mod_pos_bound X sw ltac:(lia)) as HmX.
  assert (HqY : 0 <= Y / sh < oh).
  { split; [apply Z.div_pos; lia|]. apply Z.div_lt_upper_bound; lia. }
  assert (HqX : 0 <= X / sw < ow).
  { split; [apply Z.div_pos; lia|]. apply Z.div_lt_upper_bound; lia. }
  rewrite (proj2 (Nat.ltb_lt i0 nr)) by (unfold i0, nr; lia).
  rewrite (proj2 (Nat.ltb_lt j0 nc)) by (unfold j0, nc; lia).
  unfold cov, val, i0, j0. cbn [fst snd andb]. rewrite !Z2Nat.id by lia.
  replace (Y - Y / sh * sh) with (Y mod sh) by lia.
  replace (X - X / sw * sw) with (X mod sw) by lia.
  destruct (Z.ltb_spec (Y mod sh) ph), (Z.ltb_spec (X mod sw) pw);
    cbn [andb];
    repeat match goal with
      | |- context [?a <=? ?b] => destruct (Z.leb_spec a b); try lia
      | |- context [?a <? ?b] => destruct (Z.ltb_spec a b); try lia
      end; cbn [andb]; reflexivity.
Qed.

End PoolCall.

Lemma pool_forward_needs_divisible_witness :
  raises (MaxPool2D.forward pool22_valid input_1_to_9)
  /\ exists y l1,
       MaxPool2D.forward pool22_valid input_1_to_4 = Ok (y, l1)
       /\ shape y = [1; (0 + 2 + 0) / 2; (0 + 2 + 0) / 2; 1].
Proof.
  split.
  - refine (proj2 (@pool_forward_needs_divisible pool22_valid input_1_to_9
              1 3 3 1 2 2 0 0 0 0 eq_refl _ eq_refl eq_refl) _).
    + lia.
    + left. vm_compute. lia.
  - destruct (@pool_forward_ok pool22_valid input_1_to_4 1 2 2 1 2 2 2 2
                0 0 0 0 eq_refl eq_refl eq_refl eq_refl
                ltac:(lia) ltac:(lia) ltac:(lia) ltac:(lia)
                ltac:(lia) ltac:(lia) eq_refl eq_refl)
      as (y & max_pos & Hf & _).
    exists y. eexists. split; [exact Hf|].
    refine (proj2 (proj2 (proj1 (@pool_forward_needs_divisible pool22_valid
              input_1_to_4 1 2 2 1 2 2 0 0 0 0 eq_refl _ eq_refl eq_refl)
              y _ Hf))).
    lia.
Defined.

Lemma div_mod_offset (i s a : Z) :
  0 <= a < s -> (i * s + a) / s = i /\ (i * s + a) mod s = a.
Proof.
  intros Ha. split.
  - symmetry. apply Z.div_unique with (r := a); lia.
  - symmetry. apply Z.mod_unique with (q := i); lia.
Qed.

(** C5 (as amended): on a layer whose pool is at most the stride on each
    axis, and an input on which [forward] returns (padded sizes multiples
    of the strides), [forward] and then [backward] on the all-ones
    gradient return; in every window, for every batch element
    and channel, the returned tensor holds 1 at the flat offset [m] of the
    first maximum of the window and 0 at the other cells, and it holds 0
    outside the windows.  [m] is a position of the maximum, every earlier
    cell is strictly smaller, and [m] is the position of the maximum when
    that is unique. *)
Theorem pool_backward_routes_to_first_max (l : MaxPool2D.t) (x : ndarray)
    (N H W C ph pw sh sw p0 p1 p2 p3 : Z) :
  shape x = [N; H; W; C] ->
  MaxPool2D.pool_size l = (ph, pw) ->
  MaxPool2D.stride l = (sh, sw) ->
  MaxPool2D._get_padding (H, W) (ph, pw) (sh, sw) (MaxPool2D.padding_mode l)
  = Ok (p0, p1, p2, p3) ->
  1 <= N -> 1 <= H -> 1 <= W -> 1 <= C ->
  1 <= ph <= sh -> 1 <= pw <= sw ->
  (p0 + H + p1) mod sh = 0 ->
  (p2 + W + p3) mod sw = 0 ->
  exists y l1 d_in l2,
    MaxPool2D.forward l x = Ok (y, l1)
    /\ MaxPool2D.backward l1 (np_ones (shape y)) = Ok (d_in, l2)
    /\ shape d_in = [N; p0 + H + p1; p2 + W + p3; C]
    /\ (forall n i j c,
          in_bounds [N; (p0 + H + p1) / sh; (p2 + W + p3) / sw; C]
                    [n; i; j; c] ->
          let f := window_value
                     (pad_constant x [N; p0 + H + p1; p2 + W + p3; C] H W p0 p2)
                     sh sw pw n i j c in
          let m := argmax_first f (Z.to_nat (ph * pw)) in
          0 <= m < ph * pw
          /\ (forall k, 0 <= k < ph * pw -> f k <= f m)
          /\ (forall k, 0 <= k < m -> f k < f m)
          /\ (forall k, 0 <= k < ph * pw ->
                (forall k', 0 <= k' < ph * pw -> k' <> k -> f k' < f k) ->
                m = k)
          /\ (forall a b, 0 <= a < ph -> 0 <= b < pw ->
                get d_in [n; i * sh + a; j * sw + b; c]
                = if a * pw + b =? m then 1 else 0))
    /\ (forall n Y X c,
          in_bounds [N; p0 + H + p1; p2 + W + p3; C] [n; Y; X; c] ->
          ph <= Y mod sh \/ pw <= X mod sw ->
          get d_in [n; Y; X; c] = 0).
Proof.
  intros Hx Hpool Hstride Hpad HN HH HW HC Hph Hpw Hdh Hdw.
  destruct (@pool_forward_ok l x N H W C ph pw sh sw p0 p1 p2 p3)
    as (y & max_pos & Hf & Hy & Hmp & Hmg); try assumption.
  assert (Hspec : forall n i j c,
            in_bounds [N; (p0 + H + p1) / sh; (p2 + W + p3) / sw; C]
                      [n; i; j; c] ->
            0 <= get max_pos [n; i; j; c] < ph * pw).
  { intros n i j c Hin. rewrite Hmg by exact Hin.
    pose proof (@argmax_first_spec
                  (window_value
                     (pad_constant x [N; p0 + H + p1; p2 + W + p3; C] H W p0 p2)
                     sh sw pw n i j c)
                  (Z.to_nat (ph * pw)) ltac:(nia)) as (Hb & _).
    lia. }
  destruct (@pool_backward_ok l N H W C ph pw sh sw p0 p1 p2 p3
              Hpad HN HH HW HC Hph Hpw Hdh Hdw
              (np_ones (shape y)) max_pos)
    as (d_in & Hbk & Hd & Hdg); try assumption.
  destruct (@pool_pads l H W ph pw sh sw p0 p1 p2 p3 Hpad Hph Hpw)
    as (Hp0 & Hp1 & Hp2 & Hp3).
  destruct (@pool_out_dims l H W ph pw sh sw p0 p1 p2 p3
              Hpad HH HW Hph Hpw Hdh Hdw)
    as (Hoh & How & HPH & HPW).
  exists y. eexists. exists d_in. eexists.
  split; [exact Hf|]. split; [exact Hbk|]. split; [exact Hd|]. split.
  - intros n i j c Hin f m.
    pose proof (@argmax_first_spec f (Z.to_nat (ph * pw)) ltac:(nia))
      as (Hb & Hmax & Hfirst).
    fold m in Hb, Hmax, Hfirst.
    split; [lia|]. split; [intros; apply Hmax; lia|].
    split; [exact Hfirst|]. split.
    + intros k Hk Huniq. destruct (Z.eq_dec m k) as [|Hne]; [assumption|].
      exfalso. specialize (Hmax k ltac:(lia)).
      specialize (Huniq m ltac:(lia) Hne). lia.
    + intros a b Ha Hb'. destruct Hin as (Hn & Hi & Hj & Hc & _).
      rewrite Hdg by (cbn [in_bounds]; nia).
      destruct (@div_mod_offset i sh a ltac:(lia)) as [-> ->].
      destruct (@div_mod_offset j sw b ltac:(lia)) as [-> ->].
      destruct (Z.ltb_spec a ph); [|lia]. destruct (Z.ltb_spec b pw); [|lia].
      cbn [andb get np_ones].
      rewrite Hmg by (cbn [in_bounds]; lia). fold f. fold m.
      destruct (a * pw + b =? m); reflexivity.
  - intros n Y X c Hin Hout. rewrite Hdg by exact Hin.
    destruct (Z.ltb_spec (Y mod sh) ph), (Z.ltb_spec (X mod sw) pw);
      cbn [andb]; try reflexivity. lia.
Qed.

Lemma pool_backward_routes_to_first_max_witness :
  exists y l1 d_in l2,
    MaxPool2D.forward pool22_valid input_1_to_16 = Ok (y, l1)
    /\ MaxPool2D.backward l1 (np_ones (shape y)) = Ok (d_in, l2)
    /\ shape d_in = [1; 0 + 4 + 0; 0 + 4 + 0; 1]
    /\ get d_in [0; 1; 1; 0] = 1
    /\ get d_in [0; 0; 0; 0] = 0.
Proof.
  destruct (@pool_backward_routes_to_first_max pool22_valid input_1_to_16
              1 4 4 1 2 2 2 2 0 0 0 0
              eq_refl eq_refl eq_refl eq_refl
              ltac:(lia) ltac:(lia) ltac:(lia) ltac:(lia)
              ltac:(lia) ltac:(lia) eq_refl eq_refl)
    as (y & l1 & d_in & l2 & Hf & Hb & Hs & Hwin & _).
  exists y, l1, d_in, l2.
  split; [exact Hf|]. split; [exact Hb|]. split; [exact Hs|].
  destruct (Hwin 0 0 0 0 ltac:(cbn; lia)) as (_ & _ & _ & _ & Hcell).
  split.
  - exact (Hcell 1 1 ltac:(lia) ltac:(lia)).
  - exact (Hcell 0 0 ltac:(lia) ltac:(lia)).
Defined.

(* ------------------------------------------------------------------ *)
(** ** Scatter-add is the adjoint of the patch gather *)

Lemma sumZ_add (F G : Z -> Z) (n : nat) :
  sumZ (fun i => F i + G i) n = sumZ F n + sumZ G n.
Proof. induction n as [|n IH]; cbn [sumZ]; lia. Qed.

Lemma sumZ_scale (k : Z) (F : Z -> Z) (n : nat) :
  k * sumZ F n = sumZ (fun i => k * F i) n.
Proof. induction n as [|n IH]; cbn [sumZ]; lia. Qed.

Lemma sumZ_swap (F : Z -> Z -> Z) (n m : nat) :
  sumZ (fun i => sumZ (fun j => F i j) m) n
  = sumZ (fun j => sumZ (fun i => F i j) n) m.
Proof.
  induction n as [|n IH]; cbn [sumZ].
  - symmetry. apply sumZ_zero. reflexivity.
  - rewrite IH, <- sumZ_add. reflexivity.
Qed.

Lemma sumZ_split (F : Z -> Z) (m n : nat) :
  sumZ F (m + n) = sumZ F m + sumZ (fun i => F (Z.of_nat m + i)) n.
Proof.
  induction n as [|n IH].
  - rewrite Nat.add_0_r. cbn [sumZ]. lia.
  - rewrite Nat.add_succ_r. cbn [sumZ]. rewrite IH, Nat2Z.inj_add. lia.
Qed.

(** A sum restricted to the window [o, o + k) is the sum over the
    offsets inside the window. *)
Lemma sumZ_window (G : Z -> Z) (o k : Z) (M : nat) :
  0 <= o -> 0 <= k -> o + k <= Z.of_nat M ->
  sumZ (fun Y => if (o <=? Y) && (Y <? o + k) then G Y else 0) M
  = sumZ (fun a => G (o + a)) (Z.to_nat k).
Proof.
  intros Ho Hk HM.
  replace M with (Z.to_nat o + (Z.to_nat k + (M - Z.to_nat o - Z.to_nat k)))%nat
    by lia.
  rewrite !sumZ_split.
  rewrite sumZ_zero.
  2:{ intros Y HY. destruct (Z.leb_spec o Y); [lia | reflexivity]. }
  rewrite (@sumZ_zero _ (M - Z.to_nat o - Z.to_nat k)).
  2:{ intros Y HY.
      destruct (Z.ltb_spec (Z.of_nat (Z.to_nat o)
                            + (Z.of_nat (Z.to_nat k) + Y)) (o + k)); [lia|].
      rewrite andb_false_r. reflexivity. }
  rewrite Z.add_0_l, Z.add_0_r. apply sumZ_ext. intros a Ha.
  rewrite Z2Nat.id by lia.
  destruct (Z.leb_spec o (o + a)); [|lia].
  destruct (Z.ltb_spec (o + a) (o + k)); [|lia]. reflexivity.
Qed.

(** Gathering the windows of [P] and pairing them with [D] gives the
    same number as pairing [P] with the scatter-add of [D]. *)
Lemma scatter_adjoint_of_gather (P : Z -> Z -> Z) (D : Z -> Z -> Z -> Z -> Z)
    (kh kw sh sw oh ow PH PW : Z) :
  0 <= kh -> 0 <= kw -> 0 <= sh -> 0 <= sw -> 0 <= PH -> 0 <= PW ->
  (forall i, 0 <= i < oh -> i * sh + kh <= PH) ->
  (forall j, 0 <= j < ow -> j * sw + kw <= PW) ->
  sumZ (fun i => sumZ (fun j => sumZ (fun a => sumZ (fun b =>
         P (i * sh + a) (j * sw + b) * D i j a b)
         (Z.to_nat kw)) (Z.to_nat kh)) (Z.to_nat ow)) (Z.to_nat oh)
  = sumZ (fun Y => sumZ (fun X =>
            P Y X
            * sumZ (fun i => sumZ (fun j =>
                 if (i * sh <=? Y) && (Y <? i * sh + kh)
                    && (j * sw <=? X) && (X <? j * sw + kw)
                 then D i j (Y - i * sh) (X - j * sw) else 0)
                 (Z.to_nat ow)) (Z.to_nat oh))
            (Z.to_nat PW)) (Z.to_nat PH).
Proof.
  intros Hkh Hkw Hsh Hsw HPH HPW Hfh Hfw. symmetry.
  set (T := fun i j Y X =>
              if (i * sh <=? Y) && (Y <? i * sh + kh)
                 && (j * sw <=? X) && (X <? j * sw + kw)
              then P Y X * D i j (Y - i * sh) (X - j * sw) else 0).
  transitivity
    (sumZ (fun Y => sumZ (fun X => sumZ (fun i => sumZ (fun j => T i j Y X)
       (Z.to_nat ow)) (Z.to_nat oh)) (Z.to_nat PW)) (Z.to_nat PH)).
  { apply sumZ_ext. intros Y _. apply sumZ_ext. intros X _.
    rewrite sumZ_scale. apply sumZ_ext. intros i _.
    rewrite sumZ_scale. apply sumZ_ext. intros j _.
    unfold T. destruct (_ && _); lia. }
  transitivity
    (sumZ (fun i => sumZ (fun j => sumZ (fun Y => sumZ (fun X => T i j Y X)
       (Z.to_nat PW)) (Z.to_nat PH)) (Z.to_nat ow)) (Z.to_nat oh)).
  { transitivity
      (sumZ (fun Y => sumZ (fun i => sumZ (fun j => sumZ (fun X => T i j Y X)
         (Z.to_nat PW)) (Z.to_nat ow)) (Z.to_nat oh)) (Z.to_nat PH)).
    { apply sumZ_ext. intros Y _.
      rewrite (sumZ_swap (fun X i => sumZ (fun j => T i j Y X) (Z.to_nat ow))).
      apply sumZ_ext. intros i _.
      apply (sumZ_swap (fun X j => T i j Y X)). }
    rewrite (sumZ_swap (fun Y i => sumZ (fun j => sumZ (fun X => T i j Y X)
               (Z.to_nat PW)) (Z.to_nat ow))).
    apply sumZ_ext. intros i _.
    apply (sumZ_swap (fun Y j => sumZ (fun X => T i j Y X) (Z.to_nat PW))). }
  apply sumZ_ext. intros i Hi. apply sumZ_ext. intros j Hj.
  assert (Hi0 : 0 <= i * sh) by nia. assert (Hj0 : 0 <= j * sw) by nia.
  transitivity
    (sumZ (fun Y =>
       if (i * sh <=? Y) && (Y <? i * sh + kh)
       then sumZ (fun X =>
              if (j * sw <=? X) && (X <? j * sw + kw)
              then P Y X * D i j (Y - i * sh) (X - j * sw) else 0)
              (Z.to_nat PW)
       else 0) (Z.to_nat PH)).
  { apply sumZ_ext. intros Y _. unfold T.
    destruct ((i * sh <=? Y) && (Y <? i * sh + kh)).
    - apply sumZ_ext. intros X _. rewrite <- andb_assoc. reflexivity.
    - apply sumZ_zero. intros X _. reflexivity. }
  rewrite (@sumZ_window
             (fun Y => sumZ (fun X =>
                if (j * sw <=? X) && (X <? j * sw + kw)
                then P Y X * D i j (Y - i * sh) (X - j * sw) else 0)
                (Z.to_nat PW)))
    by (try lia; specialize (Hfh i ltac:(lia)); lia).
  apply sumZ_ext. intros a Ha.
  rewrite (@sumZ_window
             (fun X => P (i * sh + a) X
                       * D i j (i * sh + a - i * sh) (X - j * sw)))
    by (try lia; specialize (Hfw j ltac:(lia)); lia).
  apply sumZ_ext. intros b Hb.
  replace (i * sh + a - i * sh) with a by lia.
  replace (j * sw + b - j * sw) with b by lia. reflexivity.
Qed.

(** C1: on an applicable call, [forward] and then [backward] on a
    gradient of the output shape return.  The rows of the cached patch
    matrix are the receptive fields gathered from the padded input.  The
    returned input-gradient has the shape (N, H, W, C) of the input and is
    the padded-size buffer cropped by the cached pad (top [p0], left [p2]);
    the buffer is the sum, over all output positions, of the slice of
    [grad @ W_matrix.T] of that position placed at its receptive field,
    and this scatter-add is the adjoint of the gather: pairing the
    gathered windows of any padded-size tensor with the patch gradients
    equals pairing the tensor with the buffer. *)
Theorem conv_backward_scatter_add (l : Conv2D.t) (x w b grad : ndarray)
    (N H W C kh kw oc sh sw p0 p1 p2 p3 : Z) :
  shape x = [N; H; W; C] ->
  Conv2D.kernel l = (kh, kw, C, oc) ->
  Conv2D.stride l = (sh, sw) ->
  Conv2D._get_padding (kh, kw) (Conv2D.padding_mode l)
  = Some (p0, p1, p2, p3) ->
  Conv2D.params_w (Conv2D.lazy_init l) = Some w ->
  Conv2D.params_b (Conv2D.lazy_init l) = Some b ->
  shape w = [kh; kw; C; oc] ->
  shape b = [oc] ->
  1 <= N -> 1 <= H -> 1 <= W -> 1 <= C ->
  1 <= kh -> 1 <= kw -> 1 <= oc -> 1 <= sh -> 1 <= sw ->
  kh <= p0 + H + p1 ->
  kw <= p2 + W + p3 ->
  shape grad
  = [N; (p0 + H + p1 - kh) / sh + 1; (p2 + W + p3 - kw) / sw + 1; oc] ->
  exists y l1 c1 d_in l2,
    Conv2D.forward l x = Ok (y, l1)
    /\ shape y = shape grad
    /\ Conv2D.cache l1 = Some c1
    /\ Conv2D.c_pad c1 = (p0, p1, p2, p3)
    /\ (forall n i j a b' c,
          in_bounds [N; (p0 + H + p1 - kh) / sh + 1;
                     (p2 + W + p3 - kw) / sw + 1] [n; i; j] ->
          in_bounds [kh; kw; C] [a; b'; c] ->
          get (Conv2D.c_X_matrix c1)
              [ravel [N; (p0 + H + p1 - kh) / sh + 1;
                      (p2 + W + p3 - kw) / sw + 1] [n; i; j];
               ravel [kh; kw; C] [a; b'; c]]
          = get (pad_edge x [N; p0 + H + p1; p2 + W + p3; C] H W p0 p2)
                [n; i * sh + a; j * sw + b'; c])
    /\ Conv2D.backward l1 grad = Ok (d_in, l2)
    /\ shape d_in = [N; H; W; C]
    /\ (forall n y' x' c, in_bounds [N; H; W; C] [n; y'; x'; c] ->
          get d_in [n; y'; x'; c]
          = scatter_buffer grad w kh kw oc sh sw
              ((p0 + H + p1 - kh) / sh + 1) ((p2 + W + p3 - kw) / sw + 1)
              n (p0 + y') (p2 + x') c)
    /\ (forall (P : ndarray) n c,
          sumZ (fun i => sumZ (fun j => sumZ (fun a => sumZ (fun b' =>
                 get P [n; i * sh + a; j * sw + b'; c]
                 * patch_grad grad w oc n i j a b' c)
                 (Z.to_nat kw)) (Z.to_nat kh))
                 (Z.to_nat ((p2 + W + p3 - kw) / sw + 1)))
                 (Z.to_nat ((p0 + H + p1 - kh) / sh + 1))
          = sumZ (fun Y => sumZ (fun X =>
                    get P [n; Y; X; c]
                    * scatter_buffer grad w kh kw oc sh sw
                        ((p0 + H + p1 - kh) / sh + 1)
                        ((p2 + W + p3 - kw) / sw + 1) n Y X c)
                    (Z.to_nat (p2 + W + p3))) (Z.to_nat (p0 + H + p1))).
Proof.
  intros Hx Hk Hs Hpad Hw Hb Hws Hbs HN HH HW HC Hkh Hkw Hoc Hsh Hsw
         Hfh Hfw Hg.
  destruct (@conv_forward_then_backward l x w b N H W C kh kw oc sh sw
              p0 p1 p2 p3 Hx Hk Hs Hpad Hw Hb Hws Hbs HN HH HW HC Hkh Hkw
              Hoc Hsh Hsw Hfh Hfw grad Hg)
    as (y & l1 & c1 & d_in & l2 & Hf & Hy & Hc & Hcp & HX & Hbk & Hd & Hdg).
  exists y, l1, c1, d_in, l2.
  split; [exact Hf|]. split; [congruence|]. split; [exact Hc|].
  split; [exact Hcp|]. split; [exact HX|]. split; [exact Hbk|].
  split; [exact Hd|]. split; [exact Hdg|].
  intros P n c. unfold scatter_buffer, scatter_term.
  apply (@scatter_adjoint_of_gather
           (fun Y X => get P [n; Y; X; c])
           (fun i j a b' => patch_grad grad w oc n i j a b' c));
    try lia.
  - intros i Hi.
    pose proof (Z.mul_div_le (p0 + H + p1 - kh) sh ltac:(lia)).
    assert (i <= (p0 + H + p1 - kh) / sh) by lia. nia.
  - intros j Hj.
    pose proof (Z.mul_div_le (p2 + W + p3 - kw) sw ltac:(lia)).
    assert (j <= (p2 + W + p3 - kw) / sw) by lia. nia.
Qed.

Lemma conv_backward_scatter_add_witness :
  exists y l1 c1 d_in l2,
    Conv2D.forward top_left_conv_same input_1_to_9 = Ok (y, l1)
    /\ shape y = [1; 3; 3; 1]
    /\ Conv2D.cache l1 = Some c1
    /\ Conv2D.backward l1 (np_ones [1; 3; 3; 1]) = Ok (d_in, l2)
    /\ shape d_in = [1; 3; 3; 1].
Proof.
  destruct (@conv_backward_scatter_add top_left_conv_same input_1_to_9
              top_left_kernel (zeros_init 1) (np_ones [1; 3; 3; 1])
              1 3 3 1 2 2 1 1 1 0 1 0 1
              eq_refl eq_refl eq_refl eq_refl eq_refl eq_refl eq_refl eq_refl
              ltac:(lia) ltac:(lia) ltac:(lia) ltac:(lia) ltac:(lia)
              ltac:(lia) ltac:(lia) ltac:(lia) ltac:(lia) ltac:(lia)
              ltac:(lia) eq_refl)
    as (y & l1 & c1 & d_in & l2 & Hf & Hy & Hc & _ & _ & Hb & Hd & _).
  exists y, l1, c1, d_in, l2.
  split; [exact Hf|]. split; [exact Hy|]. split; [exact Hc|].
  split; [exact Hb | exact Hd].
Defined.

(* ------------------------------------------------------------------ *)
(** ** Overlapping windows make the pooling backward pass raise *)

Lemma foldM_steps_ok {A S : Type} (Inv : S -> Prop) (f : S -> A -> result S)
    (xs : list A) (s r : S) :
  foldM f xs s = Ok r -> Inv s ->
  (forall s x s', Inv s -> f s x = Ok s' -> Inv s') ->
  Inv r /\ forall x, In x xs -> exists s1 s2, Inv s1 /\ f s1 x = Ok s2.
Proof.
  intros Hf Hs Hpres. revert s Hf Hs.
  induction xs as [|x xs IH]; cbn [foldM]; intros s Hf Hs.
  - injection Hf as <-. split; [exact Hs | intros ? []].
  - apply bind_ok_inv in Hf as (s' & Hx & Hf).
    destruct (IH s' Hf (Hpres _ _ _ Hs Hx)) as [Hr Hall].
    split; [exact Hr|]. intros x' [<-|Hin]; [eauto | auto].
Qed.

Lemma enumerate_range_in (s : Z) (n k : nat) :
  (k < n)%nat ->
  In (Z.of_nat k, Z.of_nat k * s)
     (enumerate (map (fun i => Z.of_nat i * s) (seq 0 n))).
Proof.
  intros Hk. rewrite enumerate_map.
  apply (in_map (fun i => (Z.of_nat i, Z.of_nat i * s))).
  apply in_seq. lia.
Qed.

Lemma route_step_inv (max_pos grad d d' : ndarray)
    (N C ph pw PH PW i col j row : Z) :
  0 <= N -> 0 <= C -> 0 <= ph -> 0 <= pw ->
  shape d = [N; PH; PW; C] ->
  MaxPool2D.route_step max_pos grad N C ph pw i col j row d = Ok d' ->
  shape d' = [N; PH; PW; C]
  /\ broadcastable_to [N; ph; pw; C]
       [N; snd (slice_bounds PH col (col + ph));
        snd (slice_bounds PW row (row + pw)); C] = true.
Proof.
  intros HN HC Hph Hpw Hd. unfold MaxPool2D.route_step. intros H.
  apply bind_ok_inv in H as (a1 & _ & H).
  apply bind_ok_inv in H as (a2 & _ & H).
  apply bind_ok_inv in H as (a3 & _ & H).
  apply bind_ok_inv in H as (a4 & _ & H).
  apply bind_ok_inv in H as (a5 & _ & H).
  apply bind_ok_inv in H as (a6 & _ & H).
  apply bind_ok_inv in H as (a7 & _ & H).
  apply bind_ok_inv in H as (region & Hr & H).
  apply reshape_inv in Hr as (sh' & Hi & _ & ->).
  rewrite infer_shape_plain in Hi by (repeat constructor; lia).
  injection Hi as <-.
  unfold assign_slice_hw, update_slice_hw in H. rewrite Hd in H.
  destruct (slice_bounds PH col (col + ph)) as [lo1 n1].
  destruct (slice_bounds PW row (row + pw)) as [lo2 n2].
  apply bind_ok_inv in H as (u & Hg & H). apply guard_ok_inv in Hg.
  injection H as <-. cbn [shape updated reshaped snd] in *. auto.
Qed.

Lemma broadcast_block_fits (N C p q n1 n2 : Z) :
  broadcastable_to [N; p; q; C] [N; n1; n2; C] = true ->
  (p = n1 \/ p = 1) /\ (q = n2 \/ q = 1).
Proof.
  unfold broadcastable_to. cbn [List.length Nat.leb Nat.sub skipn combine
                                forallb fst snd andb].
  intros H. apply andb_prop in H as [_ H].
  apply andb_prop in H as [Hp H]. apply andb_prop in H as [Hq _].
  apply orb_prop in Hp. apply orb_prop in Hq.
  split; [destruct Hp as [Hp|Hp] | destruct Hq as [Hq|Hq]];
    apply Z.eqb_eq in Hp || apply Z.eqb_eq in Hq; auto.
Qed.

Lemma last_window_cut (P s p : Z) :
  0 < s -> 0 < p -> s <= P ->
  snd (slice_bounds P (P - s) (P - s + p)) = Z.min p s.
Proof.
  intros Hs Hp HP. unfold slice_bounds, slice_norm. cbn [snd].
  destruct (Z.ltb_spec (P - s) 0); [lia|].
  destruct (Z.ltb_spec (P - s + p) 0); lia.
Qed.

(** When [forward] and then [backward] both return, no pooling window is
    larger than its stride: with a larger pool the block of the last
    window is cut off by the border and the block assignment raises. *)
Lemma pool_backward_needs_disjoint_windows (l l1 l2 : MaxPool2D.t)
    (x y grad d_in : ndarray) (N H W C ph pw sh sw p0 p1 p2 p3 : Z) :
  shape x = [N; H; W; C] ->
  0 <= N /\ 0 <= H /\ 0 <= W /\ 0 <= C ->
  MaxPool2D.pool_size l = (ph, pw) ->
  1 <= ph -> 1 <= pw ->
  MaxPool2D.stride l = (sh, sw) ->
  MaxPool2D._get_padding (H, W) (ph, pw) (sh, sw) (MaxPool2D.padding_mode l)
  = Ok (p0, p1, p2, p3) ->
  MaxPool2D.forward l x = Ok (y, l1) ->
  MaxPool2D.backward l1 grad = Ok (d_in, l2) ->
  ph <= sh /\ pw <= sw.
Proof.
  intros Hx Hdims Hpool Hph Hpw Hstride Hpad Hf Hb.
  rewrite <- Hpool in Hpad.
  destruct (@pool_forward_inv l x N H W C sh sw p0 p1 p2 p3
              Hx Hdims Hstride Hpad y l1 Hf)
    as (Hsh & Hsw & Hdh & Hdw & _ & (max_pos & ->) & HPH & HPW).
  rewrite Hpool in *.
  destruct Hdims as (HN & HH & HW & HC).
  assert (Hpads : 0 <= p0 /\ 0 <= p1 /\ 0 <= p2 /\ 0 <= p3).
  { eapply pool_padding_nonneg; [| |exact Hpad]; cbn [fst snd]; lia. }
  unfold MaxPool2D.backward in Hb.
  cbn [MaxPool2D.cache MaxPool2D.c_in_n MaxPool2D.c_in_img_size
       MaxPool2D.c_stride MaxPool2D.c_pad MaxPool2D.c_pool
       MaxPool2D.c_max_pos] in Hb.
  apply bind_ok_inv in Hb as (d0 & Hd0 & Hb).
  unfold np_zeros in Hd0. apply bind_ok_inv in Hd0 as (u & _ & Hd0).
  injection Hd0 as <-.
  apply bind_ok_inv in Hb as (rows & Hrows & Hb).
  apply bind_ok_inv in Hb as (d & Hfold & _).
  rewrite py_range_pos in Hrows by lia. injection Hrows as <-.
  rewrite ceil_div_exact in Hfold by assumption.
  set (Inv := fun a : ndarray => shape a = [N; p0 + H + p1; p2 + W + p3; C]).
  assert (Hq1 : 1 <= (p0 + H + p1) / sh /\ (p0 + H + p1) / sh * sh = p0 + H + p1).
  { pose proof (Z.div_mod (p0 + H + p1) sh ltac:(lia)) as E.
    rewrite Hdh in E. split; nia. }
  assert (Hq2 : 1 <= (p2 + W + p3) / sw /\ (p2 + W + p3) / sw * sw = p2 + W + p3).
  { pose proof (Z.div_mod (p2 + W + p3) sw ltac:(lia)) as E.
    rewrite Hdw in E. split; nia. }
  assert (Hinner_pres : forall icol a jrow a',
            Inv a ->
            MaxPool2D.route_step max_pos grad N C ph pw (fst icol) (snd icol)
              (fst jrow) (snd jrow) a = Ok a' -> Inv a').
  { intros icol a jrow a' Ha Hstep.
    eapply route_step_inv in Hstep as [Hs' _]; eauto; lia. }
  destruct (@foldM_steps_ok _ _ Inv _ _ _ _ Hfold eq_refl) as [_ Hsteps].
  { intros a icol a' Ha Hrow.
    apply bind_ok_inv in Hrow as (cols & _ & Hrow).
    destruct (@foldM_steps_ok _ _ Inv _ _ _ _ Hrow Ha) as [Hr _];
      [|exact Hr].
    intros a1 jrow a2. apply Hinner_pres. }
  (* the last window of the last row of windows *)
  set (i := Z.to_nat ((p0 + H + p1) / sh - 1)).
  set (j := Z.to_nat ((p2 + W + p3) / sw - 1)).
  destruct (Hsteps (Z.of_nat i, Z.of_nat i * sh)) as (a1 & a2 & Ha1 & Hrow).
  { apply enumerate_range_in. unfold i. lia. }
  cbn [fst snd] in Hrow.
  rewrite py_range_pos in Hrow by lia. cbn [bind] in Hrow.
  rewrite ceil_div_exact in Hrow by assumption.
  destruct (@foldM_steps_ok _ _ Inv _ _ _ _ Hrow Ha1) as [_ Hcells].
  { intros a jrow a'. apply (Hinner_pres (Z.of_nat i, Z.of_nat i * sh)). }
  destruct (Hcells (Z.of_nat j, Z.of_nat j * sw)) as (a3 & a4 & Ha3 & Hstep).
  { apply enumerate_range_in. unfold j. lia. }
  cbn [fst snd] in Hstep.
  eapply route_step_inv in Hstep as [_ Hfit]; eauto; try lia.
  apply broadcast_block_fits in Hfit as [Hp Hq].
  replace (Z.of_nat i * sh) with (p0 + H + p1 - sh) in Hp
    by (unfold i; rewrite Z2Nat.id by lia; lia).
  replace (Z.of_nat j * sw) with (p2 + W + p3 - sw) in Hq
    by (unfold j; rewrite Z2Nat.id by lia; lia).
  assert (sh <= p0 + H + p1) by nia.
  assert (sw <= p2 + W + p3) by nia.
  rewrite last_window_cut in Hp, Hq by lia.
  lia.
Qed.

(** C5 (counterexample): a pooling layer with 3x3 windows and
    stride 2, as the constructor builds it, on the 4x4 input 1..16.  The
    entries are pairwise different, so every window has a unique
    maximum; [forward] returns the maxima [[11, 12], [15, 16]], and
    [backward] on the all-ones gradient raises instead of returning a
    tensor: the windows overlap and the block of the last one is cut off
    at the border. *)
Lemma pool_backward_unique_maxima_overlap_raises :
  MaxPool2D.__init__ (3, 3) (2, 2) "VALID"
  = Ok (MaxPool2D.mk (3, 3) (2, 2) "VALID" None)
  /\ (forall Y X, 0 <= Y < 4 -> 0 <= X < 4 ->
        get input_1_to_16 [0; Y; X; 0] = 4 * Y + X + 1)
  /\ exists y l1,
       MaxPool2D.forward (MaxPool2D.mk (3, 3) (2, 2) "VALID" None)
                         input_1_to_16 = Ok (y, l1)
       /\ shape y = [1; 2; 2; 1]
       /\ tolist4 y = [[[[11]; [12]]; [[15]; [16]]]]
       /\ raises (MaxPool2D.backward l1 (np_ones (shape y)))
       /\ ~ (exists d_in l2,
               MaxPool2D.backward l1 (np_ones (shape y)) = Ok (d_in, l2)).
Proof.
  split; [reflexivity|]. split.
  - intros Y X HY HX.
    assert (EY : Y = 0 \/ Y = 1 \/ Y = 2 \/ Y = 3) by lia.
    assert (EX : X = 0 \/ X = 1 \/ X = 2 \/ X = 3) by lia.
    destruct EY as [->|[->|[->| ->]]], EX as [->|[->|[->| ->]]];
      reflexivity.
  - assert (Hobs : observe (MaxPool2D.forward
                              (MaxPool2D.mk (3, 3) (2, 2) "VALID" None)
                              input_1_to_16)
                   = Ok ([1; 2; 2; 1], [[[[11]; [12]]; [[15]; [16]]]]))
      by (vm_compute; reflexivity).
    destruct (MaxPool2D.forward (MaxPool2D.mk (3, 3) (2, 2) "VALID" None)
                input_1_to_16) as [[y l1]|e] eqn:Hf;
      [|cbn in Hobs; discriminate Hobs].
    cbn [observe] in Hobs. injection Hobs as Hsh Hval.
    assert (Hno : forall d_in l2,
              MaxPool2D.backward l1 (np_ones (shape y)) <> Ok (d_in, l2)).
    { intros d_in l2 Hb.
      pose proof (@pool_backward_needs_disjoint_windows
                    (MaxPool2D.mk (3, 3) (2, 2) "VALID" None) l1 l2
                    input_1_to_16 y (np_ones (shape y)) d_in
                    1 4 4 1 3 3 2 2 0 0 0 0
                    eq_refl ltac:(lia) eq_refl ltac:(lia) ltac:(lia)
                    eq_refl eq_refl Hf Hb) as [Hh _].
      lia. }
    exists y, l1. split; [reflexivity|]. split; [exact Hsh|].
    split; [exact Hval|]. split.
    + destruct (MaxPool2D.backward l1 (np_ones (shape y)))
        as [[d_in l2]|e] eqn:Hb.
      * exfalso. exact (Hno d_in l2 eq_refl).
      * exists e. reflexivity.
    + intros (d_in & l2 & Hb). exact (Hno d_in l2 Hb).
Qed.

(* ------------------------------------------------------------------ *)
(** ** The values computed by the convolution *)

Lemma sumZ_prod2 (F : Z -> Z) (n m : nat) :
  sumZ F (n * m)
  = sumZ (fun i => sumZ (fun j => F (i * Z.of_nat m + j)) m) n.
Proof.
  induction n as [|n IH]; [reflexivity|].
  rewrite Nat.mul_succ_l, sumZ_split, IH. cbn [sumZ]. f_equal.
  apply sumZ_ext. intros j _. rewrite Nat2Z.inj_mul. reflexivity.
Qed.

Lemma sumZ_ravel3 (F : Z -> Z) (d1 d2 d3 : Z) :
  0 <= d1 -> 0 <= d2 -> 0 <= d3 ->
  sumZ F (Z.to_nat (prod [d1; d2; d3]))
  = sumZ (fun a => sumZ (fun b => sumZ (fun c =>
      F (ravel [d1; d2; d3] [a; b; c]))
      (Z.to_nat d3)) (Z.to_nat d2)) (Z.to_nat d1).
Proof.
  intros H1 H2 H3.
  replace (Z.to_nat (prod [d1; d2; d3]))
    with (Z.to_nat d1 * (Z.to_nat d2 * Z.to_nat d3))%nat
    by (unfold prod, fold_right; lia).
  rewrite sumZ_prod2. apply sumZ_ext. intros a Ha.
  rewrite sumZ_prod2. apply sumZ_ext. intros b Hb.
  apply sumZ_ext. intros c Hc. f_equal.
  cbn [ravel]. unfold prod, fold_right. lia.
Qed.

Section ConvValues.

Variables (l : Conv2D.t) (x w b : ndarray).
Variables (N H W C kh kw oc sh sw p0 p1 p2 p3 : Z).

Hypothesis Hx : shape x = [N; H; W; C].
Hypothesis Hkernel : Conv2D.kernel l = (kh, kw, C, oc).
Hypothesis Hstride : Conv2D.stride l = (sh, sw).
Hypothesis Hpad :
  Conv2D._get_padding (kh, kw) (Conv2D.padding_mode l) = Some (p0, p1, p2, p3).
Hypothesis Hw : Conv2D.params_w (Conv2D.lazy_init l) = Some w.
Hypothesis Hb : Conv2D.params_b (Conv2D.lazy_init l) = Some b.
Hypothesis Hwshape : shape w = [kh; kw; C; oc].
Hypothesis Hbshape : shape b = [oc].
Hypothesis HN : 1 <= N.
Hypothesis HH : 1 <= H.
Hypothesis HW : 1 <= W.
Hypothesis HC : 1 <= C.
Hypothesis Hkh : 1 <= kh.
Hypothesis Hkw : 1 <= kw.
Hypothesis Hoc : 1 <= oc.
Hypothesis Hsh : 1 <= sh.
Hypothesis Hsw : 1 <= sw.
Hypothesis Hfit_h : kh <= p0 + H + p1.
Hypothesis Hfit_w : kw <= p2 + W + p3.

Local Abbreviation PH := (p0 + H + p1).
Local Abbreviation PW := (p2 + W + p3).
Local Abbreviation oh := ((p0 + H + p1 - kh) / sh + 1).
Local Abbreviation ow := ((p2 + W + p3 - kw) / sw + 1).
Local Abbreviation K := (prod [kh; kw; C]).

Lemma conv_forward_full :
  exists y X Wm,
    Conv2D.forward l x
    = Ok (y, Conv2D.set_cache (Conv2D.lazy_init l)
               (Conv2D.mkcache N (H, W, C) (kh, kw, C) (sh, sw)
                  (p0, p1, p2, p3) (PH, PW, C) (oh, ow, oc) X Wm))
    /\ shape y = [N; oh; ow; oc]
    /\ shape X = [N * oh * ow; K]
    /\ shape Wm = [K; oc]
    /\ (forall a b c o, in_bounds [kh; kw; C; oc] [a; b; c; o] ->
          get Wm [ravel [kh; kw; C] [a; b; c]; o] = get w [a; b; c; o])
    /\ (forall n i j a b c,
          in_bounds [N; oh; ow] [n; i; j] -> in_bounds [kh; kw; C] [a; b; c] ->
          get X [ravel [N; oh; ow] [n; i; j]; ravel [kh; kw; C] [a; b; c]]
          = get (pad_edge x [N; PH; PW; C] H W p0 p2)
                [n; i * sh + a; j * sw + b; c])
    /\ (forall n i j o, in_bounds [N; oh; ow; oc] [n; i; j; o] ->
          get y [n; i; j; o]
          = sumZ (fun t => get X [ravel [N; oh; ow] [n; i; j]; t]
                           * get Wm [t; o]) (Z.to_nat K)
            + get b [o]).
Proof.
  destruct (conv_pad_nonneg l Hpad Hkh Hkw) as (Hp0 & Hp1 & Hp2 & Hp3).
  destruct (lazy_init_fields l Hkernel Hstride) as (Hk' & Hs' & Hm').
  destruct (out_dims_pos H W p0 p1 p2 p3 HC Hkh Hkw Hsh Hsw Hfit_h Hfit_w)
    as (Hoh & How & HK).
  unfold Conv2D.forward. cbv zeta.
  rewrite Hk', Hs', Hm', Hpad.
  rewrite (@np_pad_edge_ok x N H W C) by auto.
  set (padded := pad_edge x _ H W p0 p2).
  assert (Hps : shape padded = [N; PH; PW; C]) by reflexivity.
  cbn [bind]. rewrite Hx, Hps.
  rewrite !int_div_plus_one_ok by lia. cbn [bind].
  rewrite Hw. cbn [Conv2D.lookup bind]. rewrite Hwshape. cbn [firstn].
  rewrite !py_range_pos by lia. cbn [bind].
  rewrite !range_count by lia.
  set (nr := Z.to_nat oh). set (nc := Z.to_nat ow).
  set (g := fun i j : nat =>
              reshaped (window padded [N; kh; kw; C]
                          (Z.of_nat i * sh) (Z.of_nat j * sw)) [N; K]).
  rewrite (@mapM_map _ _ _
     (fun row => map (fun col => reshaped (window padded [N; kh; kw; C] row col) [N; K])
                     (map (fun i => Z.of_nat i * sw) (seq 0 nc)))).
  2:{ intros row Hrow. apply in_map_iff in Hrow as (i & <- & Hi).
      apply in_seq in Hi.
      apply mapM_map. intros col Hcol.
      apply in_map_iff in Hcol as (j & <- & Hj). apply in_seq in Hj.
      pose proof (@range_elem_bound (PH - kh) sh i ltac:(lia) ltac:(lia) ltac:(lia)).
      pose proof (@range_elem_bound (PW - kw) sw j ltac:(lia) ltac:(lia) ltac:(lia)).
      apply (patch_at_ok H W p0 p1 p2 p3 HC Hkh Hkw Hsh Hsw Hfit_h Hfit_w);
        auto; lia. }
  cbn [bind]. rewrite map_map.
  replace (map _ (seq 0 nr)) with (map (fun i => map (g i) (seq 0 nc)) (seq 0 nr)).
  2:{ apply map_ext. intros i. rewrite map_map. reflexivity. }
  destruct (@np_asarray2_grid g nr nc [N; K]) as (P4 & -> & HP4s & HP4g);
    [lia | lia | reflexivity |].
  cbn [bind].
  rewrite transpose_ok by (unfold ndim; rewrite HP4s; reflexivity).
  cbn [bind]. unfold transposed, ndim. rewrite HP4s.
  cbn [map nth List.length seq position Nat.eqb].
  set (T := mkarray _ _).
  assert (HsT : size T = (N * oh * ow) * K).
  { unfold size, T, shape, nr, nc. unfold prod at 1. unfold fold_right at 1. lia. }
  rewrite reshape_infer_first; rewrite ?HsT, ?Z.div_mul, ?Z.mod_mul; try lia.
  cbn [bind].
  assert (Hsw' : size w = K * oc).
  { unfold size. rewrite Hwshape. unfold prod, fold_right. lia. }
  rewrite reshape_infer_last; rewrite ?Hsw', ?(Z.mul_comm K oc), ?Z.div_mul, ?Z.mod_mul; try lia.
  cbn [bind].
  unfold matmul. cbn [shape reshaped rev app]. rewrite Z.eqb_refl. cbn [guard bind].
  set (XW := mkarray _ _).
  rewrite reshape_plain.
  2:{ repeat constructor; lia. }
  2:{ unfold size, XW, shape, prod, fold_right. lia. }
  cbn [bind Conv2D.set_cache Conv2D.params_b]. rewrite Hb. cbn [Conv2D.lookup bind].
  unfold iadd. rewrite Hbshape. cbn [shape reshaped].
  replace (broadcastable_to [oc] [N; oh; ow; oc]) with true.
  2:{ unfold broadcastable_to. cbn. rewrite Z.eqb_refl. reflexivity. }
  cbn [guard bind].
  eexists _, _, _. split; [reflexivity|].
  split; [reflexivity|]. split; [reflexivity|]. split; [reflexivity|].
  split; [|split].
  - intros a0 b0 c0 o Hin. cbn [get reshaped].
    rewrite Hwshape.
    replace (ravel [K; oc] [ravel [kh; kw; C] [a0; b0; c0]; o])
      with (ravel [kh; kw; C; oc] [a0; b0; c0; o])
      by (cbn [ravel]; unfold prod, fold_right; ring).
    rewrite unravel_ravel by exact Hin. reflexivity.
  - intros n i j a0 b0 c0 Hnij Habc. cbn [get reshaped].
    pose proof (ravel_bound _ _ Habc) as Hf.
    set (f := ravel [kh; kw; C] [a0; b0; c0]) in *.
    destruct Hnij as (Hn & Hi & Hj & _).
    assert (Hnr : Z.of_nat nr = oh) by (unfold nr; lia).
    assert (Hnc : Z.of_nat nc = ow) by (unfold nc; lia).
    unfold T at 2. cbn [shape]. rewrite Hnr, Hnc.
    replace (ravel [N * oh * ow; K] [ravel [N; oh; ow] [n; i; j]; f])
      with (ravel [N; oh; ow; K] [n; i; j; f])
      by (cbn [ravel]; unfold prod, fold_right; ring).
    rewrite unravel_ravel by (cbn [in_bounds]; tauto).
    unfold T. cbn [get nth].
    rewrite <- (Z2Nat.id i), <- (Z2Nat.id j) at 1 by lia.
    rewrite HP4g by (unfold nr, nc; lia).
    unfold g. cbn [get reshaped shape window]. rewrite !Z2Nat.id by lia.
    replace (ravel [N; K] [n; f])
      with (ravel [N; kh; kw; C] [n; a0; b0; c0])
      by (unfold f; cbn [ravel]; unfold prod, fold_right; ring).
    rewrite unravel_ravel by (cbn [in_bounds] in *; tauto).
    reflexivity.
  - intros n i j o Hin.
    assert (Hin3 : in_bounds [N; oh; ow] [n; i; j])
      by (cbn [in_bounds] in *; tauto).
    pose proof (ravel_bound _ _ Hin3) as Hr.
    set (r := ravel [N; oh; ow] [n; i; j]) in *.
    assert (Hprod3 : prod [N; oh; ow] = N * oh * ow)
      by (unfold prod, fold_right; lia).
    destruct Hin as (Hn & Hi & Hj & Ho & _).
    cbn [get]. f_equal.
    + unfold reshaped at 1. cbn [get]. unfold XW at 2. cbn [shape].
      replace (ravel [N; oh; ow; oc] [n; i; j; o])
        with (ravel [N * oh * ow; oc] [r; o])
        by (unfold r; cbn [ravel]; unfold prod, fold_right; ring).
      rewrite unravel_ravel by (cbn [in_bounds]; lia).
      unfold XW. cbn [get removelast last app]. reflexivity.
    + f_equal. unfold bcast_index. cbn [List.length Nat.sub skipn combine map fst snd].
      destruct (Z.eqb_spec oc 1); [f_equal; lia | reflexivity].
Qed.

Variable grad : ndarray.
Hypothesis Hgrad : shape grad = [N; oh; ow; oc].

Lemma conv_backward_full (X Wm : ndarray) :
  shape X = [N * oh * ow; K] ->
  shape Wm = [K; oc] ->
  (forall a b c o, in_bounds [kh; kw; C; oc] [a; b; c; o] ->
          get Wm [ravel [kh; kw; C] [a; b; c]; o] = get w [a; b; c; o]) ->
  exists d_in gw gb,
    Conv2D.backward
      (Conv2D.set_cache (Conv2D.lazy_init l)
         (Conv2D.mkcache N (H, W, C) (kh, kw, C) (sh, sw)
            (p0, p1, p2, p3) (PH, PW, C) (oh, ow, oc) X Wm)) grad
    = Ok (d_in,
          Conv2D.set_grads
            (Conv2D.set_cache (Conv2D.lazy_init l)
               (Conv2D.mkcache N (H, W, C) (kh, kw, C) (sh, sw)
                  (p0, p1, p2, p3) (PH, PW, C) (oh, ow, oc) X Wm))
            gw gb)
    /\ shape d_in = [N; H; W; C]
    /\ shape gw = [kh; kw; C; oc]
    /\ shape gb = [oc]
    /\ (forall a b c o, in_bounds [kh; kw; C; oc] [a; b; c; o] ->
          get gw [a; b; c; o]
          = sumZ (fun n => sumZ (fun i => sumZ (fun j =>
              get X [ravel [N; oh; ow] [n; i; j]; ravel [kh; kw; C] [a; b; c]]
              * get grad [n; i; j; o])
              (Z.to_nat ow)) (Z.to_nat oh)) (Z.to_nat N))
    /\ (forall o,
          get gb [o]
          = sumZ (fun n => sumZ (fun i => sumZ (fun j =>
              get grad [n; i; j; o])
              (Z.to_nat ow)) (Z.to_nat oh)) (Z.to_nat N)).
Proof.
  intros HX HWm HWg.
  destruct (conv_pad_nonneg l Hpad Hkh Hkw) as (Hp0 & Hp1 & Hp2 & Hp3).
  destruct (out_dims_pos H W p0 p1 p2 p3 HC Hkh Hkw Hsh Hsw Hfit_h Hfit_w)
    as (Hoh & How & HK).
  unfold Conv2D.backward.
  cbn [Conv2D.cache Conv2D.set_cache Conv2D.c_in_n Conv2D.c_in_img_size
       Conv2D.c_kernel_size Conv2D.c_stride Conv2D.c_pad
       Conv2D.c_pad_img_size Conv2D.c_out_img_size Conv2D.c_X_matrix
       Conv2D.c_W_matrix Conv2D.params_w].
  unfold np_T.
  rewrite !transpose_ok by (unfold ndim; rewrite ?HX, ?HWm; reflexivity).
  unfold transposed, ndim. rewrite HX, HWm.
  cbn [bind map nth List.length seq position Nat.eqb rev app].
  assert (Hsg : size grad = (N * oh * ow) * oc).
  { unfold size. rewrite Hgrad. unfold prod, fold_right. lia. }
  rewrite reshape_infer_first; rewrite ?Hsg, ?Z.div_mul, ?Z.mod_mul; try lia.
  cbn [bind].
  unfold matmul at 1. cbn [shape reshaped rev app]. rewrite Z.eqb_refl.
  cbn [guard bind]. rewrite Hw. cbn [Conv2D.lookup bind].
  rewrite Hwshape.
  set (dW := mkarray [K; oc] _).
  rewrite reshape_plain.
  2:{ repeat constructor; lia. }
  2:{ unfold size, dW, shape, prod, fold_right. lia. }
  cbn [bind]. unfold np_sum012. rewrite Hgrad. cbn [bind].
  unfold matmul. cbn [shape]. rewrite Hgrad. cbn [rev app]. rewrite Z.eqb_refl.
  cbn [guard bind].
  set (dX := mkarray [N; oh; ow; K] _).
  unfold np_zeros.
  replace (forallb (fun d => 0 <=? d) [N; PH; PW; C]) with true.
  2:{ symmetry. cbn [forallb].
      repeat (rewrite (proj2 (Z.leb_le _ _)) by lia). reflexivity. }
  cbn [guard bind].
  rewrite !py_range_pos by lia. cbn [bind]. rewrite !range_count by lia.
  set (rows := enumerate (map (fun i => Z.of_nat i * sh) (seq 0 (Z.to_nat oh)))).
  set (cols := enumerate (map (fun i => Z.of_nat i * sw) (seq 0 (Z.to_nat ow)))).
  set (step := fun (icol jrow : Z * Z) (d : ndarray) =>
                 updated Z.add d (snd icol) kh (snd jrow) kw
                   (reshaped (picked dX [N; K] (fst icol) (fst jrow))
                             [N; kh; kw; C])).
  set (Inv := fun d : ndarray => shape d = [N; PH; PW; C]).
  assert (Hinner : forall d icol, In icol rows -> Inv d ->
            foldM (fun d jrow =>
                     Conv2D.scatter_step dX N kh kw C (fst icol) (snd icol)
                       (fst jrow) (snd jrow) d) cols d
            = Ok (fold_left (fun d jrow => step icol jrow d) cols d)
            /\ Inv (fold_left (fun d jrow => step icol jrow d) cols d)).
  { intros d icol Hicol Hd. apply (@foldM_fold _ _ Inv); [|exact Hd].
    intros d' jrow Hjrow Hd'.
    apply in_enumerate_range in Hicol as (Hi & Hcol).
    apply in_enumerate_range in Hjrow as (Hj & Hrow).
    pose proof (@range_elem_bound (PH - kh) sh (Z.to_nat (fst icol))
                  ltac:(lia) ltac:(lia) ltac:(lia)).
    pose proof (@range_elem_bound (PW - kw) sw (Z.to_nat (fst jrow))
                  ltac:(lia) ltac:(lia) ltac:(lia)).
    split; [|exact Hd'].
    apply (scatter_step_ok H W sh sw p0 p1 p2 p3 HN HC Hkh Hkw);
      auto; try reflexivity; lia. }
  destruct (@foldM_fold _ _ Inv
              (fun d icol =>
                 foldM (fun d jrow =>
                          Conv2D.scatter_step dX N kh kw C (fst icol)
                            (snd icol) (fst jrow) (snd jrow) d) cols d)
              (fun d icol => fold_left (fun d jrow => step icol jrow d) cols d)
              rows (mkarray [N; PH; PW; C] (fun _ => 0)))
    as [-> Hshape]; [exact Hinner | reflexivity |].
  cbn [bind].
  set (buf := fold_left _ rows _) in *.
  replace (PH - p1) with (p0 + H) by lia.
  replace (PW - p3) with (p2 + W) by lia.
  rewrite (@slice_hw_inside buf N PH PW C) by (auto; lia).
  cbn [bind]. eexists _, _, _. split; [reflexivity|].
  split; [reflexivity|]. split; [reflexivity|]. split; [reflexivity|].
  split.
  - intros a0 b0 c0 o Hin.
    assert (Hin3 : in_bounds [kh; kw; C] [a0; b0; c0])
      by (cbn [in_bounds] in *; tauto).
    pose proof (ravel_bound _ _ Hin3) as Hf.
    set (f := ravel [kh; kw; C] [a0; b0; c0]) in *.
    cbn [get reshaped]. unfold dW at 2. cbn [shape].
    replace (ravel [kh; kw; C; oc] [a0; b0; c0; o])
      with (ravel [K; oc] [f; o])
      by (unfold f; cbn [ravel]; unfold prod, fold_right; ring).
    destruct Hin as (_ & _ & _ & Ho & _).
    rewrite unravel_ravel by (cbn [in_bounds]; lia).
    unfold dW. cbn [get removelast last app nth].
    replace (Z.to_nat (N * oh * ow)) with (Z.to_nat (prod [N; oh; ow]))
      by (unfold prod, fold_right; f_equal; lia).
    rewrite sumZ_ravel3 by lia.
    apply sumZ_ext. intros n Hn. apply sumZ_ext. intros i Hi.
    apply sumZ_ext. intros j Hj. f_equal.
    assert (Hnij : in_bounds [N; oh; ow] [n; i; j])
      by (cbn [in_bounds]; lia).
    pose proof (ravel_bound _ _ Hnij) as Hr.
    set (r := ravel [N; oh; ow] [n; i; j]) in *.
    cbn [get reshaped]. rewrite Hgrad.
    replace (ravel [N * oh * ow; oc] [r; o])
      with (ravel [N; oh; ow; oc] [n; i; j; o])
      by (unfold r; cbn [ravel]; unfold prod, fold_right; ring).
    rewrite unravel_ravel by (cbn [in_bounds]; lia). reflexivity.
  - intros o. reflexivity.
Qed.

End ConvValues.

(** X1: on an applicable call, [Conv2D.forward] returns the
    cross-correlation of the edge-padded input with the kernel, plus the
    bias: output entry (n, i, j, o) is the sum over the kernel offsets
    (a, b) and input channels c of padded(n, i*sh + a, j*sw + b, c) *
    w(a, b, c, o), plus b(o), where a padded cell outside the image holds
    the nearest border pixel of the input (not zero). *)
Theorem conv_forward_is_correlation (l : Conv2D.t) (x w b : ndarray)
    (N H W C kh kw oc sh sw p0 p1 p2 p3 : Z) :
  shape x = [N; H; W; C] ->
  Conv2D.kernel l = (kh, kw, C, oc) ->
  Conv2D.stride l = (sh, sw) ->
  Conv2D._get_padding (kh, kw) (Conv2D.padding_mode l)
  = Some (p0, p1, p2, p3) ->
  Conv2D.params_w (Conv2D.lazy_init l) = Some w ->
  Conv2D.params_b (Conv2D.lazy_init l) = Some b ->
  shape w = [kh; kw; C; oc] ->
  shape b = [oc] ->
  1 <= N -> 1 <= H -> 1 <= W -> 1 <= C ->
  1 <= kh -> 1 <= kw -> 1 <= oc -> 1 <= sh -> 1 <= sw ->
  kh <= p0 + H + p1 ->
  kw <= p2 + W + p3 ->
  exists y l1,
    Conv2D.forward l x = Ok (y, l1)
    /\ shape y
       = [N; (p0 + H + p1 - kh) / sh + 1; (p2 + W + p3 - kw) / sw + 1; oc]
    /\ forall n i j o,
         in_bounds [N; (p0 + H + p1 - kh) / sh + 1;
                    (p2 + W + p3 - kw) / sw + 1; oc] [n; i; j; o] ->
         get y [n; i; j; o]
         = conv_sum x w H W p0 p2 kh kw C sh sw n i j o + get b [o].
Proof.
  intros Hx Hk Hs Hpad Hw Hb Hws Hbs HN HH HW HC Hkh Hkw Hoc Hsh Hsw
         Hfh Hfw.
  destruct (@conv_forward_full l x w b N H W C kh kw oc sh sw p0 p1 p2 p3
              Hx Hk Hs Hpad Hw Hb Hws Hbs HN HH HW HC Hkh Hkw Hoc Hsh Hsw
              Hfh Hfw)
    as (y & X & Wm & Hf & Hy & _ & _ & HWg & HXg & Hval).
  exists y. eexists. split; [exact Hf|]. split; [exact Hy|].
  intros n i j o Hin. rewrite (Hval n i j o Hin). f_equal.
  unfold conv_sum. rewrite sumZ_ravel3 by lia.
  destruct Hin as (Hn & Hi & Hj & Ho & _).
  apply sumZ_ext. intros a Ha. apply sumZ_ext. intros b' Hb'.
  apply sumZ_ext. intros c Hc.
  rewrite HXg by (cbn [in_bounds]; lia).
  rewrite HWg by (cbn [in_bounds]; lia). reflexivity.
Qed.

Lemma conv_forward_is_correlation_witness :
  exists y l1,
    Conv2D.forward top_left_conv_same input_1_to_9 = Ok (y, l1)
    /\ shape y = [1; 3; 3; 1]
    /\ get y [0; 0; 0; 0] = 1
    /\ get y [0; 2; 2; 0] = 9.
Proof.
  destruct (@conv_forward_is_correlation top_left_conv_same input_1_to_9
              top_left_kernel (zeros_init 1) 1 3 3 1 2 2 1 1 1 0 1 0 1
              eq_refl eq_refl eq_refl eq_refl eq_refl eq_refl eq_refl eq_refl
              ltac:(lia) ltac:(lia) ltac:(lia) ltac:(lia) ltac:(lia)
              ltac:(lia) ltac:(lia) ltac:(lia) ltac:(lia) ltac:(lia)
              ltac:(lia))
    as (y & l1 & Hf & Hy & Hval).
  exists y, l1. split; [exact Hf|]. split; [exact Hy|]. split.
  - rewrite (Hval 0 0 0 0) by (cbn; lia). reflexivity.
  - rewrite (Hval 0 2 2 0) by (cbn; lia). reflexivity.
Defined.

(** X2: on an applicable call, [Conv2D.forward] and then
    [Conv2D.backward] return, and [backward] stores the parameter
    gradients: [grads["w"]] has the shape of the kernel and its entry
    (a, b, c, o) is the sum over the batch and the output positions of
    padded(n, i*sh + a, j*sw + b, c) * grad(n, i, j, o); [grads["b"]]
    holds, per output channel, the sum of [grad] over the batch and the
    positions.  [backward] leaves the parameters and the cache as
    [forward] left them. *)
Theorem conv_backward_parameter_gradients (l : Conv2D.t)
    (x w b grad : ndarray) (N H W C kh kw oc sh sw p0 p1 p2 p3 : Z) :
  shape x = [N; H; W; C] ->
  Conv2D.kernel l = (kh, kw, C, oc) ->
  Conv2D.stride l = (sh, sw) ->
  Conv2D._get_padding (kh, kw) (Conv2D.padding_mode l)
  = Some (p0, p1, p2, p3) ->
  Conv2D.params_w (Conv2D.lazy_init l) = Some w ->
  Conv2D.params_b (Conv2D.lazy_init l) = Some b ->
  shape w = [kh; kw; C; oc] ->
  shape b = [oc] ->
  1 <= N -> 1 <= H -> 1 <= W -> 1 <= C ->
  1 <= kh -> 1 <= kw -> 1 <= oc -> 1 <= sh -> 1 <= sw ->
  kh <= p0 + H + p1 ->
  kw <= p2 + W + p3 ->
  shape grad
  = [N; (p0 + H + p1 - kh) / sh + 1; (p2 + W + p3 - kw) / sw + 1; oc] ->
  exists y l1 d_in l2 gw gb,
    Conv2D.forward l x = Ok (y, l1)
    /\ Conv2D.backward l1 grad = Ok (d_in, l2)
    /\ Conv2D.grads_w l2 = Some gw
    /\ Conv2D.grads_b l2 = Some gb
    /\ shape gw = [kh; kw; C; oc]
    /\ shape gb = [oc]
    /\ (forall a b' c o, in_bounds [kh; kw; C; oc] [a; b'; c; o] ->
          get gw [a; b'; c; o]
          = weight_grad x grad H W p0 p2 sh sw N
              ((p0 + H + p1 - kh) / sh + 1) ((p2 + W + p3 - kw) / sw + 1)
              a b' c o)
    /\ (forall o,
          get gb [o]
          = bias_grad grad N ((p0 + H + p1 - kh) / sh + 1)
              ((p2 + W + p3 - kw) / sw + 1) o)
    /\ Conv2D.params_w l2 = Some w
    /\ Conv2D.params_b l2 = Some b
    /\ Conv2D.cache l2 = Conv2D.cache l1.
Proof.
  intros Hx Hk Hs Hpad Hw Hb Hws Hbs HN HH HW HC Hkh Hkw Hoc Hsh Hsw
         Hfh Hfw Hg.
  destruct (@conv_forward_ok l x w b N H W C kh kw oc sh sw p0 p1 p2 p3
              Hx Hk Hs Hpad Hw Hb Hws Hbs HN HH HW HC Hkh Hkw Hoc Hsh Hsw
              Hfh Hfw)
    as (y & X & Wm & Hf & Hy & HX & HWm & HWg & HXg).
  destruct (@conv_backward_full l w N H W C kh kw oc sh sw p0 p1 p2 p3
              Hpad Hw Hws HN HH HW HC Hkh Hkw Hoc Hsh Hsw Hfh Hfw
              grad Hg X Wm HX HWm HWg)
    as (d_in & gw & gb & Hbk & _ & Hgw & Hgb & Hgwv & Hgbv).
  exists y. eexists. exists d_in. eexists. exists gw, gb.
  split; [exact Hf|]. split; [exact Hbk|].
  split; [reflexivity|]. split; [reflexivity|].
  split; [exact Hgw|]. split; [exact Hgb|]. split.
  - intros a b' c o Hin. rewrite (Hgwv a b' c o Hin). unfold weight_grad.
    destruct Hin as (Ha & Hb' & Hc & Ho & _).
    apply sumZ_ext. intros n Hn. apply sumZ_ext. intros i Hi.
    apply sumZ_ext. intros j Hj.
    rewrite HXg by (cbn [in_bounds]; lia). reflexivity.
  - split; [exact Hgbv|].
    split; [exact Hw|]. split; [exact Hb | reflexivity].
Qed.

Lemma conv_backward_parameter_gradients_witness :
  exists y l1 d_in l2 gw gb,
    Conv2D.forward top_left_conv input_1_to_9 = Ok (y, l1)
    /\ Conv2D.backward l1 (np_ones [1; 2; 2; 1]) = Ok (d_in, l2)
    /\ Conv2D.grads_w l2 = Some gw
    /\ Conv2D.grads_b l2 = Some gb
    /\ get gw [0; 0; 0; 0] = 12
    /\ get gw [1; 1; 0; 0] = 28
    /\ get gb [0] = 4.
Proof.
  destruct (@conv_backward_parameter_gradients top_left_conv input_1_to_9
              top_left_kernel (zeros_init 1) (np_ones [1; 2; 2; 1])
              1 3 3 1 2 2 1 1 1 0 0 0 0
              eq_refl eq_refl eq_refl eq_refl eq_refl eq_refl eq_refl eq_refl
              ltac:(lia) ltac:(lia) ltac:(lia) ltac:(lia) ltac:(lia)
              ltac:(lia) ltac:(lia) ltac:(lia) ltac:(lia) ltac:(lia)
              ltac:(lia) eq_refl)
    as (y & l1 & d_in & l2 & gw & gb & Hf & Hb & Hgw & Hgb & _ & _
        & Hgwv & Hgbv & _).
  exists y, l1, d_in, l2, gw, gb.
  split; [exact Hf|]. split; [exact Hb|]. split; [exact Hgw|].
  split; [exact Hgb|]. split; [|split].
  - rewrite (Hgwv 0 0 0 0) by (cbn; lia). reflexivity.
  - rewrite (Hgwv 1 1 0 0) by (cbn; lia). reflexivity.
  - rewrite Hgbv. reflexivity.
Defined.

(* ------------------------------------------------------------------ *)
(** ** Output sizes and failures of the convolution *)

(** X3: on an applicable call with SAME padding each spatial size of the
    output is floor((in - 1) / stride) + 1, the ceiling of in / stride,
    whatever the kernel size; with FULL padding the output has
    floor((H + kw - 2) / s_h) + 1 rows and floor((W + kh - 2) / s_w) + 1
    columns, which for a square k x k kernel and stride 1 is in + k - 1. *)
Theorem conv_forward_output_size_padded (l : Conv2D.t) (x w b : ndarray)
    (N H W C kh kw oc sh sw : Z) :
  shape x = [N; H; W; C] ->
  Conv2D.kernel l = (kh, kw, C, oc) ->
  Conv2D.stride l = (sh, sw) ->
  Conv2D.params_w (Conv2D.lazy_init l) = Some w ->
  Conv2D.params_b (Conv2D.lazy_init l) = Some b ->
  shape w = [kh; kw; C; oc] ->
  shape b = [oc] ->
  1 <= N -> 1 <= H -> 1 <= W -> 1 <= C ->
  1 <= kh -> 1 <= kw -> 1 <= oc -> 1 <= sh -> 1 <= sw ->
  (Conv2D.padding_mode l = "SAME" ->
   exists y l1,
     Conv2D.forward l x = Ok (y, l1)
     /\ shape y = [N; (H - 1) / sh + 1; (W - 1) / sw + 1; oc]
     /\ (H - 1) / sh + 1 = (H + sh - 1) / sh
     /\ (W - 1) / sw + 1 = (W + sw - 1) / sw)
  /\ (Conv2D.padding_mode l = "FULL" ->
      exists y l1,
        Conv2D.forward l x = Ok (y, l1)
        /\ shape y
           = [N; (H + kw - 2) / sh + 1; (W + kh - 2) / sw + 1; oc]
        /\ (kh = kw -> sh = 1 -> sw = 1 ->
            shape y = [N; H + kh - 1; W + kw - 1; oc])).
Proof.
  intros Hx Hk Hs Hw Hb Hws Hbs HN HH HW HC Hkh Hkw Hoc Hsh Hsw.
  split.
  - intros Hmode.
    destruct (Conv2D._get_padding (kh, kw) "SAME")
      as [[[[p0 p1] p2] p3]|] eqn:Hpad; [|discriminate].
    destruct (conv_same_total_pad Hpad) as [Hph Hpw].
    destruct (@conv_forward_ok l x w b N H W C kh kw oc sh sw p0 p1 p2 p3)
      as (y & X & Wm & Hf & Hy & _); auto; try lia.
    { rewrite Hmode. exact Hpad. }
    exists y. eexists. split; [exact Hf|]. rewrite Hy.
    replace (p0 + H + p1 - kh) with (H - 1) by lia.
    replace (p2 + W + p3 - kw) with (W - 1) by lia.
    split; [reflexivity|].
    split.
    + replace (H + sh - 1) with (H - 1 + 1 * sh) by lia.
      rewrite Z.div_add by lia. reflexivity.
    + replace (W + sw - 1) with (W - 1 + 1 * sw) by lia.
      rewrite Z.div_add by lia. reflexivity.
  - intros Hmode.
    destruct (@conv_forward_ok l x w b N H W C kh kw oc sh sw
                (kh - 1) (kw - 1) (kh - 1) (kw - 1))
      as (y & X & Wm & Hf & Hy & _); auto; try lia.
    { rewrite Hmode. reflexivity. }
    exists y. eexists. split; [exact Hf|]. rewrite Hy.
    replace (kh - 1 + H + (kw - 1) - kh) with (H + kw - 2) by lia.
    replace (kh - 1 + W + (kw - 1) - kw) with (W + kh - 2) by lia.
    split; [reflexivity|].
    intros -> -> ->. rewrite !Z.div_1_r.
    replace (H + kw - 2 + 1) with (H + kw - 1) by lia.
    replace (W + kw - 2 + 1) with (W + kw - 1) by lia. reflexivity.
Qed.

Lemma conv_forward_output_size_padded_witness :
  exists y l1,
    Conv2D.forward top_left_conv_same input_1_to_9 = Ok (y, l1)
    /\ shape y = [1; (3 - 1) / 1 + 1; (3 - 1) / 1 + 1; 1].
Proof.
  destruct (proj1 (@conv_forward_output_size_padded top_left_conv_same
              input_1_to_9 top_left_kernel (zeros_init 1) 1 3 3 1 2 2 1 1 1
              eq_refl eq_refl eq_refl eq_refl eq_refl eq_refl eq_refl
              ltac:(lia) ltac:(lia) ltac:(lia) ltac:(lia) ltac:(lia)
              ltac:(lia) ltac:(lia) ltac:(lia) ltac:(lia)) eq_refl)
    as (y & l1 & Hf & Hy & _).
  exists y, l1. split; [exact Hf | exact Hy].
Defined.

Lemma py_range_empty (stop step : Z) :
  stop <= 0 -> 0 < step -> py_range stop step = Ok [].
Proof.
  intros Hstop Hstep. rewrite py_range_pos by exact Hstep.
  replace (Z.to_nat ((stop + step - 1) / step)) with 0%nat; [reflexivity|].
  assert ((stop + step - 1) / step <= 0); [|lia].
  apply Z.lt_succ_r. apply Z.div_lt_upper_bound; lia.
Qed.

Lemma mapM_const {A B : Type} (f : A -> result B) (y : B) (xs : list A) :
  (forall x, In x xs -> f x = Ok y) ->
  mapM f xs = Ok (map (fun _ => y) xs).
Proof. intros H. apply mapM_map. exact H. Qed.

(** X4: a kernel that does not fit the padded input makes
    [Conv2D.forward] raise [ValueError]: no window is gathered along that
    axis, the patch array has fewer than four axes and its transposition
    fails.  With VALID padding this is the case of a kernel higher or
    wider than the image. *)
Theorem conv_forward_kernel_too_large (l : Conv2D.t) (x w : ndarray)
    (N H W C kh kw oc sh sw p0 p1 p2 p3 : Z) :
  shape x = [N; H; W; C] ->
  Conv2D.kernel l = (kh, kw, C, oc) ->
  Conv2D.stride l = (sh, sw) ->
  Conv2D._get_padding (kh, kw) (Conv2D.padding_mode l)
  = Some (p0, p1, p2, p3) ->
  Conv2D.params_w (Conv2D.lazy_init l) = Some w ->
  1 <= H -> 1 <= W -> 1 <= kh -> 1 <= kw -> 1 <= sh -> 1 <= sw ->
  p0 + H + p1 < kh \/ p2 + W + p3 < kw ->
  Conv2D.forward l x = Raise "ValueError".
Proof.
  intros Hx Hk Hs Hpad Hw HH HW Hkh Hkw Hsh Hsw Hbig.
  destruct (conv_pad_nonneg l Hpad Hkh Hkw) as (Hp0 & Hp1 & Hp2 & Hp3).
  destruct (lazy_init_fields l Hk Hs) as (Hk' & Hs' & Hm').
  unfold Conv2D.forward. cbv zeta.
  rewrite Hk', Hs', Hm', Hpad.
  rewrite (@np_pad_edge_ok x N H W C) by auto.
  cbn [bind]. rewrite Hx. cbn [shape pad_edge].
  unfold int_div_plus_one.
  destruct (Z.eqb_spec sh 0) as [|_]; [lia|].
  destruct (Z.eqb_spec sw 0) as [|_]; [lia|].
  cbn [bind]. rewrite Hw. cbn [Conv2D.lookup bind].
  destruct (Z_lt_le_dec (p0 + H + p1) kh) as [Hh|Hh].
  - rewrite (@py_range_empty (p0 + H + p1 - kh + 1) sh) by lia.
    reflexivity.
  - assert (Hwd : p2 + W + p3 < kw) by lia.
    rewrite (@py_range_pos (p0 + H + p1 - kh + 1) sh) by lia.
    rewrite range_count by lia. cbn [bind].
    pose proof (Z.div_pos (p0 + H + p1 - kh) sh ltac:(lia) ltac:(lia)) as Hq.
    destruct (Z.to_nat ((p0 + H + p1 - kh) / sh + 1)) as [|m] eqn:Hm; [lia|].
    rewrite (@mapM_const _ _ _ []).
    2:{ intros row _. rewrite (@py_range_empty (p2 + W + p3 - kw + 1) sw) by lia.
        reflexivity. }
    cbn [bind]. unfold np_asarray2.
    rewrite (@mapM_const _ _ _ (mkarray [0] (fun _ => 0))).
    2:{ intros xs Hin. apply in_map_iff in Hin as (? & <- & _). reflexivity. }
    cbn [bind]. rewrite !map_map.
    cbn [seq map np_array].
    replace (forallb _ _) with true.
    2:{ symmetry. apply forallb_forall. intros a Ha.
        destruct Ha as [<-|Ha]; [reflexivity|].
        apply in_map_iff in Ha as (? & <- & _). reflexivity. }
    reflexivity.
Qed.

Lemma conv_forward_kernel_too_large_witness :
  Conv2D.forward top_left_conv (np_ones [1; 1; 3; 1]) = Raise "ValueError".
Proof.
  apply (@conv_forward_kernel_too_large top_left_conv (np_ones [1; 1; 3; 1])
           top_left_kernel 1 1 3 1 2 2 1 1 1 0 0 0 0);
    try reflexivity; lia.
Defined.

(* ------------------------------------------------------------------ *)
(** ** What the calls leave in the layer *)

Lemma conv_lazy_init_idem (l : Conv2D.t) :
  Conv2D.lazy_init (Conv2D.lazy_init l) = Conv2D.lazy_init l.
Proof.
  unfold Conv2D.lazy_init. destruct (Conv2D.is_init l) eqn:Hi.
  - rewrite Hi. reflexivity.
  - destruct (Conv2D.kernel l) as [[[? ?] ?] ?] eqn:Hk.
    unfold Conv2D._init_parameters. rewrite Hk. reflexivity.
Qed.

Lemma conv_forward_reads_lazy_init (l : Conv2D.t) (x : ndarray) :
  Conv2D.forward (Conv2D.lazy_init l) x = Conv2D.forward l x.
Proof.
  unfold Conv2D.forward. cbv zeta. rewrite conv_lazy_init_idem. reflexivity.
Qed.

Lemma conv_forward_ignores_cache (l : Conv2D.t) (c : Conv2D.cache_t)
    (x : ndarray) :
  Conv2D.forward (Conv2D.set_cache l c) x = Conv2D.forward l x.
Proof.
  unfold Conv2D.forward, Conv2D.lazy_init. cbv zeta.
  cbn [Conv2D.is_init Conv2D.set_cache].
  destruct (Conv2D.is_init l).
  - reflexivity.
  - destruct l as [pm [[[k0 k1] k2] k3] st wi bi ii pw pb gw gb ca].
    reflexivity.
Qed.

Lemma conv_forward_state (l l1 : Conv2D.t) (x y : ndarray) :
  Conv2D.forward l x = Ok (y, l1) ->
  exists c, l1 = Conv2D.set_cache (Conv2D.lazy_init l) c.
Proof.
  unfold Conv2D.forward. cbv zeta. intros Hf.
  repeat match type of Hf with
    | bind _ _ = Ok _ => apply bind_ok_inv in Hf as (? & ? & Hf)
    | match ?s with _ => _ end = Ok _ =>
        destruct s eqn:?; try discriminate Hf
    | (let '(_, _) := ?s in _) = Ok _ => destruct s eqn:?
    end. injection Hf as _ <-. eauto.
Qed.

Lemma conv_backward_state (l l2 : Conv2D.t) (g d : ndarray) :
  Conv2D.backward l g = Ok (d, l2) ->
  exists gw gb, l2 = Conv2D.set_grads l gw gb.
Proof.
  unfold Conv2D.backward. intros Hb.
  repeat match type of Hb with
    | bind _ _ = Ok _ => apply bind_ok_inv in Hb as (? & ? & Hb)
    | match ?s with _ => _ end = Ok _ =>
        destruct s eqn:?; try discriminate Hb
    | (let '(_, _) := ?s in _) = Ok _ => destruct s eqn:?
    end. injection Hb as _ <-. eauto.
Qed.

Lemma conv_backward_ignores_grads (l : Conv2D.t) (gw gb g : ndarray) :
  Conv2D.backward (Conv2D.set_grads l gw gb) g = Conv2D.backward l g.
Proof. reflexivity. Qed.

Lemma pool_backward_state (l l2 : MaxPool2D.t) (g d : ndarray) :
  MaxPool2D.backward l g = Ok (d, l2) -> l2 = l.
Proof.
  unfold MaxPool2D.backward. intros Hb.
  repeat match type of Hb with
    | bind _ _ = Ok _ => apply bind_ok_inv in Hb as (? & ? & Hb)
    | match ?s with _ => _ end = Ok _ =>
        destruct s eqn:?; try discriminate Hb
    | (let '(_, _) := ?s in _) = Ok _ => destruct s eqn:?
    end. injection Hb as _ <-. reflexivity.
Qed.

(** X5: the parameters of a convolution are created inside [forward],
    not by the constructor.  For each supported padding mode the
    constructor returns a layer with [is_init] unset and no parameters,
    and a [forward] that returns on that layer leaves [w_init(kernel)]
    and [b_init(kernel[-1])] in it.  On any layer, a [forward] that
    returns leaves [is_init] set; the parameters are those the layer
    held when it was initialized already, the initializers' arrays
    otherwise.  Every later [forward] that returns keeps them, whatever
    the cache holds, and the same input again gives the same output and
    leaves the layer as it is. *)
Theorem conv_parameters_initialized_once
    (kernel : Z * Z * Z * Z) (stride : Z * Z) (padding : string)
    (w_init : Z * Z * Z * Z -> ndarray) (b_init : Z -> ndarray) :
  padding = "FULL" \/ padding = "SAME" \/ padding = "VALID" ->
  (exists l0,
     Conv2D.__init__ kernel stride padding w_init b_init = Ok l0
     /\ Conv2D.is_init l0 = false
     /\ Conv2D.params_w l0 = None
     /\ Conv2D.params_b l0 = None
     /\ (forall x y l1,
           Conv2D.forward l0 x = Ok (y, l1) ->
           Conv2D.is_init l1 = true
           /\ Conv2D.params_w l1 = Some (w_init kernel)
           /\ Conv2D.params_b l1 = Some (b_init (snd kernel))))
  /\ (forall l x y l1,
        Conv2D.forward l x = Ok (y, l1) ->
        Conv2D.is_init l1 = true
        /\ (Conv2D.is_init l = true ->
            Conv2D.params_w l1 = Conv2D.params_w l
            /\ Conv2D.params_b l1 = Conv2D.params_b l)
        /\ (Conv2D.is_init l = false ->
            Conv2D.params_w l1 = Some (Conv2D.w_init l (Conv2D.kernel l))
            /\ Conv2D.params_b l1
               = Some (Conv2D.b_init l (snd (Conv2D.kernel l))))
        /\ (forall x' y' l2,
              Conv2D.forward l1 x' = Ok (y', l2) ->
              Conv2D.is_init l2 = true
              /\ Conv2D.params_w l2 = Conv2D.params_w l1
              /\ Conv2D.params_b l2 = Conv2D.params_b l1)
        /\ (forall c x',
              Conv2D.forward (Conv2D.set_cache l1 c) x'
              = Conv2D.forward l1 x')
        /\ Conv2D.forward l1 x = Ok (y, l1)).
Proof.
  intros Hmode.
  assert (Hany : forall l x y l1,
            Conv2D.forward l x = Ok (y, l1) ->
            Conv2D.is_init l1 = true
            /\ (Conv2D.is_init l = true ->
                Conv2D.params_w l1 = Conv2D.params_w l
                /\ Conv2D.params_b l1 = Conv2D.params_b l)
            /\ (Conv2D.is_init l = false ->
                Conv2D.params_w l1 = Some (Conv2D.w_init l (Conv2D.kernel l))
                /\ Conv2D.params_b l1
                   = Some (Conv2D.b_init l (snd (Conv2D.kernel l))))
            /\ Conv2D.lazy_init l1 = l1
            /\ Conv2D.forward l1 x = Ok (y, l1)).
  { intros l x y l1 Hf.
    destruct (@conv_forward_state _ _ _ _ Hf) as (c & ->).
    assert (Hinit : Conv2D.is_init (Conv2D.lazy_init l) = true).
    { unfold Conv2D.lazy_init. destruct (Conv2D.is_init l) eqn:Hi.
      - exact Hi.
      - destruct (Conv2D.kernel l) as [[[? ?] ?] ?] eqn:Hk.
        unfold Conv2D._init_parameters. rewrite Hk. reflexivity. }
    assert (Hlazy : Conv2D.lazy_init (Conv2D.set_cache (Conv2D.lazy_init l) c)
                    = Conv2D.set_cache (Conv2D.lazy_init l) c).
    { unfold Conv2D.lazy_init at 1.
      cbn [Conv2D.is_init Conv2D.set_cache]. rewrite Hinit. reflexivity. }
    split; [exact Hinit|]. split; [|split; [|split; [exact Hlazy|]]].
    - intros Hi. unfold Conv2D.lazy_init. rewrite Hi. split; reflexivity.
    - intros Hi. unfold Conv2D.lazy_init. rewrite Hi.
      destruct (Conv2D.kernel l) as [[[? ?] ?] ?] eqn:Hk.
      unfold Conv2D._init_parameters. rewrite Hk. split; reflexivity.
    - rewrite conv_forward_ignores_cache, conv_forward_reads_lazy_init.
      exact Hf. }
  split.
  - exists (Conv2D.mk padding kernel stride w_init b_init
                      false None None None None None).
    split.
    { unfold Conv2D.__init__.
      destruct Hmode as [->|[->| ->]]; reflexivity. }
    split; [reflexivity|]. split; [reflexivity|]. split; [reflexivity|].
    intros x y l1 Hf.
    destruct (Hany _ _ _ _ Hf) as (Hi & _ & Hp & _).
    destruct (Hp eq_refl) as [Hw Hb].
    split; [exact Hi|]. split; [exact Hw | exact Hb].
  - intros l x y l1 Hf.
    destruct (Hany _ _ _ _ Hf) as (Hi & Hkeep & Hnew & Hlazy & Hagain).
    split; [exact Hi|]. split; [exact Hkeep|]. split; [exact Hnew|].
    split; [|split; [|exact Hagain]].
    + intros x' y' l2 Hf'.
      destruct (Hany _ _ _ _ Hf') as (Hi2 & Hkeep2 & _).
      destruct (Hkeep2 Hi) as [Hw Hb].
      split; [exact Hi2|]. split; [exact Hw | exact Hb].
    + intros c x'. apply conv_forward_ignores_cache.
Qed.

Lemma conv_parameters_initialized_once_witness :
  exists l0 y l1,
    Conv2D.__init__ (2, 2, 1, 1) (1, 1) "VALID"
                    (fun _ => top_left_kernel) zeros_init = Ok l0
    /\ Conv2D.is_init l0 = false
    /\ Conv2D.params_w l0 = None
    /\ Conv2D.forward l0 input_1_to_9 = Ok (y, l1)
    /\ Conv2D.is_init l1 = true
    /\ Conv2D.params_w l1 = Some top_left_kernel
    /\ Conv2D.forward l1 input_1_to_9 = Ok (y, l1).
Proof.
  destruct (@conv_parameters_initialized_once (2, 2, 1, 1) (1, 1) "VALID"
              (fun _ => top_left_kernel) zeros_init
              ltac:(right; right; reflexivity))
    as ((l0 & Hc & Hi0 & Hw0 & _ & Hfirst) & Hany).
  assert (El : l0 = top_left_conv).
  { cbn in Hc. injection Hc as <-. reflexivity. }
  destruct (@conv_forward_ok top_left_conv input_1_to_9
              top_left_kernel (zeros_init 1) 1 3 3 1 2 2 1 1 1 0 0 0 0
              eq_refl eq_refl eq_refl eq_refl eq_refl eq_refl eq_refl eq_refl
              ltac:(lia) ltac:(lia) ltac:(lia) ltac:(lia) ltac:(lia)
              ltac:(lia) ltac:(lia) ltac:(lia) ltac:(lia) ltac:(lia)
              ltac:(lia))
    as (y & X & Wm & Hf & _).
  rewrite <- El in Hf.
  destruct (Hfirst _ _ _ Hf) as (Hi1 & Hw1 & _).
  destruct (Hany _ _ _ _ Hf) as (_ & _ & _ & _ & _ & Hagain).
  exists l0, y. eexists.
  split; [exact Hc|]. split; [exact Hi0|]. split; [exact Hw0|].
  split; [exact Hf|]. split; [exact Hi1|]. split; [exact Hw1 | exact Hagain].
Defined.

(** X6: [backward] keeps the cache and overwrites the stored gradients.
    After a [Conv2D.backward] that returns, the cache, the parameters and
    the initialization flag are as before, and a further [backward] does
    on any gradient what it would have done in place of the first call:
    gradients are not accumulated over calls and the cache is not
    invalidated.  [MaxPool2D.backward] returns the layer as it was. *)
Theorem backward_keeps_cache (cl cl2 : Conv2D.t) (pl pl2 : MaxPool2D.t)
    (g d pg pd : ndarray) :
  (Conv2D.backward cl g = Ok (d, cl2) ->
   Conv2D.cache cl2 = Conv2D.cache cl
   /\ Conv2D.params_w cl2 = Conv2D.params_w cl
   /\ Conv2D.params_b cl2 = Conv2D.params_b cl
   /\ Conv2D.is_init cl2 = Conv2D.is_init cl
   /\ (forall g', Conv2D.backward cl2 g' = Conv2D.backward cl g')
   /\ Conv2D.backward cl2 g = Ok (d, cl2))
  /\ (MaxPool2D.backward pl pg = Ok (pd, pl2) ->
      pl2 = pl /\ MaxPool2D.backward pl2 pg = Ok (pd, pl2)).
Proof.
  split.
  - intros Hb. destruct (@conv_backward_state _ _ _ _ Hb) as (gw & gb & ->).
    repeat split; try reflexivity.
    rewrite conv_backward_ignores_grads. exact Hb.
  - intros Hb. pose proof (@pool_backward_state _ _ _ _ Hb) as ->.
    split; [reflexivity | exact Hb].
Qed.

(* ------------------------------------------------------------------ *)
(** ** The values computed by max pooling *)

Lemma max_of_S (f : Z -> Z) (m : nat) :
  max_of f (S (S m)) = Z.max (max_of f (S m)) (f (Z.of_nat (S m))).
Proof.
  unfold max_of. cbn [Nat.sub]. rewrite Nat.sub_0_r.
  rewrite seq_S, fold_left_app. reflexivity.
Qed.

(** The maximum is the value at the first maximum. *)
Lemma max_of_argmax (f : Z -> Z) (n : nat) :
  (0 < n)%nat -> max_of f n = f (argmax_first f n).
Proof.
  destruct n as [|m]; [lia|]. intros _.
  induction m as [|m IH]; [reflexivity|].
  rewrite max_of_S, argmax_first_S, IH.
  destruct (Z.ltb_spec (f (argmax_first f (S m))) (f (Z.of_nat (S m)))); lia.
Qed.

Lemma max_of_ext (f g : Z -> Z) (n : nat) :
  (0 < n)%nat ->
  (forall k, 0 <= k < Z.of_nat n -> f k = g k) ->
  max_of f n = max_of g n.
Proof.
  intros Hn Hfg. rewrite !max_of_argmax by exact Hn.
  rewrite (argmax_first_ext _ _ _ Hfg).
  apply Hfg. apply argmax_first_spec. exact Hn.
Qed.

Section PoolValues.

Variables (l : MaxPool2D.t) (x : ndarray).
Variables (N H W C ph pw sh sw p0 p1 p2 p3 : Z).

Hypothesis Hx : shape x = [N; H; W; C].
Hypothesis Hpool : MaxPool2D.pool_size l = (ph, pw).
Hypothesis Hstride : MaxPool2D.stride l = (sh, sw).
Hypothesis Hpad :
  MaxPool2D._get_padding (H, W) (ph, pw) (sh, sw) (MaxPool2D.padding_mode l)
  = Ok (p0, p1, p2, p3).
Hypothesis HN : 1 <= N.
Hypothesis HH : 1 <= H.
Hypothesis HW : 1 <= W.
Hypothesis HC : 1 <= C.
Hypothesis Hph : 1 <= ph <= sh.
Hypothesis Hpw : 1 <= pw <= sw.
Hypothesis Hdiv_h : (p0 + H + p1) mod sh = 0.
Hypothesis Hdiv_w : (p2 + W + p3) mod sw = 0.

Local Abbreviation PH := (p0 + H + p1).
Local Abbreviation PW := (p2 + W + p3).
Local Abbreviation oh := ((p0 + H + p1) / sh).
Local Abbreviation ow := ((p2 + W + p3) / sw).
Local Abbreviation padded := (pad_constant x [N; PH; PW; C] H W p0 p2).

Lemma pool_forward_full :
  exists y max_pos,
    MaxPool2D.forward l x
    = Ok (y, MaxPool2D.mk (ph, pw) (sh, sw) (MaxPool2D.padding_mode l)
               (Some (MaxPool2D.mkcache N (H, W, C) (sh, sw) (PH, PW)
                        (ph, pw) max_pos (oh, ow, C))))
    /\ shape y = [N; oh; ow; C]
    /\ shape max_pos = [N; oh; ow; C]
    /\ (forall n i j c, in_bounds [N; oh; ow; C] [n; i; j; c] ->
          get max_pos [n; i; j; c]
          = argmax_first (window_value padded sh sw pw n i j c)
                         (Z.to_nat (ph * pw)))
    /\ (forall n i j c, in_bounds [N; oh; ow; C] [n; i; j; c] ->
          get y [n; i; j; c]
          = max_of (window_value padded sh sw pw n i j c)
                   (Z.to_nat (ph * pw))).
Proof.
  destruct (pool_pads l H W Hpad Hph Hpw) as (Hp0 & Hp1 & Hp2 & Hp3).
  destruct (pool_out_dims l Hpad HH HW Hph Hpw Hdiv_h Hdiv_w)
    as (Hoh & How & HPH & HPW).
  unfold MaxPool2D.forward. rewrite Hx, Hpool, Hstride, Hpad.
  cbn [bind]. rewrite (@np_pad_constant_ok x N H W C) by auto.
  cbn [bind shape pad_constant].
  unfold floordiv.
  destruct (Z.eqb_spec sh 0) as [Hz|_]; [lia|].
  destruct (Z.eqb_spec sw 0) as [Hz|_]; [lia|].
  cbn [bind].
  rewrite !py_range_pos by lia. cbn [bind].
  rewrite !ceil_div_exact by (assumption || lia).
  set (nr := Z.to_nat oh). set (nc := Z.to_nat ow).
  set (G := fun i j : nat =>
              pool_result padded N C ph pw (Z.of_nat i * sh) (Z.of_nat j * sw)).
  rewrite (@mapM_map _ _ _
     (fun col => map (fun row => pool_result padded N C ph pw col row)
                     (map (fun i => Z.of_nat i * sw) (seq 0 nc)))).
  2:{ intros col Hcol. apply in_map_iff in Hcol as (i & <- & Hi).
      apply in_seq in Hi. apply mapM_map. intros row Hrow.
      apply in_map_iff in Hrow as (j & <- & Hj). apply in_seq in Hj.
      apply (pool_at_ok l x Hpad HN HH HW HC Hph Hpw Hdiv_h Hdiv_w);
        unfold nr, nc in *; lia. }
  cbn [bind]. rewrite map_map.
  replace (map _ (seq 0 nr)) with (map (fun i => map (G i) (seq 0 nc)) (seq 0 nr)).
  2:{ apply map_ext. intros i. rewrite map_map. reflexivity. }
  rewrite !map_concat_grid.
  replace oh with (Z.of_nat nr) by (unfold nr; lia).
  replace ow with (Z.of_nat nc) by (unfold nc; lia).
  destruct (@assemble_grid (fun i j => snd (G i j)) nr nc N C)
    as (y & -> & Hys & Hyg); try (unfold nr, nc; lia).
  { intros. reflexivity. }
  destruct (@assemble_grid (fun i j => fst (G i j)) nr nc N C)
    as (mp & -> & Hms & Hmg); try (unfold nr, nc; lia).
  { intros. reflexivity. }
  cbn [bind]. exists y, mp. split; [reflexivity|].
  split; [exact Hys|]. split; [exact Hms|]. split.
  - intros n i j c Hin. rewrite Hmg by exact Hin.
    destruct Hin as (Hn & Hi & Hj & Hc & _).
    unfold G, pool_result. cbn [fst get reduced1]. rewrite !Z2Nat.id by lia.
    apply argmax_first_ext. intros k Hk.
    apply (pool_window_value x H W ph sh p0 p1 p2 p3 HC Hpw); lia.
  - intros n i j c Hin. rewrite Hyg by exact Hin.
    destruct Hin as (Hn & Hi & Hj & Hc & _).
    unfold G, pool_result. cbn [snd get reduced1]. rewrite !Z2Nat.id by lia.
    apply max_of_ext; [nia|]. intros k Hk.
    apply (pool_window_value x H W ph sh p0 p1 p2 p3 HC Hpw); lia.
Qed.

Variable grad : ndarray.
Hypothesis Hgrad : shape grad = [N; oh; ow; C].

(** [forward] and then [backward] on a gradient of the output shape. *)
Lemma pool_forward_then_backward :
  exists y l1 max_pos d_in,
    MaxPool2D.forward l x = Ok (y, l1)
    /\ shape y = [N; oh; ow; C]
    /\ MaxPool2D.cache l1
       = Some (MaxPool2D.mkcache N (H, W, C) (sh, sw) (PH, PW)
                 (ph, pw) max_pos (oh, ow, C))
    /\ (forall n i j c, in_bounds [N; oh; ow; C] [n; i; j; c] ->
          get max_pos [n; i; j; c]
          = argmax_first (window_value padded sh sw pw n i j c)
                         (Z.to_nat (ph * pw)))
    /\ (forall n i j c, in_bounds [N; oh; ow; C] [n; i; j; c] ->
          get y [n; i; j; c]
          = max_of (window_value padded sh sw pw n i j c)
                   (Z.to_nat (ph * pw)))
    /\ MaxPool2D.backward l1 grad = Ok (d_in, l1)
    /\ shape d_in = [N; PH; PW; C]
    /\ (forall n Y X c, in_bounds [N; PH; PW; C] [n; Y; X; c] ->
          get d_in [n; Y; X; c]
          = if (Y mod sh <? ph) && (X mod sw <? pw)
            then get grad [n; Y / sh; X / sw; c]
                 * (if (Y mod sh) * pw + X mod sw
                       =? get max_pos [n; Y / sh; X / sw; c]
                    then 1 else 0)
            else 0).
Proof.
  destruct pool_forward_full as (y & max_pos & Hf & Hy & Hmp & Hmg & Hyg).
  assert (Hrange : forall n i j c,
            in_bounds [N; oh; ow; C] [n; i; j; c] ->
            0 <= get max_pos [n; i; j; c] < ph * pw).
  { intros n i j c Hin. rewrite Hmg by exact Hin.
    pose proof (@argmax_first_spec (window_value padded sh sw pw n i j c)
                  (Z.to_nat (ph * pw)) ltac:(nia)) as (Hb & _).
    lia. }
  destruct (@pool_backward_ok l N H W C ph pw sh sw p0 p1 p2 p3
              Hpad HN HH HW HC Hph Hpw Hdiv_h Hdiv_w grad max_pos
              Hgrad Hmp Hrange)
    as (d_in & Hbk & Hd & Hdg).
  exists y. eexists. exists max_pos, d_in.
  split; [exact Hf|]. split; [exact Hy|]. split; [reflexivity|].
  split; [exact Hmg|]. split; [exact Hyg|]. split; [exact Hbk|].
  split; [exact Hd | exact Hdg].
Qed.

End PoolValues.

(** X7: on an applicable call (padded sizes multiples of the strides,
    windows that do not overlap) every entry of the output of
    [MaxPool2D.forward] is the maximum of its window of the zero-padded
    input: it is the value of the cell at the cached position [max_pos],
    which lies inside the window, and no cell of the window is larger. *)
Theorem pool_forward_is_window_max (l : MaxPool2D.t) (x : ndarray)
    (N H W C ph pw sh sw p0 p1 p2 p3 : Z) :
  shape x = [N; H; W; C] ->
  MaxPool2D.pool_size l = (ph, pw) ->
  MaxPool2D.stride l = (sh, sw) ->
  MaxPool2D._get_padding (H, W) (ph, pw) (sh, sw) (MaxPool2D.padding_mode l)
  = Ok (p0, p1, p2, p3) ->
  1 <= N -> 1 <= H -> 1 <= W -> 1 <= C ->
  1 <= ph <= sh -> 1 <= pw <= sw ->
  (p0 + H + p1) mod sh = 0 ->
  (p2 + W + p3) mod sw = 0 ->
  exists y l1 c1,
    MaxPool2D.forward l x = Ok (y, l1)
    /\ shape y = [N; (p0 + H + p1) / sh; (p2 + W + p3) / sw; C]
    /\ MaxPool2D.cache l1 = Some c1
    /\ forall n i j c,
         in_bounds [N; (p0 + H + p1) / sh; (p2 + W + p3) / sw; C]
                   [n; i; j; c] ->
         let m := get (MaxPool2D.c_max_pos c1) [n; i; j; c] in
         0 <= m < ph * pw
         /\ get y [n; i; j; c]
            = zero_padded x H W p0 p2 n (i * sh + m / pw) (j * sw + m mod pw) c
         /\ (forall a b, 0 <= a < ph -> 0 <= b < pw ->
               zero_padded x H W p0 p2 n (i * sh + a) (j * sw + b) c
               <= get y [n; i; j; c]).
Proof.
  intros Hx Hpool Hstride Hpad HN HH HW HC Hph Hpw Hdh Hdw.
  destruct (@pool_forward_full l x N H W C ph pw sh sw p0 p1 p2 p3
              Hx Hpool Hstride Hpad HN HH HW HC Hph Hpw Hdh Hdw)
    as (y & max_pos & Hf & Hy & Hmp & Hmg & Hyg).
  exists y. eexists. eexists.
  split; [exact Hf|]. split; [exact Hy|]. split; [reflexivity|].
  intros n i j c Hin. cbn [MaxPool2D.c_max_pos]. cbv zeta.
  rewrite (Hmg n i j c Hin), (Hyg n i j c Hin).
  set (f := window_value _ sh sw pw n i j c).
  pose proof (@argmax_first_spec f (Z.to_nat (ph * pw)) ltac:(nia))
    as (Hb & Hmax & _).
  rewrite max_of_argmax by nia.
  split; [lia|]. split; [reflexivity|].
  intros a b Ha Hb'.
  specialize (Hmax (a * pw + b) ltac:(nia)).
  unfold f at 1 in Hmax. unfold window_value in Hmax.
  destruct (@div_mod_offset a pw b ltac:(lia)) as [Hq Hr].
  rewrite Hq, Hr in Hmax. exact Hmax.
Qed.

Lemma pool_forward_is_window_max_witness :
  exists y l1 c1,
    MaxPool2D.forward pool22_valid input_1_to_16 = Ok (y, l1)
    /\ shape y = [1; (0 + 4 + 0) / 2; (0 + 4 + 0) / 2; 1]
    /\ MaxPool2D.cache l1 = Some c1
    /\ get (MaxPool2D.c_max_pos c1) [0; 1; 0; 0] = 3
    /\ get y [0; 1; 0; 0] = 14.
Proof.
  destruct (@pool_forward_is_window_max pool22_valid input_1_to_16
              1 4 4 1 2 2 2 2 0 0 0 0
              eq_refl eq_refl eq_refl eq_refl
              ltac:(lia) ltac:(lia) ltac:(lia) ltac:(lia)
              ltac:(lia) ltac:(lia) eq_refl eq_refl)
    as (y & l1 & c1 & Hf & Hy & Hc & Hval).
  exists y, l1, c1.
  split; [exact Hf|]. split; [exact Hy|]. split; [exact Hc|].
  destruct (Hval 0 1 0 0 ltac:(cbn; lia)) as (Hm & Hv & Hle).
  assert (Hm3 : get (MaxPool2D.c_max_pos c1) [0; 1; 0; 0] = 3).
  { pose proof (Hle 1 1 ltac:(lia) ltac:(lia)) as H11.
    rewrite Hv in H11.
    set (m := get (MaxPool2D.c_max_pos c1) [0; 1; 0; 0]) in *.
    assert (Hcases : m = 0 \/ m = 1 \/ m = 2 \/ m = 3) by lia.
    destruct Hcases as [E|[E|[E|E]]]; rewrite E in H11;
      vm_compute in H11; try (exfalso; apply H11; reflexivity).
    exact E. }
  split; [exact Hm3|]. rewrite Hv, Hm3. reflexivity.
Defined.

Lemma backward_keeps_cache_witness :
  exists y l1 d l2 py pl1 pd pl2,
    Conv2D.forward top_left_conv_same input_1_to_9 = Ok (y, l1)
    /\ Conv2D.backward l1 (np_ones [1; 3; 3; 1]) = Ok (d, l2)
    /\ Conv2D.cache l2 = Conv2D.cache l1
    /\ Conv2D.backward l2 (np_ones [1; 3; 3; 1]) = Ok (d, l2)
    /\ MaxPool2D.forward pool22_valid input_1_to_16 = Ok (py, pl1)
    /\ MaxPool2D.backward pl1 (np_ones [1; 2; 2; 1]) = Ok (pd, pl2)
    /\ pl2 = pl1.
Proof.
  destruct (@conv_forward_then_backward top_left_conv_same input_1_to_9
              top_left_kernel (zeros_init 1) 1 3 3 1 2 2 1 1 1 0 1 0 1
              eq_refl eq_refl eq_refl eq_refl eq_refl eq_refl eq_refl eq_refl
              ltac:(lia) ltac:(lia) ltac:(lia) ltac:(lia) ltac:(lia)
              ltac:(lia) ltac:(lia) ltac:(lia) ltac:(lia) ltac:(lia)
              ltac:(lia) (np_ones [1; 3; 3; 1]) eq_refl)
    as (y & l1 & c1 & d & l2 & Hf & _ & _ & _ & _ & Hb & _).
  destruct (@pool_forward_then_backward pool22_valid input_1_to_16
              1 4 4 1 2 2 2 2 0 0 0 0
              eq_refl eq_refl eq_refl eq_refl
              ltac:(lia) ltac:(lia) ltac:(lia) ltac:(lia)
              ltac:(lia) ltac:(lia) eq_refl eq_refl
              (np_ones [1; 2; 2; 1]) eq_refl)
    as (py & pl1 & mp & pd & Hpf & _ & _ & _ & _ & Hpb & _).
  destruct (@backward_keeps_cache l1 l2 pl1 pl1 (np_ones [1; 3; 3; 1]) d
              (np_ones [1; 2; 2; 1]) pd) as [Hc Hp].
  destruct (Hc Hb) as (Hcache & _ & _ & _ & _ & Hagain).
  destruct (Hp Hpb) as (Heq & _).
  exists y, l1, d, l2, py, pl1, pd, pl1.
  split; [exact Hf|]. split; [exact Hb|]. split; [exact Hcache|].
  split; [exact Hagain|]. split; [exact Hpf|]. split; [exact Hpb | exact Heq].
Defined.

(** X8: the cells that SAME padding adds hold zero and take part in the
    maximum: on an applicable call, a window that covers a cell outside
    the image yields an output of at least 0, whatever the input holds
    (an all-negative window next to the border pools to 0). *)
Theorem pool_pad_cells_take_part (l : MaxPool2D.t) (x : ndarray)
    (N H W C ph pw sh sw p0 p1 p2 p3 : Z) :
  shape x = [N; H; W; C] ->
  MaxPool2D.pool_size l = (ph, pw) ->
  MaxPool2D.stride l = (sh, sw) ->
  MaxPool2D._get_padding (H, W) (ph, pw) (sh, sw) (MaxPool2D.padding_mode l)
  = Ok (p0, p1, p2, p3) ->
  1 <= N -> 1 <= H -> 1 <= W -> 1 <= C ->
  1 <= ph <= sh -> 1 <= pw <= sw ->
  (p0 + H + p1) mod sh = 0 ->
  (p2 + W + p3) mod sw = 0 ->
  exists y l1,
    MaxPool2D.forward l x = Ok (y, l1)
    /\ forall n i j c a b,
         in_bounds [N; (p0 + H + p1) / sh; (p2 + W + p3) / sw; C]
                   [n; i; j; c] ->
         0 <= a < ph -> 0 <= b < pw ->
         i * sh + a < p0 \/ p0 + H <= i * sh + a
         \/ j * sw + b < p2 \/ p2 + W <= j * sw + b ->
         0 <= get y [n; i; j; c].
Proof.
  intros Hx Hpool Hstride Hpad HN HH HW HC Hph Hpw Hdh Hdw.
  destruct (@pool_forward_full l x N H W C ph pw sh sw p0 p1 p2 p3
              Hx Hpool Hstride Hpad HN HH HW HC Hph Hpw Hdh Hdw)
    as (y & max_pos & Hf & Hy & Hmp & Hmg & Hyg).
  exists y. eexists. split; [exact Hf|].
  intros n i j c a b Hin Ha Hb Hout.
  rewrite (Hyg n i j c Hin).
  set (f := window_value _ sh sw pw n i j c).
  pose proof (@argmax_first_spec f (Z.to_nat (ph * pw)) ltac:(nia))
    as (_ & Hmax & _).
  rewrite max_of_argmax by nia.
  specialize (Hmax (a * pw + b) ltac:(nia)).
  unfold f at 1 in Hmax. unfold window_value in Hmax.
  destruct (@div_mod_offset a pw b ltac:(lia)) as [Hq Hr].
  rewrite Hq, Hr in Hmax. cbn [get pad_constant] in Hmax.
  replace ((p0 <=? i * sh + a) && (i * sh + a <? p0 + H)
           && (p2 <=? j * sw + b) && (j * sw + b <? p2 + W))
    with false in Hmax; [exact Hmax|].
  symmetry.
  destruct (Z.leb_spec p0 (i * sh + a)); [|reflexivity].
  destruct (Z.ltb_spec (i * sh + a) (p0 + H)); [|reflexivity].
  destruct (Z.leb_spec p2 (j * sw + b)); [|reflexivity].
  destruct (Z.ltb_spec (j * sw + b) (p2 + W)); [|reflexivity].
  lia.
Qed.

Lemma pool_pad_cells_take_part_witness :
  exists y l1,
    MaxPool2D.forward pool22_same
      (of_list4 [[[[-1]; [-2]; [-3]]; [[-4]; [-5]; [-6]]; [[-7]; [-8]; [-9]]]])
    = Ok (y, l1)
    /\ 0 <= get y [0; 1; 1; 0].
Proof.
  destruct (@pool_pad_cells_take_part pool22_same
              (of_list4 [[[[-1]; [-2]; [-3]]; [[-4]; [-5]; [-6]];
                          [[-7]; [-8]; [-9]]]])
              1 3 3 1 2 2 2 2 0 1 0 1
              eq_refl eq_refl eq_refl eq_refl
              ltac:(lia) ltac:(lia) ltac:(lia) ltac:(lia)
              ltac:(lia) ltac:(lia) eq_refl eq_refl)
    as (y & l1 & Hf & Hpos).
  exists y, l1. split; [exact Hf|].
  apply (Hpos 0 1 1 0 1 1); [cbn; lia | lia | lia | lia].
Defined.

Lemma pool_same_padding_1d (n p s : Z) :
  1 <= p <= s ->
  exists a b,
    MaxPool2D._get_padding_1d n p s "SAME" = Ok (a, b)
    /\ (a + n + b) mod s = 0
    /\ (a + n + b) / s = (n + s - 1) / s
    /\ 0 <= a <= b /\ a + b < s.
Proof.
  intros Hp. unfold MaxPool2D._get_padding_1d, pymod.
  cbn [String.eqb Ascii.eqb Bool.eqb].
  destruct (Z.eqb_spec s 0) as [|_]; [lia|]. cbn [bind].
  pose proof (Z.div_mod n s ltac:(lia)) as Hdm.
  pose proof (Z.mod_pos_bound n s ltac:(lia)) as Hr.
  destruct (Z.eqb_spec (n mod s) 0) as [Hz|Hnz]; cbn [bind].
  - replace (Z.max (p - s) 0) with 0 by lia.
    change (0 mod 2 =? 0) with true. cbn.
    exists 0, 0. split; [reflexivity|].
    rewrite !Z.add_0_l, !Z.add_0_r. split; [exact Hz|].
    split; [symmetry; apply ceil_div_exact; lia | lia].
  - replace (Z.max p s) with s by lia.
    set (t := s - n mod s).
    pose proof (Z.div_mod t 2 ltac:(lia)) as Ht.
    pose proof (Z.mod_pos_bound t 2 ltac:(lia)) as Ht2.
    assert (Hsum : forall a b, a + b = t ->
              (a + n + b) mod s = 0
              /\ (a + n + b) / s = (n + s - 1) / s).
    { intros a b Hab.
      replace (a + n + b) with ((n / s + 1) * s) by (unfold t in Hab; lia).
      rewrite Z.mod_mul, Z.div_mul by lia. split; [reflexivity|].
      apply Z.div_unique with (r := n mod s - 1); lia. }
    destruct (Z.eqb_spec (t mod 2) 0) as [He|Ho].
    + exists (t / 2), (t / 2). split; [reflexivity|].
      destruct (Hsum (t / 2) (t / 2) ltac:(lia)) as [H1 H2].
      split; [exact H1|]. split; [exact H2|]. unfold t in *. lia.
    + exists (t / 2), (t / 2 + 1). split; [reflexivity|].
      destruct (Hsum (t / 2) (t / 2 + 1) ltac:(lia)) as [H1 H2].
      split; [exact H1|]. split; [exact H2|]. unfold t in *. lia.
Qed.

(** X9: with SAME padding and windows no larger than the strides,
    [MaxPool2D.forward] returns on every non-empty input: the padding
    makes the padded sizes multiples of the strides, fewer than a stride
    of cells is added per axis, the trailing side getting the larger
    share, and each spatial size of the output is the ceiling of
    in / stride. *)
Theorem pool_same_forward_returns (l : MaxPool2D.t) (x : ndarray)
    (N H W C ph pw sh sw : Z) :
  shape x = [N; H; W; C] ->
  MaxPool2D.pool_size l = (ph, pw) ->
  MaxPool2D.stride l = (sh, sw) ->
  MaxPool2D.padding_mode l = "SAME" ->
  1 <= N -> 1 <= H -> 1 <= W -> 1 <= C ->
  1 <= ph <= sh -> 1 <= pw <= sw ->
  exists p0 p1 p2 p3 y l1,
    MaxPool2D._get_padding (H, W) (ph, pw) (sh, sw) "SAME"
    = Ok (p0, p1, p2, p3)
    /\ 0 <= p0 <= p1 /\ p0 + p1 < sh
    /\ 0 <= p2 <= p3 /\ p2 + p3 < sw
    /\ (p0 + H + p1) mod sh = 0 /\ (p2 + W + p3) mod sw = 0
    /\ MaxPool2D.forward l x = Ok (y, l1)
    /\ shape y = [N; (H + sh - 1) / sh; (W + sw - 1) / sw; C].
Proof.
  intros Hx Hpool Hstride Hmode HN HH HW HC Hph Hpw.
  destruct (@pool_same_padding_1d H ph sh Hph)
    as (p0 & p1 & Hh & Hdh & Hqh & Hh0 & Hh1).
  destruct (@pool_same_padding_1d W pw sw Hpw)
    as (p2 & p3 & Hw & Hdw & Hqw & Hw0 & Hw1).
  assert (Hpad : MaxPool2D._get_padding (H, W) (ph, pw) (sh, sw) "SAME"
                 = Ok (p0, p1, p2, p3)).
  { unfold MaxPool2D._get_padding. cbn [fst snd]. rewrite Hh, Hw.
    reflexivity. }
  assert (Hpad' : MaxPool2D._get_padding (H, W) (ph, pw) (sh, sw)
                    (MaxPool2D.padding_mode l) = Ok (p0, p1, p2, p3))
    by (rewrite Hmode; exact Hpad).
  destruct (@pool_forward_ok l x N H W C ph pw sh sw p0 p1 p2 p3
              Hx Hpool Hstride Hpad' HN HH HW HC Hph Hpw Hdh Hdw)
    as (y & max_pos & Hf & Hy & _).
  exists p0, p1, p2, p3, y. eexists.
  split; [exact Hpad|]. split; [exact Hh0|]. split; [exact Hh1|].
  split; [exact Hw0|]. split; [exact Hw1|].
  split; [exact Hdh|]. split; [exact Hdw|]. split; [exact Hf|].
  rewrite Hy, Hqh, Hqw. reflexivity.
Qed.

Lemma pool_same_forward_returns_witness :
  exists y l1,
    MaxPool2D.forward pool22_same input_1_to_9 = Ok (y, l1)
    /\ shape y = [1; (3 + 2 - 1) / 2; (3 + 2 - 1) / 2; 1].
Proof.
  destruct (@pool_same_forward_returns pool22_same input_1_to_9
              1 3 3 1 2 2 2 2 eq_refl eq_refl eq_refl eq_refl
              ltac:(lia) ltac:(lia) ltac:(lia) ltac:(lia)
              ltac:(lia) ltac:(lia))
    as (p0 & p1 & p2 & p3 & y & l1 & _ & _ & _ & _ & _ & _ & _ & Hf & Hy).
  exists y, l1. split; [exact Hf | exact Hy].
Defined.

Lemma sumZ_indicator (g m : Z) (n : nat) :
  0 <= m < Z.of_nat n ->
  sumZ (fun k => if k =? m then g else 0) n = g.
Proof.
  induction n as [|n IH]; intros Hm; [lia|].
  cbn [sumZ]. destruct (Z.eqb_spec (Z.of_nat n) m) as [He|Hne].
  - rewrite sumZ_zero; [lia|].
    intros k Hk. destruct (Z.eqb_spec k m); [lia | reflexivity].
  - rewrite IH by lia. lia.
Qed.

(** X10: on an applicable call, [MaxPool2D.forward] and then
    [MaxPool2D.backward] on any gradient of the output shape return, and
    [backward] hands the gradient of each output entry to one cell of its
    window, the cell of the first maximum: that cell receives the
    gradient, the other cells of the window receive 0, so do the cells
    between the windows, and the entries of a window add up to the
    gradient of its output entry. *)
Theorem pool_backward_routes_gradient (l : MaxPool2D.t) (x grad : ndarray)
    (N H W C ph pw sh sw p0 p1 p2 p3 : Z) :
  shape x = [N; H; W; C] ->
  MaxPool2D.pool_size l = (ph, pw) ->
  MaxPool2D.stride l = (sh, sw) ->
  MaxPool2D._get_padding (H, W) (ph, pw) (sh, sw) (MaxPool2D.padding_mode l)
  = Ok (p0, p1, p2, p3) ->
  1 <= N -> 1 <= H -> 1 <= W -> 1 <= C ->
  1 <= ph <= sh -> 1 <= pw <= sw ->
  (p0 + H + p1) mod sh = 0 ->
  (p2 + W + p3) mod sw = 0 ->
  shape grad = [N; (p0 + H + p1) / sh; (p2 + W + p3) / sw; C] ->
  exists y l1 d_in,
    MaxPool2D.forward l x = Ok (y, l1)
    /\ MaxPool2D.backward l1 grad = Ok (d_in, l1)
    /\ shape d_in = [N; p0 + H + p1; p2 + W + p3; C]
    /\ (forall n i j c,
          in_bounds [N; (p0 + H + p1) / sh; (p2 + W + p3) / sw; C]
                    [n; i; j; c] ->
          let m := argmax_first
                     (fun k => zero_padded x H W p0 p2 n
                                 (i * sh + k / pw) (j * sw + k mod pw) c)
                     (Z.to_nat (ph * pw)) in
          (forall a b, 0 <= a < ph -> 0 <= b < pw ->
             get d_in [n; i * sh + a; j * sw + b; c]
             = if a * pw + b =? m then get grad [n; i; j; c] else 0)
          /\ sumZ (fun a => sumZ (fun b =>
                     get d_in [n; i * sh + a; j * sw + b; c])
                     (Z.to_nat pw)) (Z.to_nat ph)
             = get grad [n; i; j; c])
    /\ (forall n Y X c,
          in_bounds [N; p0 + H + p1; p2 + W + p3; C] [n; Y; X; c] ->
          ph <= Y mod sh \/ pw <= X mod sw ->
          get d_in [n; Y; X; c] = 0).
Proof.
  intros Hx Hpool Hstride Hpad HN HH HW HC Hph Hpw Hdh Hdw Hg.
  destruct (@pool_forward_then_backward l x N H W C ph pw sh sw p0 p1 p2 p3
              Hx Hpool Hstride Hpad HN HH HW HC Hph Hpw Hdh Hdw grad Hg)
    as (y & l1 & max_pos & d_in & Hf & Hy & Hc & Hmg & Hyg & Hbk & Hd & Hdg).
  destruct (pool_out_dims l Hpad HH HW Hph Hpw Hdh Hdw)
    as (Hoh & How & HPH & HPW).
  exists y, l1, d_in.
  split; [exact Hf|]. split; [exact Hbk|]. split; [exact Hd|]. split.
  - intros n i j c Hin m.
    assert (Hm : get max_pos [n; i; j; c] = m)
      by (rewrite (Hmg n i j c Hin); reflexivity).
    pose proof (@argmax_first_spec
                  (fun k => zero_padded x H W p0 p2 n
                              (i * sh + k / pw) (j * sw + k mod pw) c)
                  (Z.to_nat (ph * pw)) ltac:(nia)) as (Hb & _).
    fold m in Hb.
    destruct Hin as (Hn & Hi & Hj & Hc' & _).
    assert (Hcell : forall a b, 0 <= a < ph -> 0 <= b < pw ->
              get d_in [n; i * sh + a; j * sw + b; c]
              = if a * pw + b =? m then get grad [n; i; j; c] else 0).
    { intros a b Ha Hb'.
      rewrite Hdg by (cbn [in_bounds]; nia).
      destruct (@div_mod_offset i sh a ltac:(lia)) as [-> ->].
      destruct (@div_mod_offset j sw b ltac:(lia)) as [-> ->].
      destruct (Z.ltb_spec a ph); [|lia]. destruct (Z.ltb_spec b pw); [|lia].
      cbn [andb]. rewrite Hm.
      destruct (a * pw + b =? m); lia. }
    split; [exact Hcell|].
    pose proof (sumZ_prod2
                  (fun k => if k =? m then get grad [n; i; j; c] else 0)
                  (Z.to_nat ph) (Z.to_nat pw)) as Hflat.
    cbv beta in Hflat.
    transitivity
      (sumZ (fun a => sumZ (fun b =>
         if a * Z.of_nat (Z.to_nat pw) + b =? m
         then get grad [n; i; j; c] else 0)
         (Z.to_nat pw)) (Z.to_nat ph)).
    { apply sumZ_ext. intros a Ha. apply sumZ_ext. intros b Hb'.
      rewrite Hcell by lia. rewrite Z2Nat.id by lia. reflexivity. }
    rewrite <- Hflat. apply sumZ_indicator. lia.
  - intros n Y X c Hin Hout. rewrite Hdg by exact Hin.
    destruct (Z.ltb_spec (Y mod sh) ph), (Z.ltb_spec (X mod sw) pw);
      cbn [andb]; try reflexivity. lia.
Qed.

Lemma pool_backward_routes_gradient_witness :
  exists y l1 d_in,
    MaxPool2D.forward pool22_valid input_1_to_16 = Ok (y, l1)
    /\ MaxPool2D.backward l1 (of_list4 [[[[10]; [20]]; [[30]; [40]]]])
       = Ok (d_in, l1)
    /\ get d_in [0; 1; 3; 0] = 20
    /\ get d_in [0; 0; 3; 0] = 0.
Proof.
  destruct (@pool_backward_routes_gradient pool22_valid input_1_to_16
              (of_list4 [[[[10]; [20]]; [[30]; [40]]]])
              1 4 4 1 2 2 2 2 0 0 0 0
              eq_refl eq_refl eq_refl eq_refl
              ltac:(lia) ltac:(lia) ltac:(lia) ltac:(lia)
              ltac:(lia) ltac:(lia) eq_refl eq_refl eq_refl)
    as (y & l1 & d_in & Hf & Hb & _ & Hwin & _).
  exists y, l1, d_in. split; [exact Hf|]. split; [exact Hb|].
  destruct (Hwin 0 0 1 0 ltac:(cbn; lia)) as (Hcell & _).
  split.
  - exact (Hcell 1 1 ltac:(lia) ltac:(lia)).
  - exact (Hcell 0 1 ltac:(lia) ltac:(lia)).
Defined.

(* ------------------------------------------------------------------ *)
(** ** Calls on which the layers raise *)

(** X11: pooling windows larger than the stride break [backward].  When
    [MaxPool2D.forward] returns on a layer whose pool is higher than the
    vertical stride or wider than the horizontal stride, the following
    [backward] raises on every gradient: the block of the last window is
    cut off by the border, and the block assignment fails. *)
Theorem pool_backward_raises_on_overlap (l l1 : MaxPool2D.t)
    (x y grad : ndarray) (N H W C ph pw sh sw p0 p1 p2 p3 : Z) :
  shape x = [N; H; W; C] ->
  0 <= N /\ 0 <= H /\ 0 <= W /\ 0 <= C ->
  MaxPool2D.pool_size l = (ph, pw) ->
  1 <= ph -> 1 <= pw ->
  MaxPool2D.stride l = (sh, sw) ->
  MaxPool2D._get_padding (H, W) (ph, pw) (sh, sw) (MaxPool2D.padding_mode l)
  = Ok (p0, p1, p2, p3) ->
  MaxPool2D.forward l x = Ok (y, l1) ->
  sh < ph \/ sw < pw ->
  raises (MaxPool2D.backward l1 grad).
Proof.
  intros Hx Hdims Hpool Hph Hpw Hstride Hpad Hf Hover.
  destruct (MaxPool2D.backward l1 grad) as [[d_in l2]|e] eqn:Hb.
  - exfalso.
    pose proof (@pool_backward_needs_disjoint_windows l l1 l2 x y grad d_in
                  N H W C ph pw sh sw p0 p1 p2 p3
                  Hx Hdims Hpool Hph Hpw Hstride Hpad Hf Hb).
    lia.
  - exists e. reflexivity.
Qed.

Lemma pool_backward_raises_on_overlap_witness :
  exists y l1,
    MaxPool2D.forward (MaxPool2D.mk (3, 3) (2, 2) "VALID" None) input_1_to_16
    = Ok (y, l1)
    /\ raises (MaxPool2D.backward l1 (np_ones [1; 2; 2; 1])).
Proof.
  assert (Hobs : observe (MaxPool2D.forward
                            (MaxPool2D.mk (3, 3) (2, 2) "VALID" None)
                            input_1_to_16)
                 = Ok ([1; 2; 2; 1], [[[[11]; [12]]; [[15]; [16]]]]))
    by (vm_compute; reflexivity).
  destruct (MaxPool2D.forward (MaxPool2D.mk (3, 3) (2, 2) "VALID" None)
              input_1_to_16) as [[y l1]|e] eqn:Hf.
  - exists y, l1. split; [reflexivity|].
    apply (@pool_backward_raises_on_overlap
             (MaxPool2D.mk (3, 3) (2, 2) "VALID" None) l1 input_1_to_16 y
             (np_ones [1; 2; 2; 1]) 1 4 4 1 3 3 2 2 0 0 0 0);
      try reflexivity; try lia; try exact Hf.
  - exfalso. cbn in Hobs. congruence.
Defined.

(** X12: neither constructor checks the strides, and a zero stride makes
    [forward] raise [ZeroDivisionError].  For every supported padding
    mode, [Conv2D(...)] and [MaxPool2D(...)] with a stride that is 0 on
    an axis return a layer that stores the stride as given, and
    [forward] on that layer raises on every rank-4 input of positive
    height and width: in [Conv2D.forward] where the output size is
    computed, in [MaxPool2D.forward] in the padding calculator (SAME) or
    where the output size is computed (VALID).  The same holds of any
    layer whose stored stride has a 0, whatever else it holds. *)
Theorem forward_zero_stride (x : ndarray) (N H W C kh kw c oc sh sw : Z)
    (pool : Z * Z) (cmode pmode : string)
    (w_init : Z * Z * Z * Z -> ndarray) (b_init : Z -> ndarray) :
  shape x = [N; H; W; C] ->
  1 <= H -> 1 <= W ->
  sh = 0 \/ sw = 0 ->
  1 <= kh -> 1 <= kw ->
  cmode = "FULL" \/ cmode = "SAME" \/ cmode = "VALID" ->
  pmode = "VALID" \/ pmode = "SAME" ->
  (exists cl,
     Conv2D.__init__ (kh, kw, c, oc) (sh, sw) cmode w_init b_init = Ok cl
     /\ Conv2D.stride cl = (sh, sw)
     /\ Conv2D.forward cl x = Raise "ZeroDivisionError")
  /\ (exists pl,
        MaxPool2D.__init__ pool (sh, sw) pmode = Ok pl
        /\ MaxPool2D.stride pl = (sh, sw)
        /\ MaxPool2D.forward pl x = Raise "ZeroDivisionError")
  /\ (forall cl p0 p1 p2 p3,
        Conv2D.kernel cl = (kh, kw, c, oc) ->
        Conv2D.stride cl = (sh, sw) ->
        Conv2D._get_padding (kh, kw) (Conv2D.padding_mode cl)
        = Some (p0, p1, p2, p3) ->
        Conv2D.forward cl x = Raise "ZeroDivisionError")
  /\ (forall pl,
        MaxPool2D.stride pl = (sh, sw) ->
        MaxPool2D.forward pl x = Raise "ZeroDivisionError").
Proof.
  intros Hx HH HW Hz Hkh Hkw Hcmode Hpmode.
  assert (Hconv : forall cl p0 p1 p2 p3,
            Conv2D.kernel cl = (kh, kw, c, oc) ->
            Conv2D.stride cl = (sh, sw) ->
            Conv2D._get_padding (kh, kw) (Conv2D.padding_mode cl)
            = Some (p0, p1, p2, p3) ->
            Conv2D.forward cl x = Raise "ZeroDivisionError").
  { intros cl p0 p1 p2 p3 Hk Hs Hpad.
    destruct (conv_pad_nonneg cl Hpad Hkh Hkw) as (Hp0 & Hp1 & Hp2 & Hp3).
    destruct (lazy_init_fields cl Hk Hs) as (Hk' & Hs' & Hm').
    unfold Conv2D.forward. cbv zeta.
    rewrite Hk', Hs', Hm', Hpad.
    rewrite (@np_pad_edge_ok x N H W C) by auto.
    cbn [bind]. rewrite Hx. cbn [shape pad_edge].
    unfold int_div_plus_one.
    destruct (Z.eqb_spec sh 0) as [|Hsh]; [reflexivity|].
    destruct (Z.eqb_spec sw 0) as [|Hsw]; [reflexivity | lia]. }
  assert (Hpool : forall pl,
            MaxPool2D.stride pl = (sh, sw) ->
            MaxPool2D.forward pl x = Raise "ZeroDivisionError").
  { intros pl Hs. unfold MaxPool2D.forward. rewrite Hx, Hs.
    unfold MaxPool2D._get_padding, MaxPool2D._get_padding_1d, pymod.
    cbn [fst snd].
    destruct (String.eqb (MaxPool2D.padding_mode pl) "SAME").
    + destruct (Z.eqb_spec sh 0) as [|Hsh]; [reflexivity|].
      destruct (Z.eqb_spec sw 0) as [|Hsw]; [|lia].
      cbn [bind].
      destruct (H mod sh =? 0); cbn [bind]; reflexivity.
    + cbn [bind]. change (0 mod 2 =? 0) with true. cbn [fst snd].
      change (0 / 2) with 0.
      rewrite (@np_pad_constant_ok x N H W C) by (auto; lia).
      cbn [bind shape pad_constant].
      destruct (MaxPool2D.pool_size pl) as [ph pw].
      unfold floordiv.
      destruct (Z.eqb_spec sh 0) as [|Hsh]; [reflexivity|].
      destruct (Z.eqb_spec sw 0) as [|Hsw]; [reflexivity | lia]. }
  split; [|split; [|split; [exact Hconv | exact Hpool]]].
  - exists (Conv2D.mk cmode (kh, kw, c, oc) (sh, sw) w_init b_init
                      false None None None None None).
    split.
    { unfold Conv2D.__init__.
      destruct Hcmode as [->|[->| ->]]; reflexivity. }
    split; [reflexivity|].
    destruct (Conv2D._get_padding (kh, kw) cmode)
      as [[[[p0 p1] p2] p3]|] eqn:Hpad.
    + apply (Hconv _ p0 p1 p2 p3); [reflexivity | reflexivity | exact Hpad].
    + exfalso. destruct Hcmode as [->|[->| ->]]; discriminate Hpad.
  - exists (MaxPool2D.mk pool (sh, sw) pmode None).
    split.
    { unfold MaxPool2D.__init__.
      destruct Hpmode as [->| ->]; reflexivity. }
    split; [reflexivity|]. apply Hpool. reflexivity.
Qed.

Lemma forward_zero_stride_witness :
  (exists cl,
     Conv2D.__init__ (2, 2, 1, 1) (0, 1) "VALID"
                     (fun _ => top_left_kernel) zeros_init = Ok cl
     /\ Conv2D.stride cl = (0, 1)
     /\ Conv2D.forward cl input_1_to_9 = Raise "ZeroDivisionError")
  /\ (exists pl,
        MaxPool2D.__init__ (2, 2) (0, 1) "SAME" = Ok pl
        /\ MaxPool2D.stride pl = (0, 1)
        /\ MaxPool2D.forward pl input_1_to_9 = Raise "ZeroDivisionError").
Proof.
  destruct (@forward_zero_stride input_1_to_9 1 3 3 1 2 2 1 1 0 1
              (2, 2) "VALID" "SAME" (fun _ => top_left_kernel) zeros_init
              eq_refl ltac:(lia) ltac:(lia) ltac:(left; reflexivity)
              ltac:(lia) ltac:(lia)
              ltac:(right; right; reflexivity) ltac:(right; reflexivity))
    as (Hc & Hp & _).
  split; [exact Hc | exact Hp].
Defined.

(* ------------------------------------------------------------------ *)
(** ** Flatten *)

Lemma prod_positive (sh : list Z) : Forall (fun d => 0 < d) sh -> 0 < prod sh.
Proof.
  induction 1 as [|d sh Hd _ IH]; [reflexivity|].
  cbn [prod fold_right]. fold (prod sh). nia.
Qed.

Lemma unravel_in_bounds (sh : list Z) (k : Z) :
  Forall (fun d => 0 < d) sh -> 0 <= k < prod sh ->
  in_bounds sh (unravel sh k) /\ ravel sh (unravel sh k) = k.
Proof.
  intros Hsh. revert k. induction Hsh as [|d sh Hd Hsh IH]; intros k Hk.
  - cbn. unfold prod, fold_right in Hk. split; [exact I | lia].
  - cbn [unravel ravel in_bounds].
    pose proof (prod_positive Hsh) as HP.
    cbn [prod fold_right] in Hk. fold (prod sh) in Hk.
    pose proof (Z.div_mod k (prod sh) ltac:(lia)) as Hdm.
    pose proof (Z.mod_pos_bound k (prod sh) HP) as Hm.
    destruct (IH (k mod prod sh) Hm) as [Hb Hr].
    assert (Hq : 0 <= k / prod sh < d).
    { split; [apply Z.div_pos; lia|].
      apply Z.div_lt_upper_bound; [lia | nia]. }
    split; [split; assumption|]. rewrite Hr. lia.
Qed.

Section FlattenCall.

Variables (l : Flatten.t) (x : ndarray) (d0 : Z) (rest : list Z).

Hypothesis Hx : shape x = d0 :: rest.
Hypothesis Hd0 : 1 <= d0.
Hypothesis Hrest : Forall (fun d => 0 < d) rest.

Lemma flatten_forward_ok :
  Flatten.forward l x
  = Ok (reshaped (np_ravel x) [d0; prod rest], Flatten.mk (Some (d0 :: rest)))
  /\ forall n k, 0 <= n < d0 -> 0 <= k < prod rest ->
       get (reshaped (np_ravel x) [d0; prod rest]) [n; k]
       = get x (n :: unravel rest k).
Proof.
  pose proof (prod_positive Hrest) as HP.
  assert (Hsz : size x = d0 * prod rest).
  { unfold size. rewrite Hx. reflexivity. }
  split.
  - unfold Flatten.forward, shape_at. rewrite Hx. cbn [nth_error bind].
    assert (Hs : size (np_ravel x) = prod rest * d0).
    { unfold size, np_ravel, reshaped, shape at 1. fold (size x).
      rewrite Hsz. unfold prod at 1. unfold fold_right at 1. lia. }
    rewrite reshape_infer_last; rewrite ?Hs, ?Z.div_mul, ?Z.mod_mul; try lia.
    reflexivity.
  - intros n k Hn Hk. cbn [get reshaped np_ravel shape]. rewrite Hx.
    assert (E1 : ravel [d0; prod rest] [n; k] = n * prod rest + k).
    { cbn [ravel]. change (prod [prod rest]) with (prod rest * 1).
      change (prod []) with 1. lia. }
    assert (E2 : forall t, ravel [size x] (unravel [size x] t) = t).
    { intros t. cbn [ravel unravel]. change (prod []) with 1.
      rewrite Z.div_1_r. lia. }
    rewrite E1, E2. cbn [unravel].
    destruct (@div_mod_offset n (prod rest) k ltac:(lia)) as [-> ->].
    reflexivity.
Qed.

End FlattenCall.

(** X13: [Flatten.forward] on a non-empty input of shape (d0, rest...)
    returns the (d0, prod rest) matrix whose row n holds the entries of
    sample n in row-major order, and [Flatten.backward] undoes it:
    applied to the output it returns a tensor with the shape and the
    entries of the input, and applied to any gradient of the output shape
    it puts entry (n, k) back at the multi-index of offset k in sample
    n. *)
Theorem flatten_round_trip (l : Flatten.t) (x g : ndarray) (d0 : Z)
    (rest : list Z) :
  shape x = d0 :: rest -> 1 <= d0 -> Forall (fun d => 0 < d) rest ->
  shape g = [d0; prod rest] ->
  exists y l1 x' d_in,
    Flatten.forward l x = Ok (y, l1)
    /\ shape y = [d0; prod rest]
    /\ (forall n r, 0 <= n < d0 -> in_bounds rest r ->
          get y [n; ravel rest r] = get x (n :: r))
    /\ Flatten.backward l1 y = Ok (x', l1)
    /\ shape x' = shape x
    /\ (forall idx, in_bounds (shape x) idx -> get x' idx = get x idx)
    /\ Flatten.backward l1 g = Ok (d_in, l1)
    /\ shape d_in = shape x
    /\ (forall n r, 0 <= n < d0 -> in_bounds rest r ->
          get d_in (n :: r) = get g [n; ravel rest r]).
Proof.
  intros Hx Hd0 Hrest Hg.
  destruct (@flatten_forward_ok l x d0 rest Hx Hd0 Hrest) as [Hf Hval].
  pose proof (prod_positive Hrest) as HP.
  set (y := reshaped (np_ravel x) [d0; prod rest]) in *.
  assert (Hback : forall a, shape a = [d0; prod rest] ->
            Flatten.backward (Flatten.mk (Some (d0 :: rest))) a
            = Ok (reshaped a (d0 :: rest), Flatten.mk (Some (d0 :: rest)))
            /\ forall n r, 0 <= n < d0 -> in_bounds rest r ->
                 get (reshaped a (d0 :: rest)) (n :: r)
                 = get a [n; ravel rest r]).
  { intros a Ha. split.
    - unfold Flatten.backward. cbn [Flatten.input_shape].
      rewrite reshape_plain; [reflexivity| |].
      + constructor; [lia|]. eapply Forall_impl; [|exact Hrest].
        cbn. lia.
      + unfold size. rewrite Ha. cbn [prod fold_right]. fold (prod rest). lia.
    - intros n r Hn Hr. cbn [get reshaped]. rewrite Ha.
      pose proof (ravel_bound _ _ Hr) as Hk.
      replace (ravel (d0 :: rest) (n :: r))
        with (ravel [d0; prod rest] [n; ravel rest r])
        by (cbn [ravel]; change (prod [prod rest]) with (prod rest * 1);
            change (prod []) with 1; lia).
      rewrite unravel_ravel by (cbn [in_bounds]; lia). reflexivity. }
  destruct (Hback y eq_refl) as [Hby Hbyv].
  destruct (Hback g Hg) as [Hbg Hbgv].
  exists y. eexists. eexists. eexists.
  split; [exact Hf|]. split; [reflexivity|]. split.
  { intros n r Hn Hr. pose proof (ravel_bound _ _ Hr) as Hk.
    rewrite Hval by lia. rewrite unravel_ravel by exact Hr. reflexivity. }
  split; [exact Hby|]. split; [symmetry; exact Hx|]. split.
  { intros idx Hin. rewrite Hx in Hin.
    destruct idx as [|n r]; [destruct Hin|]. destruct Hin as [Hn Hr].
    rewrite Hbyv by assumption.
    pose proof (ravel_bound _ _ Hr) as Hk.
    rewrite Hval by lia. rewrite unravel_ravel by exact Hr. reflexivity. }
  split; [exact Hbg|]. split; [symmetry; exact Hx | exact Hbgv].
Qed.

Lemma flatten_round_trip_witness :
  exists y l1 x',
    Flatten.forward Flatten.__init__ input_1_to_9 = Ok (y, l1)
    /\ shape y = [1; 9]
    /\ get y [0; 5] = 6
    /\ Flatten.backward l1 y = Ok (x', l1)
    /\ shape x' = [1; 3; 3; 1]
    /\ get x' [0; 1; 2; 0] = 6.
Proof.
  destruct (@flatten_round_trip Flatten.__init__ input_1_to_9
              (np_ones [1; 9]) 1 [3; 3; 1] eq_refl ltac:(lia)
              ltac:(repeat constructor) eq_refl)
    as (y & l1 & x' & d_in & Hf & Hy & Hyv & Hb & Hs & Hv & _).
  exists y, l1, x'. split; [exact Hf|]. split; [exact Hy|].
  split; [exact (Hyv 0 [1; 2; 0] ltac:(lia) ltac:(cbn; lia))|].
  split; [exact Hb|]. split; [exact Hs|].
  rewrite (Hv [0; 1; 2; 0]) by (cbn; lia). reflexivity.
Defined.

(** X14: after a [Flatten.forward] on a non-empty input,
    [Flatten.backward] accepts exactly the gradients that hold as many
    entries as that input, whatever their shape, and gives them the shape
    of the input; on any other gradient it raises [ValueError]. *)
Theorem flatten_backward_checks_size_only (l : Flatten.t) (x g : ndarray)
    (d0 : Z) (rest : list Z) :
  shape x = d0 :: rest -> 1 <= d0 -> Forall (fun d => 0 < d) rest ->
  exists y l1,
    Flatten.forward l x = Ok (y, l1)
    /\ (size g = size x ->
        exists d_in, Flatten.backward l1 g = Ok (d_in, l1)
                     /\ shape d_in = shape x)
    /\ (size g <> size x -> Flatten.backward l1 g = Raise "ValueError").
Proof.
  intros Hx Hd0 Hrest.
  destruct (@flatten_forward_ok l x d0 rest Hx Hd0 Hrest) as [Hf _].
  assert (Hnn : Forall (fun d => 0 <= d) (d0 :: rest)).
  { constructor; [lia|]. eapply Forall_impl; [|exact Hrest]. cbn. lia. }
  eexists. eexists. split; [exact Hf|]. split.
  - intros Hs. eexists. unfold Flatten.backward. cbn [Flatten.input_shape].
    rewrite reshape_plain; [split; [reflexivity | symmetry; exact Hx] | exact Hnn |].
    rewrite Hs. unfold size. rewrite Hx. reflexivity.
  - intros Hs. unfold Flatten.backward. cbn [Flatten.input_shape].
    unfold reshape.
    replace (forallb (fun d => -1 <=? d) (d0 :: rest)) with true.
    2:{ symmetry. apply forallb_forall. intros d Hd.
        rewrite Forall_forall in Hnn. specialize (Hnn d Hd). lia. }
    cbn [guard bind]. rewrite infer_shape_plain by exact Hnn. cbn [bind].
    destruct (Z.eqb_spec (prod (d0 :: rest)) (size g)) as [E|_].
    + exfalso. apply Hs. rewrite <- E. unfold size. rewrite Hx. reflexivity.
    + reflexivity.
Qed.

Lemma flatten_backward_checks_size_only_witness :
  exists y l1,
    Flatten.forward Flatten.__init__ input_1_to_9 = Ok (y, l1)
    /\ (exists d_in, Flatten.backward l1 (np_ones [3; 3]) = Ok (d_in, l1)
                     /\ shape d_in = [1; 3; 3; 1])
    /\ Flatten.backward l1 (np_ones [1; 8]) = Raise "ValueError".
Proof.
  destruct (@flatten_backward_checks_size_only Flatten.__init__ input_1_to_9
              (np_ones [3; 3]) 1 [3; 3; 1] eq_refl ltac:(lia)
              ltac:(repeat constructor))
    as (y & l1 & Hf & Hok & _).
  destruct (@flatten_backward_checks_size_only Flatten.__init__ input_1_to_9
              (np_ones [1; 8]) 1 [3; 3; 1] eq_refl ltac:(lia)
              ltac:(repeat constructor))
    as (y' & l1' & Hf' & _ & Hbad).
  rewrite Hf in Hf'. injection Hf' as <- <-.
  exists y, l1. split; [exact Hf|]. split.
  - apply Hok. reflexivity.
  - apply Hbad. vm_compute. lia.
Defined.

(** X15: [Flatten.forward] cannot flatten an empty batch: on an input
    whose first axis has length 0 the reshape to (0, -1) raises
    [ValueError], and on an input of rank 0 reading [shape[0]] raises
    [IndexError]; an input that is empty along a later axis only is
    flattened to d0 rows of length 0. *)
Theorem flatten_forward_empty_batch (l : Flatten.t) (x : ndarray)
    (d0 : Z) (rest : list Z) :
  (shape x = 0 :: rest -> Flatten.forward l x = Raise "ValueError")
  /\ (shape x = [] -> Flatten.forward l x = Raise "IndexError")
  /\ (shape x = d0 :: rest -> 1 <= d0 -> prod rest = 0 ->
      exists y l1, Flatten.forward l x = Ok (y, l1) /\ shape y = [d0; 0]).
Proof.
  split; [|split].
  - intros Hx. unfold Flatten.forward, shape_at. rewrite Hx.
    cbn [nth_error bind]. unfold reshape.
    cbn [forallb Z.leb Z.compare andb guard bind]. reflexivity.
  - intros Hx. unfold Flatten.forward, shape_at. rewrite Hx. reflexivity.
  - intros Hx Hd0 Hz. unfold Flatten.forward, shape_at. rewrite Hx.
    cbn [nth_error bind].
    assert (Hs : size (np_ravel x) = 0).
    { unfold size, np_ravel, reshaped, shape at 1. fold (size x).
      unfold size. rewrite Hx. cbn [prod fold_right]. fold (prod rest).
      rewrite Hz. lia. }
    rewrite reshape_infer_last; rewrite ?Hs; try lia; [|apply Z.mod_0_l; lia].
    rewrite Z.div_0_l by lia.
    eexists. eexists. split; reflexivity.
Qed.

Lemma flatten_forward_empty_batch_witness :
  Flatten.forward Flatten.__init__ (np_ones [0; 3; 3; 1]) = Raise "ValueError"
  /\ Flatten.forward Flatten.__init__ (np_ones []) = Raise "IndexError"
  /\ exists y l1,
       Flatten.forward Flatten.__init__ (np_ones [2; 0; 3]) = Ok (y, l1)
       /\ shape y = [2; 0].
Proof.
  destruct (@flatten_forward_empty_batch Flatten.__init__
              (np_ones [0; 3; 3; 1]) 0 [3; 3; 1]) as (H1 & _ & _).
  destruct (@flatten_forward_empty_batch Flatten.__init__
              (np_ones []) 0 []) as (_ & H2 & _).
  destruct (@flatten_forward_empty_batch Flatten.__init__
              (np_ones [2; 0; 3]) 2 [0; 3]) as (_ & _ & H3).
  split; [exact (H1 eq_refl)|]. split; [exact (H2 eq_refl)|].
  apply H3; [reflexivity | lia | reflexivity].
Defined.

(* ------------------------------------------------------------------ *)
(** ** Dense *)

Lemma matmul_nd_2d (a b : ndarray) (n k m : Z) :
  shape a = [n; k] -> shape b = [k; m] ->
  exists r, matmul_nd a b = Ok r
            /\ shape r = [n; m]
            /\ forall i j, get r [i; j]
                 = sumZ (fun t => get a [i; t] * get b [t; j]) (Z.to_nat k).
Proof.
  intros Ha Hb. unfold matmul_nd. rewrite Ha, Hb. cbn [rev app].
  rewrite Z.eqb_refl. cbn [guard bind broadcast_rev].
  eexists. split; [reflexivity|]. split; [reflexivity|].
  intros i j. reflexivity.
Qed.

Lemma np_T_2d (a : ndarray) (n k : Z) :
  shape a = [n; k] ->
  exists r, np_T a = Ok r /\ shape r = [k; n]
            /\ forall i j, get r [i; j] = get a [j; i].
Proof.
  intros Ha. unfold np_T, ndim. rewrite Ha. cbn [List.length seq rev app].
  rewrite transpose_ok by (unfold ndim; rewrite Ha; reflexivity).
  eexists. split; [reflexivity|].
  unfold transposed, ndim. rewrite Ha. split; reflexivity.
Qed.

Lemma np_add_row (a b : ndarray) (n m : Z) :
  shape a = [n; m] -> shape b = [1; m] ->
  exists r, np_add a b = Ok r /\ shape r = [n; m]
            /\ forall i j, 0 <= i < n -> 0 <= j < m ->
                 get r [i; j] = get a [i; j] + get b [0; j].
Proof.
  intros Ha Hb. unfold np_add. rewrite Ha, Hb. cbn [rev app broadcast_rev].
  rewrite Z.eqb_refl. cbn [bind].
  assert (Hd : (if n =? 1 then Ok n
                else if n =? 1 then Ok 1
                else if 1 =? 1 then Ok n else Raise "ValueError") = Ok n).
  { destruct (Z.eqb_spec n 1); reflexivity. }
  rewrite Hd. cbn [bind rev app].
  eexists. split; [reflexivity|]. split; [reflexivity|].
  intros i j Hi Hj. cbn [get added]. rewrite Ha, Hb.
  rewrite bcast_index_id by (cbn [in_bounds]; lia).
  f_equal. f_equal. unfold bcast_index.
  cbn [List.length Nat.sub skipn combine map fst snd].
  change (1 =? 1) with true. cbn match.
  destruct (Z.eqb_spec m 1); [f_equal; f_equal; lia | reflexivity].
Qed.

(** The layer [l], holding the parameters [w] of shape (I, O) and [b] of
    shape (1, O) once it is initialized for the input [x] of shape
    (N, I). *)

Section DenseCall.

Variables (l l' : Dense.t) (x w b : ndarray) (N I O : Z).

Hypothesis Hx : shape x = [N; I].
Hypothesis Hinit : Dense.lazy_init l x = Ok l'.
Hypothesis Hw : Dense.params_w l' = Some w.
Hypothesis Hb : Dense.params_b l' = Some b.
Hypothesis Hws : shape w = [I; O].
Hypothesis Hbs : shape b = [1; O].

Lemma dense_forward_ok :
  exists y,
    Dense.forward l x = Ok (y, Dense.set_inputs l' x)
    /\ shape y = [N; O]
    /\ forall n o, 0 <= n < N -> 0 <= o < O ->
         get y [n; o]
         = sumZ (fun k => get x [n; k] * get w [k; o]) (Z.to_nat I)
           + get b [0; o].
Proof.
  unfold Dense.forward. rewrite Hinit. cbn [bind].
  cbn [Dense.params_w Dense.params_b Dense.set_inputs]. rewrite Hw, Hb.
  destruct (@matmul_nd_2d x w N I O Hx Hws) as (xw & -> & Hxws & Hxwv).
  cbn [bind].
  destruct (@np_add_row xw b N O Hxws Hbs) as (y & -> & Hys & Hyv).
  cbn [bind]. exists y. split; [reflexivity|]. split; [exact Hys|].
  intros n o Hn Ho. rewrite Hyv by assumption. rewrite Hxwv. reflexivity.
Qed.

Variable grad : ndarray.
Hypothesis Hgrad : shape grad = [N; O].

Lemma dense_backward_ok :
  exists d_in gw gb,
    Dense.backward (Dense.set_inputs l' x) grad
    = Ok (d_in, Dense.set_grads (Dense.set_inputs l' x) gw gb)
    /\ shape d_in = [N; I]
    /\ (forall n k, get d_in [n; k]
          = sumZ (fun o => get grad [n; o] * get w [k; o]) (Z.to_nat O))
    /\ shape gw = [I; O]
    /\ (forall k o, get gw [k; o]
          = sumZ (fun n => get x [n; k] * get grad [n; o]) (Z.to_nat N))
    /\ shape gb = [O]
    /\ (forall o, get gb [o]
          = sumZ (fun n => get grad [n; o]) (Z.to_nat N)).
Proof.
  unfold Dense.backward. cbn [Dense.inputs Dense.set_inputs].
  destruct (@np_T_2d x N I Hx) as (xT & -> & HxTs & HxTv). cbn [bind].
  destruct (@matmul_nd_2d xT grad I N O HxTs Hgrad) as (gw & -> & Hgws & Hgwv).
  cbn [bind]. unfold np_sum0. rewrite Hgrad. cbn [bind].
  cbn [Dense.params_w Dense.set_grads Dense.set_inputs]. rewrite Hw.
  destruct (@np_T_2d w I O Hws) as (wT & -> & HwTs & HwTv). cbn [bind].
  destruct (@matmul_nd_2d grad wT N O I Hgrad HwTs) as (d & -> & Hds & Hdv).
  cbn [bind]. eexists _, _, _. split; [reflexivity|].
  split; [exact Hds|]. split.
  { intros n k. rewrite Hdv. apply sumZ_ext. intros o _.
    rewrite HwTv. reflexivity. }
  split; [exact Hgws|]. split.
  { intros k o. rewrite Hgwv. apply sumZ_ext. intros n _.
    rewrite HxTv. reflexivity. }
  split; reflexivity.
Qed.

End DenseCall.

(** X16: on a rank-2 input of shape (N, I), a dense layer that holds (or,
    on its first call, draws from its initializers) a weight of shape
    (I, O) and a bias of shape (1, O) returns the affine map of the
    input: an (N, O) matrix whose entry (n, o) is the sum over k of
    x(n, k) * w(k, o), plus b(0, o).  The layer keeps the input for
    [backward]. *)
Theorem dense_forward_affine (l l' : Dense.t) (x w b : ndarray) (N I O : Z) :
  shape x = [N; I] ->
  Dense.lazy_init l x = Ok l' ->
  Dense.params_w l' = Some w ->
  Dense.params_b l' = Some b ->
  shape w = [I; O] ->
  shape b = [1; O] ->
  exists y l1,
    Dense.forward l x = Ok (y, l1)
    /\ shape y = [N; O]
    /\ (forall n o, 0 <= n < N -> 0 <= o < O ->
          get y [n; o]
          = sumZ (fun k => get x [n; k] * get w [k; o]) (Z.to_nat I)
            + get b [0; o])
    /\ Dense.inputs l1 = Some x
    /\ Dense.params_w l1 = Some w
    /\ Dense.params_b l1 = Some b
    /\ Dense.is_init l1 = Dense.is_init l'.
Proof.
  intros Hx Hinit Hw Hb Hws Hbs.
  destruct (@dense_forward_ok l l' x w b N I O Hx Hinit Hw Hb Hws Hbs)
    as (y & Hf & Hy & Hv).
  exists y. eexists. split; [exact Hf|]. split; [exact Hy|].
  split; [exact Hv|]. split; [reflexivity|].
  split; [exact Hw|]. split; [exact Hb | reflexivity].
Qed.

Lemma dense_forward_affine_witness :
  exists y l1,
    Dense.forward dense_ones (of_list2 [[1; 2; 3]; [4; 5; 6]]) = Ok (y, l1)
    /\ shape y = [2; 2]
    /\ get y [1; 0] = 16
    /\ Dense.params_w l1 = Some (np_ones [3; 2]).
Proof.
  destruct (@dense_forward_affine dense_ones
              (Dense._init_parameters dense_ones 3)
              (of_list2 [[1; 2; 3]; [4; 5; 6]])
              (np_ones [3; 2]) (np_ones [1; 2]) 2 3 2
              eq_refl eq_refl eq_refl eq_refl eq_refl eq_refl)
    as (y & l1 & Hf & Hy & Hv & _ & Hw & _).
  exists y, l1. split; [exact Hf|]. split; [exact Hy|].
  split; [|exact Hw].
  rewrite (Hv 1 0) by lia. reflexivity.
Defined.

(** X17: [Dense.forward] and then [Dense.backward] on a gradient of the
    output shape (N, O) return; [backward] returns the (N, I) matrix
    grad @ w.T and stores [grads["w"]] = x.T @ grad, of the shape (I, O)
    of the weight, and [grads["b"]] = the column sums of [grad], a vector
    of shape (O,) although the bias has shape (1, O).  The parameters and
    the kept input are unchanged. *)
Theorem dense_backward_gradients (l l' : Dense.t) (x w b grad : ndarray)
    (N I O : Z) :
  shape x = [N; I] ->
  Dense.lazy_init l x = Ok l' ->
  Dense.params_w l' = Some w ->
  Dense.params_b l' = Some b ->
  shape w = [I; O] ->
  shape b = [1; O] ->
  shape grad = [N; O] ->
  exists y l1 d_in l2 gw gb,
    Dense.forward l x = Ok (y, l1)
    /\ Dense.backward l1 grad = Ok (d_in, l2)
    /\ shape d_in = [N; I]
    /\ (forall n k, get d_in [n; k]
          = sumZ (fun o => get grad [n; o] * get w [k; o]) (Z.to_nat O))
    /\ Dense.grads_w l2 = Some gw
    /\ shape gw = [I; O]
    /\ (forall k o, get gw [k; o]
          = sumZ (fun n => get x [n; k] * get grad [n; o]) (Z.to_nat N))
    /\ Dense.grads_b l2 = Some gb
    /\ shape gb = [O]
    /\ (forall o, get gb [o]
          = sumZ (fun n => get grad [n; o]) (Z.to_nat N))
    /\ Dense.params_w l2 = Some w
    /\ Dense.params_b l2 = Some b
    /\ Dense.inputs l2 = Some x.
Proof.
  intros Hx Hinit Hw Hb Hws Hbs Hg.
  destruct (@dense_forward_ok l l' x w b N I O Hx Hinit Hw Hb Hws Hbs)
    as (y & Hf & _).
  destruct (@dense_backward_ok l' x w N I O Hx Hw Hws grad Hg)
    as (d_in & gw & gb & Hbk & Hds & Hdv & Hgws & Hgwv & Hgbs & Hgbv).
  exists y. eexists. exists d_in. eexists. exists gw, gb.
  split; [exact Hf|]. split; [exact Hbk|]. split; [exact Hds|].
  split; [exact Hdv|]. split; [reflexivity|]. split; [exact Hgws|].
  split; [exact Hgwv|]. split; [reflexivity|]. split; [exact Hgbs|].
  split; [exact Hgbv|]. split; [exact Hw|]. split; [exact Hb | reflexivity].
Qed.

Lemma dense_backward_gradients_witness :
  exists y l1 d_in l2 gw gb,
    Dense.forward dense_ones (of_list2 [[1; 2; 3]; [4; 5; 6]]) = Ok (y, l1)
    /\ Dense.backward l1 (of_list2 [[1; 0]; [0; 2]]) = Ok (d_in, l2)
    /\ shape d_in = [2; 3]
    /\ get d_in [1; 2] = 2
    /\ Dense.grads_w l2 = Some gw
    /\ get gw [2; 1] = 12
    /\ Dense.grads_b l2 = Some gb
    /\ shape gb = [2]
    /\ get gb [1] = 2.
Proof.
  destruct (@dense_backward_gradients dense_ones
              (Dense._init_parameters dense_ones 3)
              (of_list2 [[1; 2; 3]; [4; 5; 6]])
              (np_ones [3; 2]) (np_ones [1; 2]) (of_list2 [[1; 0]; [0; 2]])
              2 3 2
              eq_refl eq_refl eq_refl eq_refl eq_refl eq_refl eq_refl)
    as (y & l1 & d_in & l2 & gw & gb & Hf & Hb & Hds & Hdv & Hgw & _ & Hgwv
        & Hgb & Hgbs & Hgbv & _).
  exists y, l1, d_in, l2, gw, gb.
  split; [exact Hf|]. split; [exact Hb|]. split; [exact Hds|].
  split; [rewrite Hdv; reflexivity|]. split; [exact Hgw|].
  split; [rewrite Hgwv; reflexivity|]. split; [exact Hgb|].
  split; [exact Hgbs|]. rewrite Hgbv. reflexivity.
Defined.

(** X18: the gradients that [Dense.backward] computes are those of the
    pairing of the outputs with [grad]: with y = x @ w + b the output of
    [forward], the sum over (n, o) of (y(n, o) - b(0, o)) * grad(n, o)
    equals the sum over (n, k) of x(n, k) * d_in(n, k), and equals the
    sum over (k, o) of w(k, o) * grads_w(k, o); the sum over (n, o) of
    b(0, o) * grad(n, o) equals the sum over o of b(0, o) * grads_b(o). *)
Theorem dense_gradient_check (l l' : Dense.t) (x w b grad : ndarray)
    (N I O : Z) :
  shape x = [N; I] ->
  Dense.lazy_init l x = Ok l' ->
  Dense.params_w l' = Some w ->
  Dense.params_b l' = Some b ->
  shape w = [I; O] ->
  shape b = [1; O] ->
  shape grad = [N; O] ->
  exists y l1 d_in l2 gw gb,
    Dense.forward l x = Ok (y, l1)
    /\ Dense.backward l1 grad = Ok (d_in, l2)
    /\ Dense.grads_w l2 = Some gw
    /\ Dense.grads_b l2 = Some gb
    /\ sumZ (fun n => sumZ (fun o =>
               (get y [n; o] - get b [0; o]) * get grad [n; o])
               (Z.to_nat O)) (Z.to_nat N)
       = sumZ (fun n => sumZ (fun k => get x [n; k] * get d_in [n; k])
                 (Z.to_nat I)) (Z.to_nat N)
    /\ sumZ (fun n => sumZ (fun o =>
               (get y [n; o] - get b [0; o]) * get grad [n; o])
               (Z.to_nat O)) (Z.to_nat N)
       = sumZ (fun k => sumZ (fun o => get w [k; o] * get gw [k; o])
                 (Z.to_nat O)) (Z.to_nat I)
    /\ sumZ (fun n => sumZ (fun o => get b [0; o] * get grad [n; o])
               (Z.to_nat O)) (Z.to_nat N)
       = sumZ (fun o => get b [0; o] * get gb [o]) (Z.to_nat O).
Proof.
  intros Hx Hinit Hw Hb Hws Hbs Hg.
  destruct (@dense_forward_ok l l' x w b N I O Hx Hinit Hw Hb Hws Hbs)
    as (y & Hf & _ & Hyv).
  destruct (@dense_backward_ok l' x w N I O Hx Hw Hws grad Hg)
    as (d_in & gw & gb & Hbk & _ & Hdv & _ & Hgwv & _ & Hgbv).
  exists y. eexists. exists d_in. eexists. exists gw, gb.
  split; [exact Hf|]. split; [exact Hbk|].
  split; [reflexivity|]. split; [reflexivity|].
  assert (Hlhs : sumZ (fun n => sumZ (fun o =>
                   (get y [n; o] - get b [0; o]) * get grad [n; o])
                   (Z.to_nat O)) (Z.to_nat N)
                 = sumZ (fun n => sumZ (fun o => sumZ (fun k =>
                     get x [n; k] * get w [k; o] * get grad [n; o])
                     (Z.to_nat I)) (Z.to_nat O)) (Z.to_nat N)).
  { apply sumZ_ext. intros n Hn. apply sumZ_ext. intros o Ho.
    rewrite Hyv by lia.
    replace (sumZ (fun k => get x [n; k] * get w [k; o]) (Z.to_nat I)
             + get b [0; o] - get b [0; o])
      with (sumZ (fun k => get x [n; k] * get w [k; o]) (Z.to_nat I)) by lia.
    rewrite Z.mul_comm, sumZ_scale. apply sumZ_ext. intros k _. lia. }
  split; [|split].
  - rewrite Hlhs. apply sumZ_ext. intros n _.
    rewrite sumZ_swap. apply sumZ_ext. intros k _.
    rewrite Hdv, sumZ_scale. apply sumZ_ext. intros o _. lia.
  - rewrite Hlhs.
    rewrite (sumZ_swap (fun n o => sumZ (fun k =>
               get x [n; k] * get w [k; o] * get grad [n; o]) (Z.to_nat I))).
    transitivity
      (sumZ (fun o => sumZ (fun k => sumZ (fun n =>
         get x [n; k] * get w [k; o] * get grad [n; o])
         (Z.to_nat N)) (Z.to_nat I)) (Z.to_nat O)).
    { apply sumZ_ext. intros o _. apply sumZ_swap. }
    rewrite sumZ_swap. apply sumZ_ext. intros k _.
    apply sumZ_ext. intros o _.
    rewrite Hgwv, sumZ_scale. apply sumZ_ext. intros n _. lia.
  - rewrite sumZ_swap. apply sumZ_ext. intros o _.
    rewrite Hgbv, sumZ_scale. reflexivity.
Qed.

Lemma dense_gradient_check_witness :
  exists y l1 d_in l2 gw gb,
    Dense.forward dense_ones (of_list2 [[1; 2; 3]; [4; 5; 6]]) = Ok (y, l1)
    /\ Dense.backward l1 (of_list2 [[1; 0]; [0; 2]]) = Ok (d_in, l2)
    /\ Dense.grads_w l2 = Some gw
    /\ Dense.grads_b l2 = Some gb
    /\ sumZ (fun n => sumZ (fun o =>
               (get y [n; o] - get (np_ones [1; 2]) [0; o])
               * get (of_list2 [[1; 0]; [0; 2]]) [n; o])
               (Z.to_nat 2)) (Z.to_nat 2)
       = sumZ (fun n => sumZ (fun k =>
                 get (of_list2 [[1; 2; 3]; [4; 5; 6]]) [n; k]
                 * get d_in [n; k])
                 (Z.to_nat 3)) (Z.to_nat 2)
    /\ sumZ (fun n => sumZ (fun o =>
               (get y [n; o] - get (np_ones [1; 2]) [0; o])
               * get (of_list2 [[1; 0]; [0; 2]]) [n; o])
               (Z.to_nat 2)) (Z.to_nat 2)
       = sumZ (fun k => sumZ (fun o =>
                 get (np_ones [3; 2]) [k; o] * get gw [k; o])
                 (Z.to_nat 2)) (Z.to_nat 3)
    /\ sumZ (fun n => sumZ (fun o =>
               get (np_ones [1; 2]) [0; o]
               * get (of_list2 [[1; 0]; [0; 2]]) [n; o])
               (Z.to_nat 2)) (Z.to_nat 2)
       = sumZ (fun o => get (np_ones [1; 2]) [0; o] * get gb [o])
              (Z.to_nat 2).
Proof.
  exact (@dense_gradient_check dense_ones
           (Dense._init_parameters dense_ones 3)
           (of_list2 [[1; 2; 3]; [4; 5; 6]])
           (np_ones [3; 2]) (np_ones [1; 2]) (of_list2 [[1; 0]; [0; 2]])
           2 3 2
           eq_refl eq_refl eq_refl eq_refl eq_refl eq_refl eq_refl).
Defined.

Lemma dense_lazy_init_done (l l' : Dense.t) (x : ndarray) :
  Dense.lazy_init l x = Ok l' ->
  Dense.is_init l' = true /\ forall x', Dense.lazy_init l' x' = Ok l'.
Proof.
  unfold Dense.lazy_init. destruct (Dense.is_init l) eqn:Hi.
  - intros [= <-]. rewrite Hi. auto.
  - intros H. apply bind_ok_inv in H as (d & _ & H). injection H as <-.
    cbn [Dense.is_init Dense._init_parameters]. auto.
Qed.

Lemma dense_forward_state (l l1 : Dense.t) (x y : ndarray) :
  Dense.forward l x = Ok (y, l1) ->
  exists l', Dense.lazy_init l x = Ok l' /\ l1 = Dense.set_inputs l' x.
Proof.
  unfold Dense.forward. intros H.
  apply bind_ok_inv in H as (l' & Hl & H).
  apply bind_ok_inv in H as (xw & _ & H).
  apply bind_ok_inv in H as (o & _ & H).
  injection H as _ <-. eauto.
Qed.

(** X19: a dense layer is initialized once.  With [num_in] given, the
    constructor calls the initializers with the shapes [num_in, num_out]
    and [1, num_out]; without it, the first [forward] does, taking
    [num_in] from axis 1 of its input, and raises [IndexError] on an input
    of rank below 2.  After a [forward] that returns, the layer is
    initialized and later calls keep its parameters; an input whose width
    differs from the height of the weight makes [forward] raise
    [ValueError] instead of initializing again. *)
Theorem dense_parameters_initialized_once (num_out : Z)
    (w_init b_init : list Z -> ndarray) :
  (forall num_in,
      let l := Dense.__init__ num_out (Some num_in) w_init b_init in
      Dense.is_init l = true
      /\ Dense.params_w l = Some (w_init [num_in; num_out])
      /\ Dense.params_b l = Some (b_init [1; num_out])
      /\ forall x, Dense.lazy_init l x = Ok l)
  /\ (let l := Dense.__init__ num_out None w_init b_init in
      Dense.is_init l = false
      /\ Dense.params_w l = None
      /\ (forall x d0 d1 rest, shape x = d0 :: d1 :: rest ->
            exists l', Dense.lazy_init l x = Ok l'
                       /\ Dense.params_w l' = Some (w_init [d1; num_out])
                       /\ Dense.params_b l' = Some (b_init [1; num_out])
                       /\ Dense.shapes_w l' = (Some d1, num_out))
      /\ (forall x d0, shape x = [d0] ->
            Dense.forward l x = Raise "IndexError"))
  /\ (forall l l1 x y,
        Dense.forward l x = Ok (y, l1) ->
        Dense.is_init l1 = true
        /\ (forall x' y' l2,
              Dense.forward l1 x' = Ok (y', l2) ->
              Dense.params_w l2 = Dense.params_w l1
              /\ Dense.params_b l2 = Dense.params_b l1))
  /\ (forall l w x N I I' O,
        Dense.is_init l = true ->
        Dense.params_w l = Some w ->
        shape w = [I; O] -> shape x = [N; I'] -> I' <> I ->
        Dense.forward l x = Raise "ValueError").
Proof.
  split; [|split; [|split]].
  - intros num_in l. unfold l, Dense.__init__, Dense._init_parameters.
    cbn. repeat split.
  - cbv zeta. unfold Dense.__init__. cbn [Dense.is_init Dense.params_w].
    split; [reflexivity|]. split; [reflexivity|]. split.
    + intros x d0 d1 rest Hx. unfold Dense.lazy_init, shape_at.
      cbn [Dense.is_init]. rewrite Hx. cbn [nth_error bind].
      eexists. split; [reflexivity|]. cbn. repeat split.
    + intros x d0 Hx. unfold Dense.forward, Dense.lazy_init, shape_at.
      cbn [Dense.is_init]. rewrite Hx. reflexivity.
  - intros l l1 x y Hf.
    destruct (@dense_forward_state _ _ _ _ Hf) as (l' & Hl & ->).
    destruct (@dense_lazy_init_done _ _ _ Hl) as [Hi Hagain].
    split; [exact Hi|].
    intros x' y' l2 Hf'.
    destruct (@dense_forward_state _ _ _ _ Hf') as (l'' & Hl' & ->).
    unfold Dense.lazy_init in Hl'.
    cbn [Dense.is_init Dense.set_inputs] in Hl'. rewrite Hi in Hl'.
    injection Hl' as <-. split; reflexivity.
  - intros l w x N I I' O Hi Hw Hws Hx Hne.
    unfold Dense.forward, Dense.lazy_init. rewrite Hi. cbn [bind].
    cbn [Dense.params_w Dense.set_inputs]. rewrite Hw.
    unfold matmul_nd. rewrite Hx, Hws. cbn [rev app].
    destruct (Z.eqb_spec I' I); [contradiction | reflexivity].
Qed.

Lemma dense_parameters_initialized_once_witness :
  Dense.forward (Dense.__init__ 2 (Some 3) np_ones np_ones)
    (of_list2 [[1; 2]; [3; 4]])
  = Raise "ValueError"
  /\ exists y l1,
       Dense.forward dense_ones (of_list2 [[1; 2]; [3; 4]]) = Ok (y, l1)
       /\ Dense.is_init l1 = true.
Proof.
  destruct (@dense_parameters_initialized_once 2 np_ones np_ones)
    as (_ & _ & Honce & Hbad).
  split.
  - apply (Hbad _ (np_ones [3; 2]) _ 2 3 2 2);
      try reflexivity. lia.
  - destruct (@dense_forward_ok dense_ones
                (Dense._init_parameters dense_ones 2)
                (of_list2 [[1; 2]; [3; 4]])
                (np_ones [2; 2]) (np_ones [1; 2]) 2 2 2
                eq_refl eq_refl eq_refl eq_refl eq_refl eq_refl)
      as (y & Hf & _).
    exists y. eexists. split; [exact Hf|].
    exact (proj1 (Honce _ _ _ _ Hf)).
Defined.

Lemma broadcast_rev_same (r : list Z) : broadcast_rev r r = Ok r.
Proof.
  induction r as [|d r IH]; [reflexivity|].
  cbn [broadcast_rev]. rewrite Z.eqb_refl, IH. reflexivity.
Qed.

Lemma np_mul_same_shape (a b : ndarray) :
  shape a = shape b ->
  exists r, np_mul a b = Ok r /\ shape r = shape a
            /\ forall idx, in_bounds (shape a) idx ->
                 get r idx = get a idx * get b idx.
Proof.
  intros Hs. unfold np_mul. rewrite <- Hs, broadcast_rev_same. cbn [bind].
  rewrite rev_involutive. eexists. split; [reflexivity|].
  split; [reflexivity|]. intros idx Hin. cbn [get multiplied].
  rewrite <- Hs. rewrite bcast_index_id by exact Hin. reflexivity.
Qed.

(** X20: ReLU.  [forward] returns max(x, 0) entrywise, a non-negative
    tensor of the shape of the input that a second ReLU leaves as it is;
    [backward] on a gradient of that shape passes the gradient where the
    kept input is positive and returns 0 where it is zero or negative. *)
Theorem relu_forward_backward (a : Activation.t) (x grad : ndarray) :
  shape grad = shape x ->
  exists y a1 d_in,
    ReLU.forward a x = Ok (y, a1)
    /\ shape y = shape x
    /\ (forall idx, get y idx = Z.max (get x idx) 0)
    /\ (forall idx, 0 <= get y idx)
    /\ (exists y' a2, ReLU.forward a1 y = Ok (y', a2)
                      /\ forall idx, get y' idx = get y idx)
    /\ ReLU.backward a1 grad = Ok (d_in, a1)
    /\ shape d_in = shape x
    /\ (forall idx, in_bounds (shape x) idx ->
          get d_in idx = if 0 <? get x idx then get grad idx else 0).
Proof.
  intros Hg.
  destruct (@np_mul_same_shape (np_greater0 x) grad (eq_sym Hg))
    as (d & Hd & Hds & Hdv).
  exists (np_maximum0 x), (Activation.mk (Some x)), d.
  split; [reflexivity|]. split; [reflexivity|].
  split; [reflexivity|]. split; [intros idx; cbn; lia|]. split.
  { eexists. eexists. split; [reflexivity|]. intros idx. cbn. lia. }
  split.
  { unfold ReLU.backward, Activation.backward.
    cbn [Activation.derivative_func ReLU.methods Activation.inputs
         ReLU.derivative_func bind].
    rewrite Hd. reflexivity. }
  split; [exact Hds|].
  intros idx Hin. rewrite (Hdv idx Hin). cbn [get np_greater0].
  destruct (0 <? get x idx); lia.
Qed.

Lemma relu_forward_backward_witness :
  exists y a1 d_in,
    ReLU.forward Activation.__init__ (of_list2 [[-1; 0]; [2; 3]]) = Ok (y, a1)
    /\ get y [0; 0] = 0
    /\ get y [1; 1] = 3
    /\ ReLU.backward a1 (of_list2 [[5; 6]; [7; 8]]) = Ok (d_in, a1)
    /\ get d_in [0; 1] = 0
    /\ get d_in [1; 0] = 7.
Proof.
  destruct (@relu_forward_backward Activation.__init__
              (of_list2 [[-1; 0]; [2; 3]]) (of_list2 [[5; 6]; [7; 8]])
              eq_refl)
    as (y & a1 & d_in & Hf & _ & Hy & _ & _ & Hb & _ & Hd).
  exists y, a1, d_in. split; [exact Hf|].
  split; [rewrite Hy; reflexivity|]. split; [rewrite Hy; reflexivity|].
  split; [exact Hb|]. split.
  - rewrite (Hd [0; 1]) by (cbn; lia). reflexivity.
  - rewrite (Hd [1; 0]) by (cbn; lia). reflexivity.
Defined.

(** X21: [backward] before any [forward].  A dense layer, initialized or
    not, raises [AttributeError] (its kept input is [None]); a ReLU
    raises [TypeError] (it compares [None] with a number); the methods of
    the base class [Activation] raise [NotImplementedError] on every
    call. *)
Theorem backward_before_forward_dense_relu (num_out : Z)
    (num_in : option Z) (w_init b_init : list Z -> ndarray)
    (a : Activation.t) (x grad : ndarray) :
  Dense.backward (Dense.__init__ num_out num_in w_init b_init) grad
  = Raise "AttributeError"
  /\ (forall l, Dense.inputs l = None ->
                Dense.backward l grad = Raise "AttributeError")
  /\ ReLU.backward Activation.__init__ grad = Raise "TypeError"
  /\ Activation.forward Activation.abstract a x = Raise "NotImplementedError"
  /\ Activation.backward Activation.abstract a grad
     = Raise "NotImplementedError".
Proof.
  split; [|split; [|split; [|split]]].
  - destruct num_in; reflexivity.
  - intros l Hl. unfold Dense.backward. rewrite Hl. reflexivity.
  - reflexivity.
  - reflexivity.
  - reflexivity.
Qed.

Lemma backward_before_forward_dense_relu_witness :
  Dense.backward dense_ones (np_ones [2; 2]) = Raise "AttributeError"
  /\ Dense.backward (Dense.__init__ 2 (Some 3) np_ones np_ones)
       (np_ones [2; 2]) = Raise "AttributeError".
Proof.
  destruct (@backward_before_forward_dense_relu 2 (Some 3) np_ones np_ones
              Activation.__init__ (np_ones [2; 2]) (np_ones [2; 2]))
    as (H1 & H2 & _).
  split; [apply H2; reflexivity | exact H1].
Defined.

(* ------------------------------------------------------------------ *)
(** ** The parameter gradients of the convolution are gradients *)

Lemma sumZ_swap3 (F : Z -> Z -> Z -> Z -> Z) (m n1 n2 n3 : nat) :
  sumZ (fun x => sumZ (fun a => sumZ (fun b => sumZ (fun c =>
    F x a b c) n3) n2) n1) m
  = sumZ (fun a => sumZ (fun b => sumZ (fun c => sumZ (fun x =>
      F x a b c) m) n3) n2) n1.
Proof.
  rewrite (sumZ_swap (fun x a => sumZ (fun b => sumZ (fun c => F x a b c) n3) n2)).
  apply sumZ_ext. intros a _.
  rewrite (sumZ_swap (fun x b => sumZ (fun c => F x a b c) n3)).
  apply sumZ_ext. intros b _.
  apply (sumZ_swap (fun x c => F x a b c)).
Qed.

Lemma sumZ_swap33 (U : Z -> Z -> Z -> Z -> Z -> Z -> Z)
    (m1 m2 m3 n1 n2 n3 : nat) :
  sumZ (fun n => sumZ (fun i => sumZ (fun j =>
    sumZ (fun a => sumZ (fun b => sumZ (fun c => U n i j a b c) n3) n2) n1)
    m3) m2) m1
  = sumZ (fun a => sumZ (fun b => sumZ (fun c =>
      sumZ (fun n => sumZ (fun i => sumZ (fun j => U n i j a b c) m3) m2) m1)
      n3) n2) n1.
Proof.
  transitivity
    (sumZ (fun n => sumZ (fun i =>
       sumZ (fun a => sumZ (fun b => sumZ (fun c =>
         sumZ (fun j => U n i j a b c) m3) n3) n2) n1) m2) m1).
  { apply sumZ_ext. intros n _. apply sumZ_ext. intros i _.
    apply (sumZ_swap3 (fun j a b c => U n i j a b c)). }
  transitivity
    (sumZ (fun n =>
       sumZ (fun a => sumZ (fun b => sumZ (fun c =>
         sumZ (fun i => sumZ (fun j => U n i j a b c) m3) m2) n3) n2) n1) m1).
  { apply sumZ_ext. intros n _.
    apply (sumZ_swap3 (fun i a b c => sumZ (fun j => U n i j a b c) m3)). }
  apply (sumZ_swap3 (fun n a b c =>
           sumZ (fun i => sumZ (fun j => U n i j a b c) m3) m2)).
Qed.

Lemma sumZ_scale_r (k : Z) (F : Z -> Z) (n : nat) :
  sumZ F n * k = sumZ (fun i => F i * k) n.
Proof. induction n as [|n IH]; cbn [sumZ]; lia. Qed.

(** X22: the parameter gradients that [Conv2D.backward] stores are the
    gradients of the pairing of the outputs with [grad].  With y the
    output of [forward] on an applicable call: the sum over all (n, i, j,
    o) of (y(n, i, j, o) - b(o)) * grad(n, i, j, o) equals the sum over
    the kernel entries of w(a, b, c, o) * grads_w(a, b, c, o), and the
    sum of b(o) * grad(n, i, j, o) equals the sum over o of
    b(o) * grads_b(o). *)
Theorem conv_parameter_gradient_check (l : Conv2D.t)
    (x w b grad : ndarray) (N H W C kh kw oc sh sw p0 p1 p2 p3 : Z) :
  shape x = [N; H; W; C] ->
  Conv2D.kernel l = (kh, kw, C, oc) ->
  Conv2D.stride l = (sh, sw) ->
  Conv2D._get_padding (kh, kw) (Conv2D.padding_mode l)
  = Some (p0, p1, p2, p3) ->
  Conv2D.params_w (Conv2D.lazy_init l) = Some w ->
  Conv2D.params_b (Conv2D.lazy_init l) = Some b ->
  shape w = [kh; kw; C; oc] ->
  shape b = [oc] ->
  1 <= N -> 1 <= H -> 1 <= W -> 1 <= C ->
  1 <= kh -> 1 <= kw -> 1 <= oc -> 1 <= sh -> 1 <= sw ->
  kh <= p0 + H + p1 ->
  kw <= p2 + W + p3 ->
  shape grad
  = [N; (p0 + H + p1 - kh) / sh + 1; (p2 + W + p3 - kw) / sw + 1; oc] ->
  exists y l1 d_in l2 gw gb,
    Conv2D.forward l x = Ok (y, l1)
    /\ Conv2D.backward l1 grad = Ok (d_in, l2)
    /\ Conv2D.grads_w l2 = Some gw
    /\ Conv2D.grads_b l2 = Some gb
    /\ sumZ (fun n => sumZ (fun i => sumZ (fun j => sumZ (fun o =>
         (get y [n; i; j; o] - get b [o]) * get grad [n; i; j; o])
         (Z.to_nat oc))
         (Z.to_nat ((p2 + W + p3 - kw) / sw + 1)))
         (Z.to_nat ((p0 + H + p1 - kh) / sh + 1))) (Z.to_nat N)
       = sumZ (fun a => sumZ (fun b' => sumZ (fun c => sumZ (fun o =>
           get w [a; b'; c; o] * get gw [a; b'; c; o])
           (Z.to_nat oc)) (Z.to_nat C)) (Z.to_nat kw)) (Z.to_nat kh)
    /\ sumZ (fun n => sumZ (fun i => sumZ (fun j => sumZ (fun o =>
         get b [o] * get grad [n; i; j; o])
         (Z.to_nat oc))
         (Z.to_nat ((p2 + W + p3 - kw) / sw + 1)))
         (Z.to_nat ((p0 + H + p1 - kh) / sh + 1))) (Z.to_nat N)
       = sumZ (fun o => get b [o] * get gb [o]) (Z.to_nat oc).
Proof.
  intros Hx Hk Hs Hpad Hw Hb Hws Hbs HN HH HW HC Hkh Hkw Hoc Hsh Hsw
         Hfh Hfw Hg.
  destruct (@conv_forward_full l x w b N H W C kh kw oc sh sw p0 p1 p2 p3
              Hx Hk Hs Hpad Hw Hb Hws Hbs HN HH HW HC Hkh Hkw Hoc Hsh Hsw
              Hfh Hfw)
    as (y & X & Wm & Hf & Hy & HX & HWm & HWg & HXg & Hval).
  destruct (@conv_backward_full l w N H W C kh kw oc sh sw p0 p1 p2 p3
              Hpad Hw Hws HN HH HW HC Hkh Hkw Hoc Hsh Hsw Hfh Hfw
              grad Hg X Wm HX HWm HWg)
    as (d_in & gw & gb & Hbk & _ & Hgw & Hgb & Hgwv & Hgbv).
  exists y. eexists. exists d_in. eexists. exists gw, gb.
  split; [exact Hf|]. split; [exact Hbk|].
  split; [reflexivity|]. split; [reflexivity|].
  set (oh := (p0 + H + p1 - kh) / sh + 1) in *.
  set (ow := (p2 + W + p3 - kw) / sw + 1) in *.
  set (P := fun n i j a b' c =>
              get X [ravel [N; oh; ow] [n; i; j]; ravel [kh; kw; C] [a; b'; c]]).
  set (T := fun n i j o a b' c =>
              P n i j a b' c * get w [a; b'; c; o] * get grad [n; i; j; o]).
  split.
  - transitivity
      (sumZ (fun n => sumZ (fun i => sumZ (fun j =>
         sumZ (fun a => sumZ (fun b' => sumZ (fun c =>
           sumZ (fun o => T n i j o a b' c) (Z.to_nat oc))
           (Z.to_nat C)) (Z.to_nat kw)) (Z.to_nat kh))
         (Z.to_nat ow)) (Z.to_nat oh)) (Z.to_nat N)).
    { apply sumZ_ext. intros n Hn. apply sumZ_ext. intros i Hi.
      apply sumZ_ext. intros j Hj.
      rewrite <- (sumZ_swap3 (fun o a b' c => T n i j o a b' c)).
      apply sumZ_ext. intros o Ho.
      rewrite Hval by (cbn [in_bounds]; lia).
      replace (sumZ (fun t => get X [ravel [N; oh; ow] [n; i; j]; t]
                              * get Wm [t; o])
                 (Z.to_nat (prod [kh; kw; C])) + get b [o] - get b [o])
        with (sumZ (fun t => get X [ravel [N; oh; ow] [n; i; j]; t]
                             * get Wm [t; o])
                (Z.to_nat (prod [kh; kw; C]))) by lia.
      rewrite sumZ_ravel3 by lia.
      rewrite sumZ_scale_r. apply sumZ_ext. intros a Ha.
      rewrite sumZ_scale_r. apply sumZ_ext. intros b' Hb'.
      rewrite sumZ_scale_r. apply sumZ_ext. intros c Hc.
      rewrite HWg by (cbn [in_bounds]; lia). reflexivity. }
    rewrite (sumZ_swap33
               (fun n i j a b' c => sumZ (fun o => T n i j o a b' c) (Z.to_nat oc))).
    apply sumZ_ext. intros a Ha. apply sumZ_ext. intros b' Hb'.
    apply sumZ_ext. intros c Hc.
    rewrite <- (sumZ_swap3 (fun o n i j => T n i j o a b' c)).
    apply sumZ_ext. intros o Ho.
    rewrite Hgwv by (cbn [in_bounds]; lia).
    rewrite sumZ_scale. apply sumZ_ext. intros n _.
    rewrite sumZ_scale. apply sumZ_ext. intros i _.
    rewrite sumZ_scale. apply sumZ_ext. intros j _.
    unfold T, P. lia.
  - rewrite <- (sumZ_swap3 (fun o n i j => get b [o] * get grad [n; i; j; o])).
    apply sumZ_ext. intros o _. rewrite Hgbv.
    rewrite sumZ_scale. apply sumZ_ext. intros n _.
    rewrite sumZ_scale. apply sumZ_ext. intros i _.
    rewrite sumZ_scale. reflexivity.
Qed.

Lemma conv_parameter_gradient_check_witness :
  exists y l1 d_in l2 gw gb,
    Conv2D.forward top_left_conv input_1_to_9 = Ok (y, l1)
    /\ Conv2D.backward l1 (np_ones [1; 2; 2; 1]) = Ok (d_in, l2)
    /\ Conv2D.grads_w l2 = Some gw
    /\ Conv2D.grads_b l2 = Some gb.
Proof.
  destruct (@conv_parameter_gradient_check top_left_conv input_1_to_9
              top_left_kernel (zeros_init 1) (np_ones [1; 2; 2; 1])
              1 3 3 1 2 2 1 1 1 0 0 0 0
              eq_refl eq_refl eq_refl eq_refl eq_refl eq_refl eq_refl eq_refl
              ltac:(lia) ltac:(lia) ltac:(lia) ltac:(lia) ltac:(lia)
              ltac:(lia) ltac:(lia) ltac:(lia) ltac:(lia) ltac:(lia)
              ltac:(lia) eq_refl)
    as (y & l1 & d_in & l2 & gw & gb & Hf & Hb & Hgw & Hgb & _).
  exists y, l1, d_in, l2, gw, gb.
  split; [exact Hf|]. split; [exact Hb|]. split; [exact Hgw | exact Hgb].
Defined.

Lemma pool_same_padding_overlap_1d (n p s a b : Z) :
  1 <= s -> s < p < 2 * s ->
  MaxPool2D._get_padding_1d n p s "SAME" = Ok (a, b) ->
  (a + n + b) mod s = p - s.
Proof.
  intros Hs Hp. unfold MaxPool2D._get_padding_1d, pymod.
  cbn [String.eqb Ascii.eqb Bool.eqb].
  destruct (Z.eqb_spec s 0) as [|_]; [lia|]. cbn [bind].
  pose proof (Z.div_mod n s ltac:(lia)) as Hdm.
  pose proof (Z.mod_pos_bound n s ltac:(lia)) as Hr.
  assert (Hsplit : forall t u v,
            (if t mod 2 =? 0 then (t / 2, t / 2) else (t / 2, t / 2 + 1))
            = (u, v) -> u + v = t).
  { intros t u v.
    pose proof (Z.div_mod t 2 ltac:(lia)).
    pose proof (Z.mod_pos_bound t 2 ltac:(lia)).
    destruct (Z.eqb_spec (t mod 2) 0); intros [= <- <-]; lia. }
  destruct (Z.eqb_spec (n mod s) 0) as [Hz|Hnz]; cbn [bind];
    intros [= Hab]; apply Hsplit in Hab.
  - replace (a + n + b) with (p - s + (n / s) * s) by lia.
    rewrite Z.mod_add by lia. apply Z.mod_small. lia.
  - replace (a + n + b) with (p - s + (n / s + 1) * s) by lia.
    rewrite Z.mod_add by lia. apply Z.mod_small. lia.
Qed.

(** X23: SAME padding does not serve overlapping windows.  When the pool
    is larger than the stride but smaller than twice the stride along
    the height (or along the width), the padded size is never a multiple
    of the stride, and [MaxPool2D.forward] raises on every rank-4 input. *)
Theorem pool_same_overlapping_raises (l : MaxPool2D.t) (x : ndarray)
    (N H W C ph pw sh sw : Z) :
  shape x = [N; H; W; C] ->
  0 <= N /\ 0 <= H /\ 0 <= W /\ 0 <= C ->
  MaxPool2D.pool_size l = (ph, pw) ->
  MaxPool2D.stride l = (sh, sw) ->
  MaxPool2D.padding_mode l = "SAME" ->
  (1 <= sh /\ sh < ph < 2 * sh) \/ (1 <= sw /\ sw < pw < 2 * sw) ->
  raises (MaxPool2D.forward l x).
Proof.
  intros Hx Hdims Hpool Hstride Hmode Hover.
  destruct (MaxPool2D.forward l x) as [[y l1]|e] eqn:Hf;
    [exfalso | exists e; reflexivity].
  destruct (MaxPool2D._get_padding (H, W) (MaxPool2D.pool_size l) (sh, sw)
              (MaxPool2D.padding_mode l))
    as [[[[p0 p1] p2] p3]|e] eqn:Hpad.
  2:{ unfold MaxPool2D.forward in Hf. rewrite Hx, Hstride, Hpad in Hf.
      discriminate Hf. }
  destruct (@pool_forward_inv l x N H W C sh sw p0 p1 p2 p3
              Hx Hdims Hstride Hpad y l1 Hf)
    as (_ & _ & Hdh & Hdw & _).
  rewrite Hpool, Hmode in Hpad. unfold MaxPool2D._get_padding in Hpad.
  cbn [fst snd] in Hpad.
  apply bind_ok_inv in Hpad as ([a1 b1] & H1 & Hpad).
  apply bind_ok_inv in Hpad as ([a2 b2] & H2 & Hpad).
  cbn [fst snd] in Hpad. injection Hpad as <- <- <- <-.
  destruct Hover as [[Hs Hp]|[Hs Hp]].
  - rewrite (@pool_same_padding_overlap_1d _ _ _ _ _ Hs Hp H1) in Hdh. lia.
  - rewrite (@pool_same_padding_overlap_1d _ _ _ _ _ Hs Hp H2) in Hdw. lia.
Qed.

Lemma pool_same_overlapping_raises_witness :
  raises (MaxPool2D.forward (MaxPool2D.mk (3, 3) (2, 2) "SAME" None)
            input_1_to_16).
Proof.
  apply (@pool_same_overlapping_raises
           (MaxPool2D.mk (3, 3) (2, 2) "SAME" None) input_1_to_16
           1 4 4 1 3 3 2 2);
    try reflexivity; lia.
Defined.

(** X24: the amounts of padding of the convolution, for a kernel of
    kh x kw cells.  SAME adds kh - 1 rows and kw - 1 columns in all;
    the top and the left get floor((k - 1) / 2), the bottom and the right
    get the same for an odd size and one more for an even size.  VALID
    adds nothing, and no mode gives a negative amount. *)
Theorem conv_padding_amounts (kh kw : Z) (mode : string)
    (p0 p1 p2 p3 : Z) :
  1 <= kh -> 1 <= kw ->
  Conv2D._get_padding (kh, kw) mode = Some (p0, p1, p2, p3) ->
  0 <= p0 /\ 0 <= p1 /\ 0 <= p2 /\ 0 <= p3
  /\ (mode = "VALID" -> p0 = 0 /\ p1 = 0 /\ p2 = 0 /\ p3 = 0)
  /\ (mode = "SAME" ->
      p0 + p1 = kh - 1 /\ p2 + p3 = kw - 1
      /\ p0 = (kh - 1) / 2 /\ p2 = (kw - 1) / 2
      /\ p1 = (if Z.even kh then p0 + 1 else p0)
      /\ p3 = (if Z.even kw then p2 + 1 else p2)).
Proof.
  intros Hkh Hkw Hpad.
  pose proof (Z.div_pos (kh - 1) 2 ltac:(lia) ltac:(lia)) as Hq1.
  pose proof (Z.div_pos (kw - 1) 2 ltac:(lia) ltac:(lia)) as Hq2.
  split; [|split; [|split; [|split; [|split]]]].
  1-4: revert Hpad; unfold Conv2D._get_padding;
    destruct (String.eqb mode "FULL"); [intros [= <- <- <- <-]; lia|];
    destruct (String.eqb mode "VALID"); [intros [= <- <- <- <-]; lia|];
    destruct (String.eqb mode "SAME"); [|discriminate];
    destruct (kh mod 2 =? 0), (kw mod 2 =? 0); intros [= <- <- <- <-]; lia.
  - intros ->. injection Hpad as <- <- <- <-. auto.
  - intros ->. destruct (conv_same_total_pad Hpad) as [H1 H2].
    split; [exact H1|]. split; [exact H2|].
    revert Hpad. cbn [Conv2D._get_padding String.eqb Ascii.eqb Bool.eqb].
    rewrite !Zeven_mod.
    destruct (kh mod 2 =? 0), (kw mod 2 =? 0); intros [= <- <- <- <-];
      repeat split; reflexivity.
Qed.

Lemma conv_padding_amounts_witness :
  Conv2D._get_padding (4, 5) "SAME" = Some (1, 2, 2, 2)
  /\ 1 + 2 = 4 - 1 /\ 2 + 2 = 5 - 1.
Proof.
  destruct (@conv_padding_amounts 4 5 "SAME" 1 2 2 2
              ltac:(lia) ltac:(lia) eq_refl)
    as (_ & _ & _ & _ & _ & Hsame).
  destruct (Hsame eq_refl) as (H1 & H2 & _).
  split; [reflexivity|]. split; [exact H1 | exact H2].
Defined.

(* ------------------------------------------------------------------ *)
(** ** The models of the MNIST example *)

Lemma dense_fresh_forward_shape (dw db : list Z -> ndarray) (x : ndarray)
    (N I O : Z) :
  (forall sh, shape (dw sh) = sh) -> (forall sh, shape (db sh) = sh) ->
  shape x = [N; I] ->
  exists r, Dense.forward (Dense.__init__ O None dw db) x = Ok r
            /\ shape (fst r) = [N; O].
Proof.
  intros Hdw Hdb Hx.
  destruct (@dense_forward_ok (Dense.__init__ O None dw db)
              (Dense._init_parameters (Dense.__init__ O None dw db) I)
              x (dw [I; O]) (db [1; O]) N I O Hx)
    as (y & Hf & Hy & _); try reflexivity; auto.
  { unfold Dense.lazy_init, shape_at. cbn [Dense.is_init Dense.__init__].
    rewrite Hx. reflexivity. }
  eexists. split; [exact Hf | exact Hy].
Qed.

Lemma relu_forward_shape (x : ndarray) :
  exists r, ReLU.forward Activation.__init__ x = Ok r
            /\ shape (fst r) = shape x.
Proof. eexists. split; reflexivity. Qed.

(** X25: the two feed-forward models of [examples/mnist/run.py] fit
    together.  With initializers that return arrays of the requested
    shapes, the layers of the "cnn" model, applied in order to a batch of
    N >= 1 images of shape (28, 28, 1), all return: the sizes go
    28x28x6, 14x14x6, 14x14x16, 7x7x16, 784, 120, 84, and the result has
    shape (N, 10).  The layers of the "mlp" model map any (N, I) batch to
    an (N, 10) result. *)
Theorem mnist_models_shapes (cw : Z * Z * Z * Z -> ndarray)
    (cb : Z -> ndarray) (dw db : list Z -> ndarray) (x x2 : ndarray)
    (N I : Z) :
  (forall kh kw c oc, shape (cw (kh, kw, c, oc)) = [kh; kw; c; oc]) ->
  (forall n, shape (cb n) = [n]) ->
  (forall sh, shape (dw sh) = sh) ->
  (forall sh, shape (db sh) = sh) ->
  1 <= N ->
  shape x = [N; 28; 28; 1] ->
  shape x2 = [N; I] ->
  (exists y, mnist_cnn_forward cw cb dw db x = Ok y /\ shape y = [N; 10])
  /\ (exists y, mnist_mlp_forward dw db x2 = Ok y /\ shape y = [N; 10]).
Proof.
  intros Hcw Hcb Hdw Hdb HN Hx Hx2. split.
  - unfold mnist_cnn_forward.
    cbn [Conv2D.__init__ MaxPool2D.__init__ String.eqb Ascii.eqb Bool.eqb
         orb guard bind].
    destruct (@conv_forward_ok
                (Conv2D.mk "SAME" (5, 5, 1, 6) (1, 1) cw cb
                           false None None None None None)
                x (cw (5, 5, 1, 6)) (cb 6) N 28 28 1 5 5 6 1 1 2 2 2 2)
      as (y1 & X1 & W1 & -> & Hy1 & _);
      try reflexivity; auto; try lia.
    cbn [bind fst].
    destruct (relu_forward_shape y1) as (r2 & -> & Hy2). cbn [bind].
    rewrite Hy1 in Hy2. change ((2 + 28 + 2 - 5) / 1 + 1) with 28 in Hy2.
    destruct (@pool_forward_ok (MaxPool2D.mk (2, 2) (2, 2) "VALID" None)
                (fst r2) N 28 28 6 2 2 2 2 0 0 0 0)
      as (y3 & mp3 & -> & Hy3 & _); try reflexivity; auto; try lia.
    cbn [bind fst]. change ((0 + 28 + 0) / 2) with 14 in Hy3.
    destruct (@conv_forward_ok
                (Conv2D.mk "SAME" (5, 5, 6, 16) (1, 1) cw cb
                           false None None None None None)
                y3 (cw (5, 5, 6, 16)) (cb 16) N 14 14 6 5 5 16 1 1 2 2 2 2)
      as (y4 & X4 & W4 & -> & Hy4 & _);
      try reflexivity; auto; try lia.
    cbn [bind fst].
    destruct (relu_forward_shape y4) as (r5 & -> & Hy5). cbn [bind].
    rewrite Hy4 in Hy5. change ((2 + 14 + 2 - 5) / 1 + 1) with 14 in Hy5.
    destruct (@pool_forward_ok (MaxPool2D.mk (2, 2) (2, 2) "VALID" None)
                (fst r5) N 14 14 16 2 2 2 2 0 0 0 0)
      as (y6 & mp6 & -> & Hy6 & _); try reflexivity; auto; try lia.
    cbn [bind fst]. change ((0 + 14 + 0) / 2) with 7 in Hy6.
    destruct (@flatten_forward_ok Flatten.__init__ y6 N [7; 7; 16] Hy6 HN)
      as [-> _]; [repeat constructor|].
    cbn [bind fst]. change (prod [7; 7; 16]) with 784.
    destruct (@dense_fresh_forward_shape dw db
                (reshaped (np_ravel y6) [N; 784]) N 784 120 Hdw Hdb eq_refl)
      as (r8 & -> & Hy8).
    cbn [bind].
    destruct (relu_forward_shape (fst r8)) as (r9 & -> & Hy9). cbn [bind].
    rewrite Hy8 in Hy9.
    destruct (@dense_fresh_forward_shape dw db (fst r9) N 120 84 Hdw Hdb Hy9)
      as (r10 & -> & Hy10).
    cbn [bind].
    destruct (relu_forward_shape (fst r10)) as (r11 & -> & Hy11). cbn [bind].
    rewrite Hy10 in Hy11.
    destruct (@dense_fresh_forward_shape dw db (fst r11) N 84 10 Hdw Hdb Hy11)
      as (r12 & -> & Hy12).
    cbn [bind]. eexists. split; [reflexivity | exact Hy12].
  - unfold mnist_mlp_forward.
    destruct (@dense_fresh_forward_shape dw db x2 N I 16 Hdw Hdb Hx2)
      as (r1 & -> & Hy1).
    cbn [bind].
    destruct (relu_forward_shape (fst r1)) as (r2 & -> & Hy2). cbn [bind].
    rewrite Hy1 in Hy2.
    destruct (@dense_fresh_forward_shape dw db (fst r2) N 16 10 Hdw Hdb Hy2)
      as (r3 & -> & Hy3).
    cbn [bind]. eexists. split; [reflexivity | exact Hy3].
Qed.

Lemma mnist_models_shapes_witness :
  (exists y,
     mnist_cnn_forward
       (fun k => let '(kh, kw, c, oc) := k in np_ones [kh; kw; c; oc])
       zeros_init np_ones np_ones (np_ones [2; 28; 28; 1]) = Ok y
     /\ shape y = [2; 10])
  /\ (exists y,
        mnist_mlp_forward np_ones np_ones (np_ones [2; 784]) = Ok y
        /\ shape y = [2; 10]).
Proof.
  apply (@mnist_models_shapes
           (fun k => let '(kh, kw, c, oc) := k in np_ones [kh; kw; c; oc])
           zeros_init np_ones np_ones
           (np_ones [2; 28; 28; 1]) (np_ones [2; 784]) 2 784);
    intros; reflexivity || lia.
Defined.

(* ------------------------------------------------------------------ *)
(** ** Further consequences for the gradients *)

Lemma sumZ_indicator_weighted (F : Z -> Z) (g m : Z) (n : nat) :
  0 <= m < Z.of_nat n ->
  sumZ (fun k => (if k =? m then g else 0) * F k) n = g * F m.
Proof.
  induction n as [|n IH]; intros Hm; [lia|].
  cbn [sumZ]. destruct (Z.eqb_spec (Z.of_nat n) m) as [He|Hne].
  - rewrite sumZ_zero; [rewrite He; lia|].
    intros k Hk. destruct (Z.eqb_spec k m); lia.
  - rewrite IH by lia. lia.
Qed.

(** X26: max pooling pairs correctly with its gradient.  On an
    applicable call, for every output entry, the entries that
    [MaxPool2D.backward] writes into the window, each multiplied by the
    cell of the zero-padded input at its place, add up to the gradient of
    the output entry times the output entry itself: the gradient sits on
    a cell that holds the maximum. *)
Theorem pool_gradient_meets_maximum (l : MaxPool2D.t) (x grad : ndarray)
    (N H W C ph pw sh sw p0 p1 p2 p3 : Z) :
  shape x = [N; H; W; C] ->
  MaxPool2D.pool_size l = (ph, pw) ->
  MaxPool2D.stride l = (sh, sw) ->
  MaxPool2D._get_padding (H, W) (ph, pw) (sh, sw) (MaxPool2D.padding_mode l)
  = Ok (p0, p1, p2, p3) ->
  1 <= N -> 1 <= H -> 1 <= W -> 1 <= C ->
  1 <= ph <= sh -> 1 <= pw <= sw ->
  (p0 + H + p1) mod sh = 0 ->
  (p2 + W + p3) mod sw = 0 ->
  shape grad = [N; (p0 + H + p1) / sh; (p2 + W + p3) / sw; C] ->
  exists y l1 d_in,
    MaxPool2D.forward l x = Ok (y, l1)
    /\ MaxPool2D.backward l1 grad = Ok (d_in, l1)
    /\ forall n i j c,
         in_bounds [N; (p0 + H + p1) / sh; (p2 + W + p3) / sw; C]
                   [n; i; j; c] ->
         sumZ (fun a => sumZ (fun b =>
                 get d_in [n; i * sh + a; j * sw + b; c]
                 * zero_padded x H W p0 p2 n (i * sh + a) (j * sw + b) c)
                 (Z.to_nat pw)) (Z.to_nat ph)
         = get grad [n; i; j; c] * get y [n; i; j; c].
Proof.
  intros Hx Hpool Hstride Hpad HN HH HW HC Hph Hpw Hdh Hdw Hg.
  destruct (@pool_forward_then_backward l x N H W C ph pw sh sw p0 p1 p2 p3
              Hx Hpool Hstride Hpad HN HH HW HC Hph Hpw Hdh Hdw grad Hg)
    as (y & l1 & max_pos & d_in & Hf & Hy & Hc & Hmg & Hyg & Hbk & Hd & Hdg).
  destruct (pool_out_dims l Hpad HH HW Hph Hpw Hdh Hdw)
    as (Hoh & How & HPH & HPW).
  exists y, l1, d_in. split; [exact Hf|]. split; [exact Hbk|].
  intros n i j c Hin.
  set (f := window_value
              (pad_constant x [N; p0 + H + p1; p2 + W + p3; C] H W p0 p2)
              sh sw pw n i j c).
  set (m := argmax_first f (Z.to_nat (ph * pw))).
  assert (Hm : get max_pos [n; i; j; c] = m) by (apply Hmg; exact Hin).
  pose proof (@argmax_first_spec f (Z.to_nat (ph * pw)) ltac:(nia))
    as (Hb & _). fold m in Hb.
  rewrite (Hyg n i j c Hin). fold f. rewrite max_of_argmax by nia. fold m.
  destruct Hin as (Hn & Hi & Hj & Hc' & _).
  pose proof (sumZ_prod2
                (fun k => (if k =? m then get grad [n; i; j; c] else 0) * f k)
                (Z.to_nat ph) (Z.to_nat pw)) as Hflat.
  cbv beta in Hflat.
  transitivity
    (sumZ (fun a => sumZ (fun b =>
       (if a * Z.of_nat (Z.to_nat pw) + b =? m
        then get grad [n; i; j; c] else 0)
       * f (a * Z.of_nat (Z.to_nat pw) + b))
       (Z.to_nat pw)) (Z.to_nat ph)).
  { apply sumZ_ext. intros a Ha. apply sumZ_ext. intros b Hb'.
    rewrite Z2Nat.id by lia.
    rewrite Hdg by (cbn [in_bounds]; nia).
    destruct (@div_mod_offset i sh a ltac:(lia)) as [-> ->].
    destruct (@div_mod_offset j sw b ltac:(lia)) as [-> ->].
    destruct (Z.ltb_spec a ph); [|lia]. destruct (Z.ltb_spec b pw); [|lia].
    cbn [andb]. rewrite Hm.
    unfold f at 1, window_value.
    destruct (@div_mod_offset a pw b ltac:(lia)) as [-> ->].
    change (get (pad_constant x [N; p0 + H + p1; p2 + W + p3; C] H W p0 p2)
              [n; i * sh + a; j * sw + b; c])
      with (zero_padded x H W p0 p2 n (i * sh + a) (j * sw + b) c).
    destruct (a * pw + b =? m); lia. }
  rewrite <- Hflat. apply sumZ_indicator_weighted. lia.
Qed.

Lemma pool_gradient_meets_maximum_witness :
  exists y l1 d_in,
    MaxPool2D.forward pool22_valid input_1_to_16 = Ok (y, l1)
    /\ MaxPool2D.backward l1 (of_list4 [[[[10]; [20]]; [[30]; [40]]]])
       = Ok (d_in, l1)
    /\ sumZ (fun a => sumZ (fun b =>
               get d_in [0; 1 * 2 + a; 1 * 2 + b; 0]
               * zero_padded input_1_to_16 4 4 0 0 0 (1 * 2 + a) (1 * 2 + b) 0)
               (Z.to_nat 2)) (Z.to_nat 2)
       = get (of_list4 [[[[10]; [20]]; [[30]; [40]]]]) [0; 1; 1; 0]
         * get y [0; 1; 1; 0].
Proof.
  destruct (@pool_gradient_meets_maximum pool22_valid input_1_to_16
              (of_list4 [[[[10]; [20]]; [[30]; [40]]]])
              1 4 4 1 2 2 2 2 0 0 0 0
              eq_refl eq_refl eq_refl eq_refl
              ltac:(lia) ltac:(lia) ltac:(lia) ltac:(lia)
              ltac:(lia) ltac:(lia) eq_refl eq_refl eq_refl)
    as (y & l1 & d_in & Hf & Hb & Hsum).
  exists y, l1, d_in. split; [exact Hf|]. split; [exact Hb|].
  apply (Hsum 0 1 1 0). cbn. lia.
Defined.

(** X27: input cells that no window of the convolution covers get the
    gradient 0.  On an applicable call, [Conv2D.backward] returns 0 at
    every cell of the input whose padded position lies in no receptive
    field; this is the case of the cells between the windows when a
    stride exceeds the kernel size, and of the trailing rows and columns
    that the stride leaves over. *)
Theorem conv_backward_uncovered_cells (l : Conv2D.t) (x w b grad : ndarray)
    (N H W C kh kw oc sh sw p0 p1 p2 p3 : Z) :
  shape x = [N; H; W; C] ->
  Conv2D.kernel l = (kh, kw, C, oc) ->
  Conv2D.stride l = (sh, sw) ->
  Conv2D._get_padding (kh, kw) (Conv2D.padding_mode l)
  = Some (p0, p1, p2, p3) ->
  Conv2D.params_w (Conv2D.lazy_init l) = Some w ->
  Conv2D.params_b (Conv2D.lazy_init l) = Some b ->
  shape w = [kh; kw; C; oc] ->
  shape b = [oc] ->
  1 <= N -> 1 <= H -> 1 <= W -> 1 <= C ->
  1 <= kh -> 1 <= kw -> 1 <= oc -> 1 <= sh -> 1 <= sw ->
  kh <= p0 + H + p1 ->
  kw <= p2 + W + p3 ->
  shape grad
  = [N; (p0 + H + p1 - kh) / sh + 1; (p2 + W + p3 - kw) / sw + 1; oc] ->
  exists y l1 d_in l2,
    Conv2D.forward l x = Ok (y, l1)
    /\ Conv2D.backward l1 grad = Ok (d_in, l2)
    /\ (forall n y' x' c, in_bounds [N; H; W; C] [n; y'; x'; c] ->
          kh <= (p0 + y') mod sh \/ kw <= (p2 + x') mod sw
          \/ ((p0 + H + p1 - kh) / sh) * sh + kh <= p0 + y'
          \/ ((p2 + W + p3 - kw) / sw) * sw + kw <= p2 + x' ->
          get d_in [n; y'; x'; c] = 0).
Proof.
  intros Hx Hk Hs Hpad Hw Hb Hws Hbs HN HH HW HC Hkh Hkw Hoc Hsh Hsw
         Hfh Hfw Hg.
  destruct (@conv_forward_then_backward l x w b N H W C kh kw oc sh sw
              p0 p1 p2 p3 Hx Hk Hs Hpad Hw Hb Hws Hbs HN HH HW HC Hkh Hkw
              Hoc Hsh Hsw Hfh Hfw grad Hg)
    as (y & l1 & c1 & d_in & l2 & Hf & _ & _ & _ & _ & Hbk & _ & Hdg).
  destruct (conv_pad_nonneg l Hpad Hkh Hkw) as (Hp0 & Hp1 & Hp2 & Hp3).
  exists y, l1, d_in, l2. split; [exact Hf|]. split; [exact Hbk|].
  intros n y' x' c Hin Hout. rewrite (Hdg n y' x' c Hin).
  destruct Hin as (Hn & Hy' & Hx' & Hc & _).
  apply sumZ_zero. intros i Hi. apply sumZ_zero. intros j Hj.
  unfold scatter_term.
  pose proof (Z.div_pos (p0 + H + p1 - kh) sh ltac:(lia) ltac:(lia)) as Hq1.
  pose proof (Z.div_pos (p2 + W + p3 - kw) sw ltac:(lia) ltac:(lia)) as Hq2.
  destruct (Z.leb_spec (i * sh) (p0 + y')); [|reflexivity].
  destruct (Z.ltb_spec (p0 + y') (i * sh + kh)); [|reflexivity].
  destruct (Z.leb_spec (j * sw) (p2 + x')); [|reflexivity].
  destruct (Z.ltb_spec (p2 + x') (j * sw + kw)); [|reflexivity].
  exfalso. destruct Hout as [Ho|[Ho|[Ho|Ho]]].
  - destruct (Z_lt_le_dec (p0 + y' - i * sh) sh) as [Hlt|Hge].
    + assert (E : (p0 + y') mod sh = p0 + y' - i * sh).
      { symmetry. apply Z.mod_unique with (q := i); lia. }
      lia.
    + pose proof (Z.mod_pos_bound (p0 + y') sh ltac:(lia)). lia.
  - destruct (Z_lt_le_dec (p2 + x' - j * sw) sw) as [Hlt|Hge].
    + assert (E : (p2 + x') mod sw = p2 + x' - j * sw).
      { symmetry. apply Z.mod_unique with (q := j); lia. }
      lia.
    + pose proof (Z.mod_pos_bound (p2 + x') sw ltac:(lia)). lia.
  - assert (i <= (p0 + H + p1 - kh) / sh) by lia. nia.
  - assert (j <= (p2 + W + p3 - kw) / sw) by lia. nia.
Qed.

Lemma conv_backward_uncovered_cells_witness :
  exists y l1 d_in l2,
    Conv2D.forward
      (Conv2D.mk "VALID" (2, 2, 1, 1) (3, 3) (fun _ => top_left_kernel)
                 zeros_init false None None None None None) input_1_to_16
    = Ok (y, l1)
    /\ Conv2D.backward l1 (np_ones [1; 1; 1; 1]) = Ok (d_in, l2)
    /\ get d_in [0; 2; 0; 0] = 0.
Proof.
  destruct (@conv_backward_uncovered_cells
              (Conv2D.mk "VALID" (2, 2, 1, 1) (3, 3)
                 (fun _ => top_left_kernel) zeros_init
                 false None None None None None)
              input_1_to_16 top_left_kernel (zeros_init 1)
              (np_ones [1; 1; 1; 1])
              1 4 4 1 2 2 1 3 3 0 0 0 0
              eq_refl eq_refl eq_refl eq_refl eq_refl eq_refl eq_refl eq_refl
              ltac:(lia) ltac:(lia) ltac:(lia) ltac:(lia) ltac:(lia)
              ltac:(lia) ltac:(lia) ltac:(lia) ltac:(lia) ltac:(lia)
              ltac:(lia) eq_refl)
    as (y & l1 & d_in & l2 & Hf & Hb & Hz).
  exists y, l1, d_in, l2. split; [exact Hf|]. split; [exact Hb|].
  apply (Hz 0 2 0 0); [cbn; lia|]. left. change (2 <= 2). lia.
Defined.

(* ------------------------------------------------------------------ *)
(** ** An input with the wrong number of channels *)

Lemma mapM_head_raises {A B : Type} (f : A -> result B) (x : A)
    (xs : list A) (e : string) :
  f x = Raise e -> mapM f (x :: xs) = Raise e.
Proof. intros H. cbn [mapM]. rewrite H. reflexivity. Qed.

Lemma reshape_first_indivisible (a : ndarray) (k : Z) :
  0 < k -> size a mod k <> 0 -> reshape a [-1; k] = Raise "ValueError".
Proof.
  intros Hk Hm. unfold reshape.
  assert (Hne : (k =? -1) = false) by (apply Z.eqb_neq; lia).
  assert (Hle : (-1 <=? k) = true) by (apply Z.leb_le; lia).
  cbn [forallb]. rewrite Hle. cbn [Z.leb Z.compare andb guard bind].
  unfold infer_shape. cbn [count_occ filter].
  change (-1 =? -1) with true. rewrite Hne. cbn [negb].
  destruct (Z.eq_dec (-1) (-1)); [|lia].
  destruct (Z.eq_dec k (-1)); [lia|].
  replace (prod [k]) with k by (unfold prod, fold_right; lia).
  destruct (Z.eqb_spec k 0); [lia|].
  destruct (Z.eqb_spec (size a mod k) 0); [contradiction|].
  reflexivity.
Qed.

Section ConvChannelMismatch.

Variables (l : Conv2D.t) (x w : ndarray).
Variables (N H W C C' kh kw kc oc sh sw p0 p1 p2 p3 : Z).

Hypothesis Hx : shape x = [N; H; W; C'].
Hypothesis Hkernel : Conv2D.kernel l = (kh, kw, kc, oc).
Hypothesis Hstride : Conv2D.stride l = (sh, sw).
Hypothesis Hpad :
  Conv2D._get_padding (kh, kw) (Conv2D.padding_mode l) = Some (p0, p1, p2, p3).
Hypothesis Hw : Conv2D.params_w (Conv2D.lazy_init l) = Some w.
Hypothesis Hwshape : shape w = [kh; kw; C; oc].
Hypothesis HN : 1 <= N.
Hypothesis HH : 1 <= H.
Hypothesis HW : 1 <= W.
Hypothesis HC : 1 <= C.
Hypothesis HC' : 1 <= C'.
Hypothesis Hkh : 1 <= kh.
Hypothesis Hkw : 1 <= kw.
Hypothesis Hoc : 1 <= oc.
Hypothesis Hsh : 1 <= sh.
Hypothesis Hsw : 1 <= sw.
Hypothesis Hfit_h : kh <= p0 + H + p1.
Hypothesis Hfit_w : kw <= p2 + W + p3.
Hypothesis Hmismatch : C' <> C.

Local Abbreviation PH := (p0 + H + p1).
Local Abbreviation PW := (p2 + W + p3).
Local Abbreviation oh := ((p0 + H + p1 - kh) / sh + 1).
Local Abbreviation ow := ((p2 + W + p3 - kw) / sw + 1).
Local Abbreviation K := (prod [kh; kw; C]).

Lemma conv_forward_channel_mismatch :
  Conv2D.forward l x = Raise "ValueError".
Proof.
  destruct (conv_pad_nonneg l Hpad Hkh Hkw) as (Hp0 & Hp1 & Hp2 & Hp3).
  destruct (lazy_init_fields l Hkernel Hstride) as (Hk' & Hs' & Hm').
  destruct (out_dims_pos H W p0 p1 p2 p3 HC Hkh Hkw Hsh Hsw Hfit_h Hfit_w)
    as (Hoh & How & HK).
  unfold Conv2D.forward. cbv zeta.
  rewrite Hk', Hs', Hm', Hpad.
  rewrite (@np_pad_edge_ok x N H W C') by auto.
  set (padded := pad_edge x _ H W p0 p2).
  assert (Hps : shape padded = [N; PH; PW; C']) by reflexivity.
  cbn [bind]. rewrite Hx, Hps.
  rewrite !int_div_plus_one_ok by lia. cbn [bind].
  rewrite Hw. cbn [Conv2D.lookup bind]. rewrite Hwshape. cbn [firstn].
  rewrite !py_range_pos by lia. cbn [bind].
  rewrite !range_count by lia.
  set (nr := Z.to_nat oh). set (nc := Z.to_nat ow).
  assert (Hpatch : forall row col,
            0 <= row -> row + kh <= PH -> 0 <= col -> col + kw <= PW ->
            Conv2D.patch_at padded kh kw K row col
            = reshape (window padded [N; kh; kw; C'] row col) [-1; K]).
  { intros row col ? ? ? ?. unfold Conv2D.patch_at.
    rewrite (@slice_hw_inside padded N PH PW C') by (auto; lia).
    reflexivity. }
  assert (Hsz : forall row col,
            size (window padded [N; kh; kw; C'] row col)
            = N * kh * kw * C').
  { intros. unfold size, window, shape, prod, fold_right. lia. }
  assert (HKv : K = kh * kw * C) by (unfold prod, fold_right; lia).
  destruct (Z.eq_dec ((N * kh * kw * C') mod K) 0) as [Hdiv|Hndiv].
  2:{ (* the first patch cannot be laid out in rows of length K *)
      destruct nr as [|nr'] eqn:Hnr; [unfold nr in Hnr; lia|].
      destruct nc as [|nc'] eqn:Hnc; [unfold nc in Hnc; lia|].
      cbn [seq map]. erewrite mapM_head_raises; [reflexivity|].
      cbn [Z.of_nat Z.mul]. erewrite mapM_head_raises; [reflexivity|].
      rewrite Hpatch by lia.
      apply reshape_first_indivisible; [exact HK|]. rewrite Hsz. exact Hndiv. }
  (* the patches are laid out in M rows, M <> N *)
  set (M := N * kh * kw * C' / K).
  assert (HM : N * kh * kw * C' = M * K).
  { pose proof (Z.div_mod (N * kh * kw * C') K ltac:(lia)) as E.
    rewrite Hdiv in E. unfold M. lia. }
  assert (HMN : M <> N).
  { intros E. rewrite E, HKv in HM. apply Hmismatch. nia. }
  assert (HMpos : 1 <= M) by nia.
  set (g := fun i j : nat =>
              reshaped (window padded [N; kh; kw; C']
                          (Z.of_nat i * sh) (Z.of_nat j * sw)) [M; K]).
  rewrite (@mapM_map _ _ _
     (fun row => map (fun col => reshaped (window padded [N; kh; kw; C'] row col) [M; K])
                     (map (fun i => Z.of_nat i * sw) (seq 0 nc)))).
  2:{ intros row Hrow. apply in_map_iff in Hrow as (i & <- & Hi).
      apply in_seq in Hi.
      apply mapM_map. intros col Hcol.
      apply in_map_iff in Hcol as (j & <- & Hj). apply in_seq in Hj.
      pose proof (@range_elem_bound (PH - kh) sh i ltac:(lia) ltac:(lia) ltac:(lia)).
      pose proof (@range_elem_bound (PW - kw) sw j ltac:(lia) ltac:(lia) ltac:(lia)).
      rewrite Hpatch by lia.
      rewrite reshape_infer_first; rewrite ?Hsz; [|exact HK|exact Hdiv].
      reflexivity. }
  cbn [bind]. rewrite map_map.
  replace (map _ (seq 0 nr)) with (map (fun i => map (g i) (seq 0 nc)) (seq 0 nr)).
  2:{ apply map_ext. intros i. rewrite map_map. reflexivity. }
  destruct (@np_asarray2_grid g nr nc [M; K]) as (P4 & -> & HP4s & HP4g);
    [lia | lia | reflexivity |].
  cbn [bind].
  rewrite transpose_ok by (unfold ndim; rewrite HP4s; reflexivity).
  cbn [bind]. unfold transposed, ndim. rewrite HP4s.
  cbn [map nth List.length seq position Nat.eqb].
  set (T := mkarray _ _).
  assert (HsT : size T = (M * oh * ow) * K).
  { unfold size, T, shape, nr, nc. unfold prod at 1. unfold fold_right at 1. lia. }
  rewrite reshape_infer_first; rewrite ?HsT, ?Z.div_mul, ?Z.mod_mul; try lia.
  cbn [bind].
  assert (Hsw' : size w = K * oc).
  { unfold size. rewrite Hwshape. unfold prod, fold_right. lia. }
  rewrite reshape_infer_last; rewrite ?Hsw', ?(Z.mul_comm K oc), ?Z.div_mul, ?Z.mod_mul; try lia.
  cbn [bind].
  unfold matmul. cbn [shape reshaped rev app]. rewrite Z.eqb_refl. cbn [guard bind].
  set (XW := mkarray _ _).
  unfold reshape.
  replace (forallb (fun d => -1 <=? d) [N; oh; ow; oc]) with true.
  2:{ symmetry. cbn [forallb].
      repeat (rewrite (proj2 (Z.leb_le _ _)) by lia). reflexivity. }
  cbn [guard bind].
  rewrite infer_shape_plain by (repeat constructor; lia). cbn [bind].
  replace (prod [N; oh; ow; oc] =? size XW) with false; [reflexivity|].
  symmetry. apply Z.eqb_neq.
  unfold size, XW, shape, prod, fold_right. nia.
Qed.

End ConvChannelMismatch.

(** X28: an input whose number of channels differs from that of the
    weight makes [Conv2D.forward] raise [ValueError]: either a patch
    cannot be laid out in rows of the flattened kernel length, or it is
    laid out in a number of rows other than the batch size and the
    reshape of the product to (N, out_h, out_w, out_c) fails.  The layer
    does not adapt its parameters to the input. *)
Theorem conv_forward_channel_mismatch_raises (l : Conv2D.t) (x w : ndarray)
    (N H W C C' kh kw kc oc sh sw p0 p1 p2 p3 : Z) :
  shape x = [N; H; W; C'] ->
  Conv2D.kernel l = (kh, kw, kc, oc) ->
  Conv2D.stride l = (sh, sw) ->
  Conv2D._get_padding (kh, kw) (Conv2D.padding_mode l)
  = Some (p0, p1, p2, p3) ->
  Conv2D.params_w (Conv2D.lazy_init l) = Some w ->
  shape w = [kh; kw; C; oc] ->
  1 <= N -> 1 <= H -> 1 <= W -> 1 <= C -> 1 <= C' ->
  1 <= kh -> 1 <= kw -> 1 <= oc -> 1 <= sh -> 1 <= sw ->
  kh <= p0 + H + p1 ->
  kw <= p2 + W + p3 ->
  C' <> C ->
  Conv2D.forward l x = Raise "ValueError".
Proof.
  intros. eapply conv_forward_channel_mismatch; eassumption.
Qed.

Lemma conv_forward_channel_mismatch_raises_witness :
  Conv2D.forward top_left_conv (np_ones [1; 3; 3; 2]) = Raise "ValueError"
  /\ Conv2D.forward
       (Conv2D.mk "VALID" (1, 1, 2, 1) (1, 1) (fun _ => np_ones [1; 1; 2; 1])
                  zeros_init false None None None None None)
       (np_ones [1; 3; 3; 3])
     = Raise "ValueError".
Proof.
  split.
  - apply (@conv_forward_channel_mismatch_raises top_left_conv
             (np_ones [1; 3; 3; 2]) top_left_kernel
             1 3 3 1 2 2 2 1 1 1 1 0 0 0 0);
      try reflexivity; lia.
  - apply (@conv_forward_channel_mismatch_raises
             (Conv2D.mk "VALID" (1, 1, 2, 1) (1, 1)
                (fun _ => np_ones [1; 1; 2; 1]) zeros_init
                false None None None None None)
             (np_ones [1; 3; 3; 3]) (np_ones [1; 1; 2; 1])
             1 3 3 2 3 1 1 2 1 1 1 0 0 0 0);
      try reflexivity; lia.
Defined.
